(** * Enoki-JIT / Dr.Jit core: initialization, shutdown, synchronization,
      library discovery and LLVM backend start-up

    A shallow embedding of [src/common.h], [src/init.cpp] and
    [src/llvm_core.cpp].  The C++ code is stateful and talks to the CUDA
    driver, the dynamic loader, the file system and the logger; it is
    embedded as functions in a state-and-failure monad [M] over a [World]
    that holds the global [State] record, the heap of [ThreadState]
    objects, the calling thread's thread-local pointers and the trace of
    externally visible events.  Answers of the outside world (driver return
    codes, loader results, ...) are read from an [Externals] record whose
    functions see the trace so far, so they may depend on the whole history
    of calls. *)

From Stdlib Require Import ZArith List String Ascii Bool Lia Permutation Sorted.
From stdpp Require Import base option gmap.
Import ListNotations.
Local Open Scope string_scope.
Local Open Scope list_scope.
Local Open Scope Z_scope.

(** ** Handles and plain data *)

(** CUDA handles and device ordinals are opaque machine values. *)
Definition CUcontext := Z.
Definition CUstream := Z.
Definition CUevent := Z.
Definition CUresult := Z.
(** Address of a heap-allocated [ThreadState]. *)
Definition ptr := nat.
(** Handle of a task of the thread pool ([Task *]); [None] is [nullptr]. *)
Definition Task := nat.

(** Values of [CUresult] that the code names (CUDA driver API numbering). *)
Definition CUDA_SUCCESS : CUresult := 0.
Definition CUDA_ERROR_PEER_ACCESS_ALREADY_ENABLED : CUresult := 704.

(** Modelled from the spec: the [LogLevel] enumeration is declared in a
    header that is not part of the sources; section 6 lists "Five levels
    {Error, Warn, Info, Debug, Trace}", ordered by increasing verbosity. *)
Inductive LogLevel : Type := Error | Warn | Info | Debug | Trace.

Definition LogLevel_rank (l : LogLevel) : Z :=
  match l with Error => 0 | Warn => 1 | Info => 2 | Debug => 3 | Trace => 4 end.

(** [a >= b] on [LogLevel]. *)
Definition LogLevel_ge (a b : LogLevel) : bool :=
  LogLevel_rank b <=? LogLevel_rank a.

(** [std::max] on [LogLevel]: returns the first argument unless it is
    smaller than the second. *)
Definition LogLevel_max (a b : LogLevel) : LogLevel :=
  if LogLevel_rank a <? LogLevel_rank b then b else a.

(** Arguments of a printf-style call. *)
Inductive Arg : Type :=
| ArgI (i : Z)          (* %i / %u / %zu *)
| ArgS (s : string).    (* %s *)

(** What the code uses of [struct Variable] ([Variable] is a reserved word
    here, hence the underscore). *)
Record Variable_ : Type := mkVariable {
  scatter : bool;
  ref_count_ext : Z;
  ref_count_int : Z;
  dep : list Z
}.

(** [VariableKey]: only the four dependency indices are read here. *)
Record VariableKey : Type := mkVariableKey {
  key_dep : list Z
}.

(** [struct Device]. *)
Record Device : Type := mkDevice {
  dev_id : Z;
  dev_compute_capability : Z;
  dev_shared_memory_bytes : Z;
  dev_num_sm : Z;
  dev_context : CUcontext;
  dev_sub_streams : list CUstream;
  dev_sub_events : list CUevent
}.

(** What the code uses of [struct ThreadState]. *)
Record ThreadState : Type := mkThreadState {
  ts_cuda : bool;
  ts_context : CUcontext;
  ts_stream : CUstream;
  ts_event : CUevent;
  ts_device : Z;
  ts_task : option Task;
  ts_active_mask : list Z
}.

(** [new ThreadState()]: a value-initialised object. *)
Definition ThreadState_new : ThreadState :=
  mkThreadState false 0 0 0 0 None [].

(** Entry of the kernel cache: the key's device and an identifier standing
    for the key's string and the kernel. *)
Record KernelEntry : Type := mkKernelEntry {
  kernel_device : Z;
  kernel_id : Z
}.

(** The global [State state].  Hash maps are kept as association lists in
    their iteration order; [mutex_locked] is [state.mutex] as seen by the
    calling thread. *)
Record State : Type := mkState {
  has_llvm : bool;
  has_cuda : bool;
  tss : list ptr;
  devices : list Device;
  variables : list (Z * Variable_);
  extra : list Z;
  cse_cache : list (VariableKey * Z);
  variable_from_ptr : list Z;
  kernel_cache : list KernelEntry;
  log_level_stderr : LogLevel;
  log_level_callback : LogLevel;
  variable_index : Z;
  kernel_hard_misses : Z;
  kernel_soft_misses : Z;
  kernel_hits : Z;
  kernel_launches : Z;
  mutex_locked : bool
}.

(** ** Events *)

Inductive DeviceAttr : Type :=
| CU_DEVICE_ATTRIBUTE_PCI_BUS_ID
| CU_DEVICE_ATTRIBUTE_PCI_DEVICE_ID
| CU_DEVICE_ATTRIBUTE_PCI_DOMAIN_ID
| CU_DEVICE_ATTRIBUTE_MULTIPROCESSOR_COUNT
| CU_DEVICE_ATTRIBUTE_UNIFIED_ADDRESSING
| CU_DEVICE_ATTRIBUTE_MANAGED_MEMORY
| CU_DEVICE_ATTRIBUTE_MAX_SHARED_MEMORY_PER_BLOCK_OPTIN
| CU_DEVICE_ATTRIBUTE_COMPUTE_CAPABILITY_MINOR
| CU_DEVICE_ATTRIBUTE_COMPUTE_CAPABILITY_MAJOR.

(** Calls into the CUDA driver, with their input arguments. *)
Inductive CudaCall : Type :=
| cuDeviceTotalMem (dev : Z)
| cuDeviceGetName (dev : Z)
| cuDeviceGetAttribute (attr : DeviceAttr) (dev : Z)
| cuDevicePrimaryCtxRetain (dev : Z)
| cuDevicePrimaryCtxRelease (dev : Z)
| cuStreamCreate
| cuEventCreate
| cuStreamSynchronize (s : CUstream)
| cuStreamDestroy (s : CUstream)
| cuEventDestroy (e : CUevent)
| cuCtxSynchronize
| cuDeviceCanAccessPeer (a b : Z)
| cuCtxEnablePeerAccess (peer : CUcontext).

(** Calls into other translation units of the library whose bodies are not
    part of the sources at hand. *)
Inductive ExtCall : Type :=
| call_jit_free_flush (ts : ptr)
| call_pool_destroy
| call_jit_kernel_free (device id : Z)
| call_jit_var_dec_ref_ext (index : Z)
| call_jit_registry_shutdown
| call_jit_malloc_shutdown
| call_jit_llvm_init
| call_jit_cuda_init
| call_jit_llvm_shutdown
| call_jit_cuda_shutdown
| call_mkdir (path : string)
| call_dlopen (path : string)
| call_glob (pattern : string)
| call_lstat (path : string).

Inductive Event : Type :=
| EvLog (level : LogLevel) (fmt : string) (args : list Arg)
| EvUnlock
| EvLock
| EvSnapshot (l : list ptr)
| EvCuda (current : option CUcontext) (c : CudaCall)
| EvTaskWait (t : option Task)
| EvCall (c : ExtCall)
| EvNew (p : ptr)
| EvDelete (p : ptr).

(** The three calls that wait for asynchronous work. *)
Definition blocking (e : Event) : bool :=
  match e with
  | EvCuda _ (cuStreamSynchronize _) => true
  | EvCuda _ cuCtxSynchronize => true
  | EvTaskWait _ => true
  | _ => false
  end.

(** ** The world and the monad *)

Record World : Type := mkWorld {
  state : State;
  heap : gmap ptr ThreadState;
  thread_state_cuda : option ptr;
  thread_state_llvm : option ptr;
  jit_temp_path : option string;
  ctx_stack : list CUcontext;
  trace : list Event
}.

Inductive Failure : Type :=
| Raised (fmt : string) (args : list Arg)   (* jit_raise: a C++ exception *)
| Fatal (fmt : string) (args : list Arg)    (* jit_fail: the process ends *)
| Undefined.                                (* undefined behaviour *)

Inductive Result (A : Type) : Type :=
| Ok (a : A)
| Err (f : Failure).
Arguments Ok {A} a.
Arguments Err {A} f.

Definition M (A : Type) : Type := World -> Result A * World.

Definition ret {A} (a : A) : M A := fun w => (Ok a, w).

Definition bind {A B} (m : M A) (k : A -> M B) : M B := fun w =>
  match m w with
  | (Ok a, w') => k a w'
  | (Err f, w') => (Err f, w')
  end.

Definition fail {A} (f : Failure) : M A := fun w => (Err f, w).

Notation "'let*' x ':=' m 'in' k" := (bind m (fun x => k))
  (at level 10, x name, m at level 100, k at level 200).
Notation "m >> k" := (bind m (fun _ => k))
  (at level 90, right associativity).

Definition get_state : M State := fun w => (Ok (state w), w).

Definition set_state (s : State) : M unit := fun w =>
  (Ok tt, mkWorld s (heap w) (thread_state_cuda w) (thread_state_llvm w)
                  (jit_temp_path w) (ctx_stack w) (trace w)).

Definition set_heap (h : gmap ptr ThreadState) : M unit := fun w =>
  (Ok tt, mkWorld (state w) h (thread_state_cuda w) (thread_state_llvm w)
                  (jit_temp_path w) (ctx_stack w) (trace w)).

Definition set_thread_state_cuda (p : option ptr) : M unit := fun w =>
  (Ok tt, mkWorld (state w) (heap w) p (thread_state_llvm w)
                  (jit_temp_path w) (ctx_stack w) (trace w)).

Definition set_thread_state_llvm (p : option ptr) : M unit := fun w =>
  (Ok tt, mkWorld (state w) (heap w) (thread_state_cuda w) p
                  (jit_temp_path w) (ctx_stack w) (trace w)).

Definition set_jit_temp_path (p : option string) : M unit := fun w =>
  (Ok tt, mkWorld (state w) (heap w) (thread_state_cuda w)
                  (thread_state_llvm w) p (ctx_stack w) (trace w)).

Definition set_ctx_stack (l : list CUcontext) : M unit := fun w =>
  (Ok tt, mkWorld (state w) (heap w) (thread_state_cuda w)
                  (thread_state_llvm w) (jit_temp_path w) l (trace w)).

(** Append an event to the trace. *)
Definition emit (e : Event) : M unit := fun w =>
  (Ok tt, mkWorld (state w) (heap w) (thread_state_cuda w)
                  (thread_state_llvm w) (jit_temp_path w) (ctx_stack w)
                  (trace w ++ [e])).

(** [for (x : l) body]. *)
Fixpoint for_each {A} (l : list A) (body : A -> M unit) : M unit :=
  match l with
  | [] => ret tt
  | x :: l' => body x >> for_each l' body
  end.

(** A scope that owns an object with a constructor and a destructor.  The
    destructor runs when the scope is left normally or by an exception;
    [jit_fail] ends the process without unwinding. *)
Definition scoped {A} (ctor dtor : M unit) (body : M A) : M A := fun w =>
  match ctor w with
  | (Err f, w1) => (Err f, w1)
  | (Ok _, w1) =>
      match body w1 with
      | (Ok a, w2) =>
          match dtor w2 with
          | (Ok _, w3) => (Ok a, w3)
          | (Err f, w3) => (Err f, w3)
          end
      | (Err (Raised fmt args), w2) =>
          match dtor w2 with
          | (Ok _, w3) => (Err (Raised fmt args), w3)
          | (Err f, w3) => (Err f, w3)
          end
      | (Err f, w2) => (Err f, w2)
      end
  end.

(** ** The outside world *)

(** Build configuration ([_WIN32], [__linux__], [__APPLE__], other). *)
Inductive Platform : Type := Win32 | Linux | Apple | OtherUnix.

(** Everything the code reads from outside the three source files.  The
    functions that stand for a call take the trace so far, so an answer may
    depend on all earlier calls. *)
Record Externals : Type := mkExternals {
  platform : Platform;
  (** [ENOKI_SUB_STREAMS], a compile-time constant. *)
  ENOKI_SUB_STREAMS : nat;
  (** The driver's answer to a call made with a given current context: the
      return code and the value stored through the out-parameter. *)
  cuda_answer : list Event -> option CUcontext -> CudaCall -> CUresult * Z;
  (** Whether a return code passes the [cuda_check] macro (declared in a
      header that is not part of the sources). *)
  cuda_check_passes : CUresult -> bool;
  (** Effect of [jit_var_dec_ref_ext(index)] on the global state. *)
  var_dec_ref_ext : Z -> State -> State;
  (** Return values of [jit_llvm_init()] and [jit_cuda_init()], and the
      global [jit_cuda_devices]. *)
  llvm_init_answer : list Event -> bool;
  cuda_init_answer : list Event -> bool;
  jit_cuda_devices : list Event -> Z;
  (** [getenv], and the calls of [jit_init] on the temporary directory:
      [GetTempPathW] (Windows), whether [stat] returns [-1], whether
      [mkdir] returns [-1], and [strerror(errno)]. *)
  getenv : string -> option string;
  GetTempPathW : option string;
  stat_fails : string -> bool;
  mkdir_fails : list Event -> string -> bool;
  strerror_errno : string;
  (** The dynamic loader and the file system as [jit_find_library] sees
      them: the handle returned by [dlopen] ([None] is a null handle), the
      text of [dlerror()], the paths found by [glob] ([None] when it does
      not return 0), and [lstat] ([None] when it fails, otherwise whether
      the path is a symbolic link). *)
  dlopen : string -> option Z;
  dlerror : string;
  glob : string -> option (list string);
  lstat : string -> option bool;
  (** The order in which [std::sort] leaves a range for a comparator. *)
  std_sort : (string -> string -> bool) -> list string -> list string;
  (** The name that [cuDeviceGetName] stored in its buffer, given the value
      that [cuda_answer] has for the call, and the text returned by
      [jit_mem_string], a function of another translation unit. *)
  device_name : Z -> string;
  jit_mem_string : Z -> string
}.

(** ** State updates *)

Definition with_mutex_locked (b : bool) (s : State) : State :=
  mkState (has_llvm s) (has_cuda s) (tss s) (devices s) (variables s)
    (extra s) (cse_cache s) (variable_from_ptr s) (kernel_cache s)
    (log_level_stderr s) (log_level_callback s) (variable_index s)
    (kernel_hard_misses s) (kernel_soft_misses s) (kernel_hits s)
    (kernel_launches s) b.

Definition with_tss (l : list ptr) (s : State) : State :=
  mkState (has_llvm s) (has_cuda s) l (devices s) (variables s)
    (extra s) (cse_cache s) (variable_from_ptr s) (kernel_cache s)
    (log_level_stderr s) (log_level_callback s) (variable_index s)
    (kernel_hard_misses s) (kernel_soft_misses s) (kernel_hits s)
    (kernel_launches s) (mutex_locked s).

Definition with_devices (l : list Device) (s : State) : State :=
  mkState (has_llvm s) (has_cuda s) (tss s) l (variables s)
    (extra s) (cse_cache s) (variable_from_ptr s) (kernel_cache s)
    (log_level_stderr s) (log_level_callback s) (variable_index s)
    (kernel_hard_misses s) (kernel_soft_misses s) (kernel_hits s)
    (kernel_launches s) (mutex_locked s).

Definition with_kernel_cache (l : list KernelEntry) (s : State) : State :=
  mkState (has_llvm s) (has_cuda s) (tss s) (devices s) (variables s)
    (extra s) (cse_cache s) (variable_from_ptr s) l
    (log_level_stderr s) (log_level_callback s) (variable_index s)
    (kernel_hard_misses s) (kernel_soft_misses s) (kernel_hits s)
    (kernel_launches s) (mutex_locked s).

Definition with_has_llvm (b : bool) (s : State) : State :=
  mkState b (has_cuda s) (tss s) (devices s) (variables s)
    (extra s) (cse_cache s) (variable_from_ptr s) (kernel_cache s)
    (log_level_stderr s) (log_level_callback s) (variable_index s)
    (kernel_hard_misses s) (kernel_soft_misses s) (kernel_hits s)
    (kernel_launches s) (mutex_locked s).

Definition with_has_cuda (b : bool) (s : State) : State :=
  mkState (has_llvm s) b (tss s) (devices s) (variables s)
    (extra s) (cse_cache s) (variable_from_ptr s) (kernel_cache s)
    (log_level_stderr s) (log_level_callback s) (variable_index s)
    (kernel_hard_misses s) (kernel_soft_misses s) (kernel_hits s)
    (kernel_launches s) (mutex_locked s).

(** [state.variable_index = 1] and the four kernel counters reset to 0. *)
Definition with_counters_reset (s : State) : State :=
  mkState (has_llvm s) (has_cuda s) (tss s) (devices s) (variables s)
    (extra s) (cse_cache s) (variable_from_ptr s) (kernel_cache s)
    (log_level_stderr s) (log_level_callback s) 1 0 0 0 0 (mutex_locked s).

Definition modify_state (f : State -> State) : M unit :=
  let* s := get_state in set_state (f s).

Definition get_heap : M (gmap ptr ThreadState) := fun w => (Ok (heap w), w).

(** [*p] for a [ThreadState *p]; a dangling pointer is undefined
    behaviour. *)
Definition load (p : ptr) : M ThreadState :=
  let* h := get_heap in
  match h !! p with
  | Some t => ret t
  | None => fail Undefined
  end.

Definition store (p : ptr) (t : ThreadState) : M unit :=
  let* h := get_heap in
  match h !! p with
  | Some _ => set_heap (<[p := t]> h)
  | None => fail Undefined
  end.

(** ** Logging and errors *)

(** Modelled from the spec: [jit_log], [jit_raise] and [jit_fail] are
    defined in a translation unit that is not part of the sources.  Section
    7: user-visible errors "return errors to the caller" ([jit_raise]
    throws), fatal ones terminate the process "after a diagnostic dump"
    ([jit_fail]).  A call of [jit_log] is recorded with its level, format
    string and arguments. *)
Definition jit_log (level : LogLevel) (fmt : string) (args : list Arg) : M unit :=
  emit (EvLog level fmt args).

Definition jit_raise {A} (fmt : string) (args : list Arg) : M A :=
  fail (Raised fmt args).

Definition jit_fail {A} (fmt : string) (args : list Arg) : M A :=
  fail (Fatal fmt args).

Section Code.

Variable X : Externals.

(** A call of a driver function: the event is recorded with the context
    that is current, and the driver's answer is returned. *)
Definition cuda_call (c : CudaCall) : M (CUresult * Z) := fun w =>
  let cur := head (ctx_stack w) in
  (Ok (cuda_answer X (trace w) cur c),
   mkWorld (state w) (heap w) (thread_state_cuda w) (thread_state_llvm w)
           (jit_temp_path w) (ctx_stack w) (trace w ++ [EvCuda cur c])).

(** [cuda_check(rv)]: a return code that does not pass is fatal. *)
Definition cuda_check (rv : CUresult) : M unit :=
  if cuda_check_passes X rv then ret tt
  else jit_fail "cuda_check(): API error %04i" [ArgI rv].

(** [cuda_check(f(...))] for a call whose out-parameter is not used. *)
Definition cuda_checked (c : CudaCall) : M Z :=
  let* a := cuda_call c in
  cuda_check (fst a) >> ret (snd a).

(** Modelled from the spec: [scoped_set_context] is declared in a header
    that is not part of the sources; it makes a context current for the
    extent of a scope ("set context", section 4.10) and restores the
    previous one when the scope is left. *)
Definition scoped_set_context {A} (ctx : CUcontext) (body : M A) : M A :=
  scoped (fun w => set_ctx_stack (ctx :: ctx_stack w) w)
         (fun w => set_ctx_stack (tail (ctx_stack w)) w)
         body.

(** [task_wait_and_release(task)] of the thread pool. *)
Definition task_wait_and_release (t : option Task) : M unit :=
  emit (EvTaskWait t).

(** A call of a function of another translation unit that only leaves an
    event. *)
Definition ext_call (c : ExtCall) : M unit := emit (EvCall c).

(** ** common.h *)

(** [std::mutex::unlock]: undefined unless the calling thread owns it. *)
Definition mutex_unlock : M unit :=
  let* s := get_state in
  if mutex_locked s
  then emit EvUnlock >> set_state (with_mutex_locked false s)
  else fail Undefined.

(** [std::mutex::lock]: undefined when the calling thread already owns
    it. *)
Definition mutex_lock : M unit :=
  let* s := get_state in
  if mutex_locked s
  then fail Undefined
  else emit EvLock >> set_state (with_mutex_locked true s).

(** [class unlock_guard]: the constructor unlocks [state.mutex], the
    destructor locks it again. *)
Definition unlock_guard {A} (body : M A) : M A :=
  scoped mutex_unlock mutex_lock body.

(** [detail::scope_guard<Func>]: an object that stores [func].  The struct
    declares constructors and assignment operators only. *)
Record scope_guard (Func : Type) : Type := mk_scope_guard { func : Func }.
Arguments mk_scope_guard {Func} func.
Arguments func {Func} s.

(** [scope_guard(const Func &func) : func(func) { }] *)
Definition scope_guard_ctor {Func} (f : Func) : M (scope_guard Func) :=
  ret (mk_scope_guard f).

(** [scope_guard(scope_guard &&g) : func(std::move(g.func)) {}] *)
Definition scope_guard_move {Func} (g : scope_guard Func) : M (scope_guard Func) :=
  ret (mk_scope_guard (func g)).

(** The implicitly-defined destructor: it destroys the member [func] and
    has no body of its own. *)
Definition scope_guard_dtor {Func} (g : scope_guard Func) : M unit :=
  ret tt.

(** The helper [scope_guard(func)]: returns [detail::scope_guard<Func>(func)]. *)
Definition make_scope_guard {Func} (f : Func) : M (scope_guard Func) :=
  scope_guard_ctor f.

(** [{ auto guard = scope_guard(f); body }]: the guard is constructed,
    the body runs, and the guard is destroyed when the scope is left
    (normally or by an exception). *)
Definition with_scope_guard {A} (f : M unit) (body : M A) : M A := fun w =>
  match make_scope_guard f w with
  | (Err e, w1) => (Err e, w1)
  | (Ok g, w1) =>
      scoped (ret tt) (scope_guard_dtor g) body w1
  end.

(** ** init.cpp: synchronization *)

(** [void jit_sync_thread(ThreadState *ts)] *)
Definition jit_sync_thread_ts (ts : option ptr) : M unit :=
  match ts with
  | None => ret tt
  | Some p =>
      let* t := load p in
      if ts_cuda t
      then scoped_set_context (ts_context t)
             (cuda_checked (cuStreamSynchronize (ts_stream t)) >> ret tt)
      else
        task_wait_and_release (ts_task t) >>
        store p (mkThreadState (ts_cuda t) (ts_context t) (ts_stream t)
                   (ts_event t) (ts_device t) None (ts_active_mask t))
  end.

Definition get_thread_state_cuda : M (option ptr) :=
  fun w => (Ok (thread_state_cuda w), w).
Definition get_thread_state_llvm : M (option ptr) :=
  fun w => (Ok (thread_state_llvm w), w).

(** [void jit_sync_thread()] *)
Definition jit_sync_thread : M unit :=
  unlock_guard
    (let* c := get_thread_state_cuda in
     jit_sync_thread_ts c >>
     let* l := get_thread_state_llvm in
     jit_sync_thread_ts l).

(** [std::vector<ThreadState *> tss = state.tss;] *)
Definition snapshot_tss : M (list ptr) :=
  let* s := get_state in
  emit (EvSnapshot (tss s)) >> ret (tss s).

(** Body of the loop of [jit_sync_device]:
    [if (!ts->cuda) jit_sync_thread(ts);] *)
Definition sync_if_cpu (p : ptr) : M unit :=
  let* t := load p in
  if negb (ts_cuda t) then jit_sync_thread_ts (Some p) else ret tt.

(** [void jit_sync_device()] *)
Definition jit_sync_device : M unit :=
  let* ts := get_thread_state_cuda in
  match ts with
  | Some p =>
      unlock_guard
        (let* t := load p in
         scoped_set_context (ts_context t)
           (cuda_checked cuCtxSynchronize >> ret tt))
  | None => ret tt
  end >>
  let* l := get_thread_state_llvm in
  match l with
  | Some _ =>
      let* tss := snapshot_tss in
      unlock_guard (for_each tss sync_if_cpu)
  | None => ret tt
  end.

(** [void jit_sync_all_devices()] *)
Definition jit_sync_all_devices : M unit :=
  let* tss := snapshot_tss in
  unlock_guard (for_each tss (fun p => jit_sync_thread_ts (Some p))).

(** ** init.cpp: thread states *)

(** The double-quote character of the C string literals. *)
Definition dq : string := String (ascii_of_nat 34) EmptyString.

Definition cuda_fname : string :=
  match platform X with
  | Win32 => "nvcuda.dll"
  | Linux => "libcuda.so"
  | _ => "libcuda.dylib"
  end.

Definition llvm_fname : string :=
  match platform X with
  | Win32 => "LLVM-C.dll"
  | Linux => "libLLVM.so"
  | _ => "libLLVM.dylib"
  end.

Definition msg_cuda_inactive : string :=
  ("jit_init_thread_state(): the CUDA backend is inactive " ++
   "because the CUDA driver library (" ++ dq ++ "%s" ++ dq ++ ") could not be " ++
   "found! Set the ENOKI_LIBCUDA_PATH environment " ++
   "variable to specify its path.")%string.

Definition msg_no_devices : string :=
  ("jit_init_thread_state(): the CUDA backend is inactive " ++
   "because no compatible CUDA devices were found on your " ++
   "system.")%string.

Definition msg_llvm_inactive : string :=
  ("jit_init_thread_state(): the LLVM backend is inactive " ++
   "because the LLVM shared library (" ++ dq ++ "%s" ++ dq ++ ") could not be " ++
   "found! Set the ENOKI_LIBLLVM_PATH environment " ++
   "variable to specify its path.")%string.

(** [new ThreadState()]: a fresh address holding a value-initialised
    object. *)
Definition new_ThreadState : M ptr :=
  let* h := get_heap in
  let p := fresh (dom h) in
  emit (EvNew p) >> set_heap (<[p := ThreadState_new]> h) >> ret p.

(** [delete ts]. *)
Definition delete_ThreadState (p : ptr) : M unit :=
  let* h := get_heap in
  match h !! p with
  | Some _ => emit (EvDelete p) >> set_heap (delete p h)
  | None => fail Undefined
  end.

(** [ThreadState *jit_init_thread_state(bool cuda)] *)
Definition jit_init_thread_state (cuda : bool) : M ptr :=
  let* ts := new_ThreadState in
  (if cuda then
     let* s := get_state in
     (if negb (has_cuda s)
      then delete_ThreadState ts >> jit_raise msg_cuda_inactive [ArgS cuda_fname]
      else ret tt) >>
     match devices s with
     | [] => delete_ThreadState ts >> jit_raise msg_no_devices []
     | d0 :: _ =>
         let* t := load ts in
         let ctx := dev_context d0 in
         scoped_set_context ctx
           (let* stream := cuda_checked cuStreamCreate in
            let* event := cuda_checked cuEventCreate in
            store ts (mkThreadState (ts_cuda t) ctx stream event 0
                        (ts_task t) (ts_active_mask t)) >>
            set_thread_state_cuda (Some ts))
     end
   else
     let* s := get_state in
     (if negb (has_llvm s)
      then delete_ThreadState ts >> jit_raise msg_llvm_inactive [ArgS llvm_fname]
      else ret tt) >>
     set_thread_state_llvm (Some ts) >>
     let* t := load ts in
     store ts (mkThreadState (ts_cuda t) (ts_context t) (ts_stream t)
                 (ts_event t) (-1) (ts_task t) (ts_active_mask t))) >>
  let* t := load ts in
  store ts (mkThreadState cuda (ts_context t) (ts_stream t) (ts_event t)
              (ts_device t) (ts_task t) (ts_active_mask t)) >>
  modify_state (fun s => with_tss (tss s ++ [ts]) s) >>
  ret ts.

(** ** init.cpp: shutdown *)

(** Conversion to [uint32_t]. *)
Definition uint32 (z : Z) : Z := z mod 2 ^ 32.

Definition len {A} (l : list A) : Z := Z.of_nat (length l).

Definition plural (n : Z) : string := if 1 <? n then "s" else "".

(** Body of the loop over [state.tss] in [jit_shutdown]
    ([ts->release_chain] is not represented). *)
Definition shutdown_thread_state (p : ptr) : M unit :=
  ext_call (call_jit_free_flush p) >>
  let* t := load p in
  (if ts_cuda t then
     scoped_set_context (ts_context t)
       (cuda_checked (cuStreamSynchronize (ts_stream t)) >>
        cuda_checked (cuEventDestroy (ts_event t)) >>
        cuda_checked (cuStreamDestroy (ts_stream t)) >> ret tt)
   else
     task_wait_and_release (ts_task t) >>
     match ts_active_mask t with
     | [] => ret tt
     | _ => jit_log Warn "jit_shutdown(): leaked %zu active masks!"
              [ArgI (len (ts_active_mask t))]
     end) >>
  delete_ThreadState p.

(** Lines 194-219: release of the thread states. *)
Definition shutdown_thread_states : M unit :=
  let* s := get_state in
  match tss s with
  | [] => ret tt
  | _ =>
      jit_log Info "jit_shutdown(): releasing %zu thread state%s .."
        [ArgI (len (tss s)); ArgS (plural (len (tss s)))] >>
      for_each (tss s) shutdown_thread_state >>
      ext_call call_pool_destroy >>
      modify_state (with_tss [])
  end >>
  set_thread_state_llvm None >>
  set_thread_state_cuda None.

(** Lines 221-232: release of the kernel cache. *)
Definition shutdown_kernel_cache : M unit :=
  let* s := get_state in
  match kernel_cache s with
  | [] => ret tt
  | _ =>
      jit_log Info "jit_shutdown(): releasing %zu kernel%s .."
        [ArgI (len (kernel_cache s)); ArgS (plural (len (kernel_cache s)))] >>
      for_each (kernel_cache s) (fun v =>
        ext_call (call_jit_kernel_free (kernel_device v) (kernel_id v))) >>
      modify_state (with_kernel_cache [])
  end.

(** The condition under which a variable is pushed to [leaked_scatters]. *)
Definition is_leaked_scatter (v : Variable_) : bool :=
  scatter v && (ref_count_ext v =? 1) && (ref_count_int v =? 0).

Definition leaked_scatters (vars : list (Z * Variable_)) : list Z :=
  map fst (filter (fun kv => is_leaked_scatter (snd kv)) vars).

(** [jit_var_dec_ref_ext(i)]: defined in another translation unit; the
    call is recorded and its effect on the state is [var_dec_ref_ext]. *)
Definition jit_var_dec_ref_ext (i : Z) : M unit :=
  ext_call (call_jit_var_dec_ref_ext i) >>
  modify_state (var_dec_ref_ext X i).

Definition msg_leak_header : string := "jit_shutdown(): detected variable leaks:".
Definition msg_leak_variable : string :=
  (" - variable %u is still being referenced! (internal " ++
   "references=%u, external references=%u)")%string.
Definition msg_leak_skip : string := " - (skipping remainder)".
Definition msg_leak_summary : string :=
  "jit_shutdown(): %u variables are still referenced!".

(** The loop of lines 244-256 over [state.variables]; [n_leaked] is a
    [uint32_t]. Returns the final value of [n_leaked]. *)
Fixpoint report_leaks (vars : list (Z * Variable_)) (n_leaked : Z) : M Z :=
  match vars with
  | [] => ret n_leaked
  | var :: rest =>
      (if n_leaked =? 0 then jit_log Warn msg_leak_header [] else ret tt) >>
      (if n_leaked <? 10 then
         jit_log Warn msg_leak_variable
           [ArgI (fst var); ArgI (ref_count_int (snd var));
            ArgI (ref_count_ext (snd var))]
       else if n_leaked =? 10 then jit_log Warn msg_leak_skip []
       else ret tt) >>
      report_leaks rest (uint32 (n_leaked + 1))
  end.

(** The guard of line 234. *)
Definition leak_pass_enabled (s : State) : bool :=
  LogLevel_ge (LogLevel_max (log_level_stderr s) (log_level_callback s)) Warn.

(** Lines 234-265: the leak pass. *)
Definition shutdown_leak_pass : M unit :=
  let* s := get_state in
  if leak_pass_enabled s then
    for_each (leaked_scatters (variables s)) jit_var_dec_ref_ext >>
    let* s := get_state in
    let* n_leaked := report_leaks (variables s) 0 in
    (if 0 <? n_leaked
     then jit_log Warn msg_leak_summary [ArgI n_leaked]
     else ret tt) >>
    let* s := get_state in
    match variables s, extra s with
    | [], _ :: _ =>
        jit_log Warn "jit_shutdown(): %zu empty records were not cleaned up!"
          [ArgI (len (extra s))]
    | _, _ => ret tt
    end
  else ret tt.

Definition msg_cse_entry : string := " - %u: %u, %u, %u, %u".
Definition msg_cse_leak : string :=
  "jit_shutdown(): detected a common subexpression elimination cache leak!".
Definition msg_ptr_leak : string :=
  "jit_shutdown(): detected a pointer-literal leak!".

Definition log_cse_entry (kv : VariableKey * Z) : M unit :=
  jit_log Warn msg_cse_entry
    [ArgI (snd kv); ArgI (nth 0 (key_dep (fst kv)) 0);
     ArgI (nth 1 (key_dep (fst kv)) 0); ArgI (nth 2 (key_dep (fst kv)) 0);
     ArgI (nth 3 (key_dep (fst kv)) 0)].

(** Lines 267-275: the two fatal consistency checks. *)
Definition shutdown_cache_checks : M unit :=
  let* s := get_state in
  match variables s, cse_cache s with
  | [], _ :: _ =>
      for_each (cse_cache s) log_cse_entry >>
      jit_fail msg_cse_leak []
  | _, _ => ret tt
  end >>
  let* s := get_state in
  match variables s, variable_from_ptr s with
  | [], _ :: _ => jit_fail msg_ptr_leak []
  | _, _ => ret tt
  end.

(** Body of the loop over [state.devices] in [jit_shutdown]. *)
Definition shutdown_device (v : Device) : M unit :=
  scoped_set_context (dev_context v)
    (for_each (seq 0 (ENOKI_SUB_STREAMS X)) (fun i =>
       cuda_checked (cuEventDestroy (nth i (dev_sub_events v) 0)) >>
       cuda_checked (cuStreamDestroy (nth i (dev_sub_streams v) 0)) >>
       ret tt)) >>
  cuda_checked (cuDevicePrimaryCtxRelease (dev_id v)) >> ret tt.

(** Lines 277-305: the rest of [jit_shutdown]. *)
Definition shutdown_backends (light : Z) : M unit :=
  ext_call call_jit_registry_shutdown >>
  ext_call call_jit_malloc_shutdown >>
  let* s := get_state in
  (if has_cuda s then
     for_each (devices s) shutdown_device >>
     modify_state (with_devices [])
   else ret tt) >>
  jit_log Info "jit_shutdown(): done" [] >>
  (if light =? 0 then
     ext_call call_jit_llvm_shutdown >>
     ext_call call_jit_cuda_shutdown
   else ret tt) >>
  set_jit_temp_path None >>
  modify_state (with_has_cuda false) >>
  modify_state (with_has_llvm false).

(** Lines 194-232: thread states and kernels are released. *)
Definition shutdown_release : M unit :=
  shutdown_thread_states >> shutdown_kernel_cache.

(** [void jit_shutdown(int light)] *)
Definition jit_shutdown (light : Z) : M unit :=
  shutdown_release >>
  shutdown_leak_pass >>
  shutdown_cache_checks >>
  shutdown_backends light.

(** ** init.cpp: initialization *)

(** [snprintf] into a buffer of 512 bytes keeps at most 511 characters. *)
Definition snprintf512 (str : string) : string := substring 0 511 str.

(** Lines 69-100: the directory of the kernel cache. *)
Definition init_temp_path : M unit :=
  let* pr :=
    match platform X with
    | Win32 =>
        match GetTempPathW X with
        | None =>
            jit_fail "jit_init(): could not obtain path to temporary directory!" []
        | Some t => ret (t ++ "enoki")%string
        end
    | _ =>
        match getenv X "HOME" with
        | None => fail Undefined
        | Some home => ret (snprintf512 (home ++ "/.enoki"))
        end
    end in
  let temp_path := pr in
  set_jit_temp_path (Some temp_path) >>
  if stat_fails X temp_path then
    jit_log Info ("jit_init(): creating directory " ++ dq ++ "%s" ++ dq ++ " ..")
      [ArgS temp_path] >>
    let* failed := (fun w => (Ok (mkdir_fails X (trace w) temp_path), w)) in
    ext_call (call_mkdir temp_path) >>
    if (failed : bool) then
      jit_fail ("jit_init(): creation of directory " ++ dq ++ "%s" ++ dq ++ " failed: %s")
        [ArgS temp_path; ArgS (strerror_errno X)]
    else ret tt
  else ret tt.

(** [state.has_llvm = llvm && jit_llvm_init();] and the same for CUDA. *)
Definition init_backends (llvm cuda : Z) : M unit :=
  let* l :=
    (if llvm =? 0 then ret false
     else let* r := (fun w => (Ok (llvm_init_answer X (trace w)), w)) in
          ext_call call_jit_llvm_init >> ret (r : bool)) in
  modify_state (with_has_llvm l) >>
  let* c :=
    (if cuda =? 0 then ret false
     else let* r := (fun w => (Ok (cuda_init_answer X (trace w)), w)) in
          ext_call call_jit_cuda_init >> ret (r : bool)) in
  modify_state (with_has_cuda c).

(** The loop of lines 150-153: [n] streams and events are created in
    turn. *)
Fixpoint create_sub_streams (n : nat) : M (list CUstream * list CUevent) :=
  match n with
  | O => ret ([], [])
  | S n' =>
      let* st := cuda_checked cuStreamCreate in
      let* ev := cuda_checked cuEventCreate in
      let* r := create_sub_streams n' in
      ret (st :: fst r, ev :: snd r)
  end.

Definition msg_found_device : string :=
  (" - Found CUDA device %i: " ++ dq ++ "%s" ++ dq ++ " " ++
   "(PCI ID %02x:%02x.%i, compute cap. %i.%i, %i SMs w/%s shared mem., %s global mem.)")%string.

(** Body of the loop of lines 108-156 for device ordinal [i]. *)
Definition init_device (i : Z) : M unit :=
  let* mem_total := cuda_checked (cuDeviceTotalMem i) in
  let* name := cuda_checked (cuDeviceGetName i) in
  let* pci_bus_id := cuda_checked (cuDeviceGetAttribute CU_DEVICE_ATTRIBUTE_PCI_BUS_ID i) in
  let* pci_dev_id := cuda_checked (cuDeviceGetAttribute CU_DEVICE_ATTRIBUTE_PCI_DEVICE_ID i) in
  let* pci_dom_id := cuda_checked (cuDeviceGetAttribute CU_DEVICE_ATTRIBUTE_PCI_DOMAIN_ID i) in
  let* num_sm := cuda_checked (cuDeviceGetAttribute CU_DEVICE_ATTRIBUTE_MULTIPROCESSOR_COUNT i) in
  let* unified_addr := cuda_checked (cuDeviceGetAttribute CU_DEVICE_ATTRIBUTE_UNIFIED_ADDRESSING i) in
  let* managed := cuda_checked (cuDeviceGetAttribute CU_DEVICE_ATTRIBUTE_MANAGED_MEMORY i) in
  let* shared_memory_bytes := cuda_checked (cuDeviceGetAttribute CU_DEVICE_ATTRIBUTE_MAX_SHARED_MEMORY_PER_BLOCK_OPTIN i) in
  let* cc_minor := cuda_checked (cuDeviceGetAttribute CU_DEVICE_ATTRIBUTE_COMPUTE_CAPABILITY_MINOR i) in
  let* cc_major := cuda_checked (cuDeviceGetAttribute CU_DEVICE_ATTRIBUTE_COMPUTE_CAPABILITY_MAJOR i) in
  jit_log Info msg_found_device
    [ArgI i; ArgS (device_name X name); ArgI pci_bus_id; ArgI pci_dev_id;
     ArgI pci_dom_id; ArgI cc_major; ArgI cc_minor; ArgI num_sm;
     ArgS (jit_mem_string X shared_memory_bytes);
     ArgS (jit_mem_string X mem_total)] >>
  if unified_addr =? 0 then
    jit_log Warn " - Warning: device does *not* support unified addressing, skipping .." []
  else if managed =? 0 then
    jit_log Warn " - Warning: device does *not* support managed memory, skipping .." []
  else
    let* context := cuda_checked (cuDevicePrimaryCtxRetain i) in
    scoped_set_context context
      (let* subs := create_sub_streams (ENOKI_SUB_STREAMS X) in
       modify_state (fun s =>
         with_devices
           (devices s ++
            [mkDevice i (cc_major * 10 + cc_minor) (uint32 shared_memory_bytes)
               (uint32 num_sm) context (fst subs) (snd subs)]) s)).

(** Lines 108-156. *)
Definition init_devices (cuda : Z) : M unit :=
  if cuda =? 0 then ret tt
  else
    let* n := (fun w => (Ok (jit_cuda_devices X (trace w)), w)) in
    for_each (map Z.of_nat (seq 0 (Z.to_nat n))) init_device.

(** Body of the inner loop of lines 159-176 for the pair [(a, b)]. *)
Definition init_peer (a b : Device) : M unit :=
  if dev_id a =? dev_id b then ret tt
  else
    scoped_set_context (dev_context a)
      (let* peer_ok := cuda_checked (cuDeviceCanAccessPeer (dev_id a) (dev_id b)) in
       if peer_ok =? 0 then ret tt
       else
         jit_log Debug " - Enabling peer access from device %i -> %i"
           [ArgI (dev_id a); ArgI (dev_id b)] >>
         let* r := cuda_call (cuCtxEnablePeerAccess (dev_context b)) in
         if fst r =? CUDA_ERROR_PEER_ACCESS_ALREADY_ENABLED then ret tt
         else cuda_check (fst r)).

(** Lines 158-176: "Enable P2P communication if possible". *)
Definition init_peer_access : M unit :=
  let* s := get_state in
  for_each (devices s) (fun a =>
    for_each (devices s) (fun b => init_peer a b)).

(** Lines 69-156: everything up to the list of accepted devices. *)
Definition init_discovery (llvm cuda : Z) : M unit :=
  init_temp_path >>
  jit_log Info "jit_init(): detecting devices .." [] >>
  init_backends llvm cuda >>
  init_devices cuda.

(** [void jit_init(int llvm, int cuda)] *)
Definition jit_init (llvm cuda : Z) : M unit :=
  let cuda := match platform X with Apple => 0 | _ => cuda end in
  let* s := get_state in
  if has_llvm s || has_cuda s || ((llvm =? 0) && (cuda =? 0)) then ret tt
  else
    init_discovery llvm cuda >>
    init_peer_access >>
    modify_state with_counters_reset.

End Code.

(** * init.cpp: jit_find_library (POSIX branch) *)

(** ** The comparator passed to [std::sort] *)

Definition char_code (c : ascii) : Z := Z.of_N (N_of_ascii c).

(** [isdigit] in the C locale. *)
Definition isdigit (c : ascii) : bool :=
  (48 <=? char_code c) && (char_code c <=? 57).

(** [isdigit( *a )] for a C string: the terminating NUL is not a digit. *)
Definition starts_with_digit (a : string) : bool :=
  match a with
  | String c _ => isdigit c
  | EmptyString => false
  end.

(** [strcmp]: the sign of the difference at the first position where the
    strings differ, bytes compared as [unsigned char]. *)
Fixpoint strcmp (a b : string) : Z :=
  match a, b with
  | EmptyString, EmptyString => 0
  | EmptyString, String y _ => - char_code y
  | String x _, EmptyString => char_code x
  | String x a', String y b' =>
      if (char_code x =? char_code y) then strcmp a' b'
      else char_code x - char_code y
  end.

(** The digits consumed by [strtol(a, &ap, 10)] when [a] starts with a
    digit: their value (unbounded) and the rest of the string. *)
Fixpoint digits_value (acc : Z) (a : string) : Z * string :=
  match a with
  | String c a' =>
      if isdigit c then digits_value (acc * 10 + (char_code c - 48)) a'
      else (acc, a)
  | EmptyString => (acc, a)
  end.

(** [long] has 64 bits (LP64); [strtol] returns [LONG_MAX] on overflow. *)
Definition LONG_MAX : Z := 2 ^ 63 - 1.

Definition strtol (a : string) : Z * string :=
  (Z.min (fst (digits_value 0 a)) LONG_MAX, snd (digits_value 0 a)).

(** Conversion of a [long] to [int] (32 bits, two's complement). *)
Definition to_int (z : Z) : Z := (z + 2 ^ 31) mod 2 ^ 32 - 2 ^ 31.

(** The inner loop
    [while ( *a == *b && *a != 0 && !isdigit( *a )) { ++a; ++b; }]. *)
Fixpoint skip_common (a b : string) : string * string :=
  match a, b with
  | String x a', String y b' =>
      if (char_code x =? char_code y) && negb (isdigit x)
      then skip_common a' b'
      else (a, b)
  | _, _ => (a, b)
  end.

(** The lambda of lines 472-490; [fuel] bounds the iterations of the outer
    [while] loop, whose exit [return false] is taken when it runs out. *)
Fixpoint natural_less_fuel (fuel : nat) (a b : string) : bool :=
  match fuel with
  | O => false
  | S fuel' =>
      let a1 := fst (skip_common a b) in
      let b1 := snd (skip_common a b) in
      if starts_with_digit a1 && starts_with_digit b1 then
        let ai := to_int (fst (strtol a1)) in
        let bi := to_int (fst (strtol b1)) in
        if negb (ai =? bi) then ai <? bi
        else natural_less_fuel fuel' (snd (strtol a1)) (snd (strtol b1))
      else strcmp a1 b1 <? 0
  end.

(** Every iteration of the outer loop that does not return consumes at
    least one character of [a], so [length a + 1] iterations are enough
    (lemma [natural_less_fuel_enough]). *)
Definition natural_less (a b : string) : bool :=
  natural_less_fuel (S (String.length a)) a b.

Section FindLibrary.

Variable X : Externals.

Definition nl : string := String (ascii_of_nat 10) EmptyString.

Definition msg_unable_to_load : string :=
  ("jit_find_library(): Unable to load " ++ dq ++ "%s" ++ dq ++ ": %s!")%string.
Definition msg_multiple_versions : string :=
  ("jit_find_library(): Multiple versions of " ++
   "%s were found on your system!" ++ nl)%string.
Definition msg_candidate : string := (" %u. " ++ dq ++ "%s" ++ dq)%string.
Definition msg_choosing_last : string :=
  (nl ++ "Choosing the last one. Specify a path manually " ++
   "using the environment" ++ nl ++ "variable '%s' to override this " ++
   "behavior." ++ nl)%string.

(** A call of [dlopen(path, RTLD_LAZY)]. *)
Definition dlopen_call (path : string) : M (option Z) :=
  ext_call (call_dlopen path) >> ret (dlopen X path).

Definition glob_call (pattern : string) : M (option (list string)) :=
  ext_call (call_glob pattern) >> ret (glob X pattern).

Definition lstat_call (path : string) : M (option bool) :=
  ext_call (call_lstat path) >> ret (lstat X path).

(** The condition [lstat(path, &buf) || S_ISLNK(buf.st_mode)]. *)
Definition skipped_at_first (r : option bool) : bool :=
  match r with
  | None => true
  | Some is_link => is_link
  end.

(** The inner loop of lines 493-500 for pass [j]; the state is [chosen]
    and [counter]. *)
Fixpoint select_pass (j : nat) (paths : list string)
    (chosen : option string) (counter : Z) : M (option string * Z) :=
  match paths with
  | [] => ret (chosen, counter)
  | path :: rest =>
      let* skip :=
        (match j with
         | O => let* r := lstat_call path in ret (skipped_at_first r)
         | S _ => ret false
         end) in
      if (skip : bool) then select_pass j rest chosen counter
      else
        jit_log Info msg_candidate [ArgI counter; ArgS path] >>
        select_pass j rest (Some path) (uint32 (counter + 1))
  end.

(** Lines 491-503: the two passes. *)
Definition select_candidate (paths : list string) : M (option string) :=
  let* r0 := select_pass 0 paths None 1 in
  match fst r0 with
  | Some c => ret (Some c)
  | None =>
      let* r1 := select_pass 1 paths None (snd r0) in
      ret (fst r1)
  end.

(** Lines 456-528: the search, once [env_var_val] is known. *)
Definition find_library_with (fname glob_pat : string)
    (env_var env_var_val : option string) : M (option Z) :=
  let* handle :=
    dlopen_call (match env_var_val with Some v => v | None => fname end) in
  match handle with
  | Some h => ret (Some h)
  | None =>
      match env_var_val with
      | Some v =>
          jit_log Warn msg_unable_to_load [ArgS v; ArgS (dlerror X)] >>
          ret None
      | None =>
          let* g := glob_call glob_pat in
          match g with
          | None => ret None
          | Some paths =>
              let* chosen :=
                (if 1 <? len paths then
                   jit_log Info msg_multiple_versions [ArgS fname] >>
                   let* c := select_candidate (std_sort X natural_less paths) in
                   jit_log Info msg_choosing_last
                     [ArgS (match env_var with Some v => v | None => "(null)" end)] >>
                   ret c
                 else
                   match paths with
                   | [c] => ret (Some c)
                   | _ => ret None
                   end) in
              match chosen with
              | Some c => dlopen_call c
              | None => ret None
              end
          end
      end
  end.

(** Lines 452-454: the value of the environment variable; a null
    [env_var], an unset variable and an empty value all give [None]. *)
Definition env_override (env_var : option string) : option string :=
  match
    match env_var with
    | Some v => getenv X v
    | None => None
    end
  with
  | Some EmptyString => None
  | o => o
  end.

(** [void *jit_find_library(const char *fname, const char *glob_pat,
    const char *env_var)], the branch for [!defined(_WIN32)]; a null
    [env_var] is [None]. *)
Definition jit_find_library (fname glob_pat : string) (env_var : option string)
    : M (option Z) :=
  find_library_with fname glob_pat env_var (env_override env_var).

End FindLibrary.

(** * init.cpp: the thread state of the calling thread *)

Section DeviceSelection.

Variable X : Externals.

(** Modelled from the spec: [thread_state(bool cuda)] is declared in a
    header that is not part of the sources.  Section 4.4: "produce the
    ThreadState for the calling thread and chosen backend on demand; create
    one at first request and register it in the global state". *)
Definition thread_state (cuda : bool) : M ptr :=
  let* r := (if cuda then get_thread_state_cuda else get_thread_state_llvm) in
  match r with
  | Some p => ret p
  | None => jit_init_thread_state X cuda
  end.

(** [void* jit_cuda_stream()] *)
Definition jit_cuda_stream : M CUstream :=
  let* ts := thread_state true in
  let* t := load ts in
  ret (ts_stream t).

(** [void* jit_cuda_context()] *)
Definition jit_cuda_context : M CUcontext :=
  let* ts := thread_state true in
  let* t := load ts in
  ret (ts_context t).

(** Conversion of an [int] to [size_t] (64 bits). *)
Definition size_t (z : Z) : Z := z mod 2 ^ 64.

Definition msg_set_device_range : string :=
  "jit_cuda_set_device(%i): must be in the range 0..%i!".

Definition set_ts_context_device (ctx : CUcontext) (device : Z)
    (t : ThreadState) : ThreadState :=
  mkThreadState (ts_cuda t) ctx (ts_stream t) (ts_event t) device
    (ts_task t) (ts_active_mask t).

Definition set_ts_stream (stream : CUstream) (t : ThreadState) : ThreadState :=
  mkThreadState (ts_cuda t) (ts_context t) stream (ts_event t) (ts_device t)
    (ts_task t) (ts_active_mask t).

Definition set_ts_event (event : CUevent) (t : ThreadState) : ThreadState :=
  mkThreadState (ts_cuda t) (ts_context t) (ts_stream t) event (ts_device t)
    (ts_task t) (ts_active_mask t).

(** [void jit_cuda_set_device(int device)] *)
Definition jit_cuda_set_device (device : Z) : M unit :=
  let* ts := thread_state true in
  let* t := load ts in
  if ts_device t =? device then ret tt
  else
    let* s := get_state in
    (if len (devices s) <=? size_t device
     then jit_raise msg_set_device_range
            [ArgI device; ArgI (to_int (len (devices s)) - 1)]
     else ret tt) >>
    jit_log Info "jit_cuda_set_device(%i)" [ArgI device] >>
    match nth_error (devices s) (Z.to_nat device) with
    | None => fail Undefined
    | Some d =>
        let new_context := dev_context d in
        (* Disassociate from old context *)
        let* t := load ts in
        scoped_set_context (ts_context t)
          (cuda_checked X (cuStreamSynchronize (ts_stream t)) >>
           cuda_checked X (cuEventDestroy (ts_event t)) >>
           cuda_checked X (cuStreamDestroy (ts_stream t)) >> ret tt) >>
        (* Associate with new context *)
        let* t := load ts in
        store ts (set_ts_context_device new_context device t) >>
        scoped_set_context new_context
          (let* stream := cuda_checked X cuStreamCreate in
           let* t := load ts in
           store ts (set_ts_stream stream t) >>
           let* event := cuda_checked X cuEventCreate in
           let* t := load ts in
           store ts (set_ts_event event t))
    end.

End DeviceSelection.

(** * llvm_core.cpp: start-up and shutdown of the LLVM backend *)

(** [strstr(haystack, needle)]: the suffix starting at the first
    occurrence, [None] for a null result. *)
Fixpoint strstr (haystack needle : string) : option string :=
  if String.prefix needle haystack then Some haystack
  else match haystack with
       | EmptyString => None
       | String _ h => strstr h needle
       end.

Definition found (r : option string) : bool :=
  match r with Some _ => true | None => false end.

(** Modelled from the spec: the API table of [llvm_api.cpp], which is not
    part of the sources.  Section 4.2 / 9: "an ordinary record of optional
    function pointers, initialized by a single resolve pass; capability
    predicates inspect which fields are populated" and "return true only
    when all symbols in that capability group resolved".  A symbol is
    [Some address] when it resolved. *)
Record LLVMApi : Type := mkLLVMApi {
  syms_core : list (option Z);
  syms_pb_new : list (option Z);
  syms_pb_legacy : list (option Z);
  syms_orcv2 : list (option Z);
  syms_mcjit : list (option Z)
}.

Definition all_resolved (group : list (option Z)) : bool :=
  forallb (fun sym => match sym with Some _ => true | None => false end) group.

(** What [jitc_llvm_init] reads from outside [llvm_core.cpp]. *)
Record LLVMEnv : Type := mkLLVMEnv {
  (** [__aarch64__] and [__APPLE__]. *)
  is_aarch64 : bool;
  is_apple : bool;
  (** The table built by [jitc_llvm_api_init()]; [None] when it returns
      [false] (the library could not be loaded). *)
  api_init_result : option LLVMApi;
  LLVMGetDefaultTargetTriple : string;
  LLVMGetHostCPUName : string;
  LLVMGetHostCPUFeatures : string;
  (** Whether [LLVMCreateDisasm] returns a context, and the return value
      of [LLVMSetDisasmOptions]. *)
  LLVMCreateDisasm_ok : bool;
  LLVMSetDisasmOptions_result : Z;
  (** Return values of [jitc_llvm_orcv2_init()] and [jitc_llvm_mcjit_init()]. *)
  orcv2_init_result : bool;
  mcjit_init_result : bool;
  jitc_llvm_version_major : Z
}.

(** The globals of [llvm_core.cpp], the API table, and the resources whose
    release is part of a shutdown. *)
Record LLVMState : Type := mkLLVMState {
  jitc_llvm_init_attempted : bool;
  jitc_llvm_init_success : bool;
  jitc_llvm_use_orcv2 : bool;
  jitc_llvm_disasm_ctx : bool;
  jitc_llvm_context : bool;
  jitc_llvm_target_triple : option string;
  jitc_llvm_target_cpu : option string;
  jitc_llvm_target_features : option string;
  jitc_llvm_vector_width : Z;
  jitc_llvm_max_align : Z;
  jitc_llvm_opaque_pointers : bool;
  jitc_llvm_ones_str : bool;
  (** The loaded API table; [None] once [jitc_llvm_api_shutdown] ran. *)
  llvm_api : option LLVMApi;
  (** Whether the ORCv2 / MCJIT engine is initialised. *)
  orcv2_active : bool;
  mcjit_active : bool;
  llvm_log : list (LogLevel * string)
}.

Definition LLVMState_initial : LLVMState :=
  mkLLVMState false false false false false None None None 0 0 false false
              None false false [].

Definition group_resolved (sel : LLVMApi -> list (option Z)) (st : LLVMState) : bool :=
  match llvm_api st with
  | Some t => all_resolved (sel t)
  | None => false
  end.

Definition jitc_llvm_api_has_core := group_resolved syms_core.
Definition jitc_llvm_api_has_pb_new := group_resolved syms_pb_new.
Definition jitc_llvm_api_has_pb_legacy := group_resolved syms_pb_legacy.
Definition jitc_llvm_api_has_orcv2 := group_resolved syms_orcv2.
Definition jitc_llvm_api_has_mcjit := group_resolved syms_mcjit.

Definition jitc_log (level : LogLevel) (msg : string) (st : LLVMState) : LLVMState :=
  mkLLVMState (jitc_llvm_init_attempted st) (jitc_llvm_init_success st)
    (jitc_llvm_use_orcv2 st) (jitc_llvm_disasm_ctx st) (jitc_llvm_context st)
    (jitc_llvm_target_triple st) (jitc_llvm_target_cpu st)
    (jitc_llvm_target_features st) (jitc_llvm_vector_width st)
    (jitc_llvm_max_align st) (jitc_llvm_opaque_pointers st)
    (jitc_llvm_ones_str st) (llvm_api st) (orcv2_active st) (mcjit_active st)
    (llvm_log st ++ [(level, msg)]).

(** [jitc_llvm_api_shutdown()]: releases the API table. *)
Definition jitc_llvm_api_shutdown (st : LLVMState) : LLVMState :=
  mkLLVMState (jitc_llvm_init_attempted st) (jitc_llvm_init_success st)
    (jitc_llvm_use_orcv2 st) (jitc_llvm_disasm_ctx st) (jitc_llvm_context st)
    (jitc_llvm_target_triple st) (jitc_llvm_target_cpu st)
    (jitc_llvm_target_features st) (jitc_llvm_vector_width st)
    (jitc_llvm_max_align st) (jitc_llvm_opaque_pointers st)
    (jitc_llvm_ones_str st) None (orcv2_active st) (mcjit_active st)
    (llvm_log st).

(** [void jitc_llvm_shutdown()].  The three target strings are disposed
    (lines 193-195); the pointers [jitc_llvm_target_cpu] and
    [jitc_llvm_target_features] are then reset (lines 201-202), the pointer
    [jitc_llvm_target_triple] is not: the global keeps its value, the
    address of the disposed string. *)
Definition jitc_llvm_shutdown (st : LLVMState) : LLVMState :=
  if negb (jitc_llvm_init_success st) then st
  else
    let st := jitc_log Info "jit_llvm_shutdown()" st in
    jitc_llvm_api_shutdown
      (mkLLVMState false false (jitc_llvm_use_orcv2 st) false false
         (jitc_llvm_target_triple st) None None 0 (jitc_llvm_max_align st)
         (jitc_llvm_opaque_pointers st) false (llvm_api st) false false
         (llvm_log st)).

Section LLVMInit.

Variable env : LLVMEnv.

(** The vector width chosen in lines 120-136. *)
Definition detect_vector_width (features : string) : Z :=
  let w := 1 in
  let w := if found (strstr features "+sse4.2") then 4 else w in
  let w := if found (strstr features "+avx") then 8 else w in
  let w := if found (strstr features "+avx512vl") then 16 else w in
  if is_apple env && is_aarch64 env then 4 else w.

(** Lines 86-108: the LLVM targets are initialised and the globals that
    describe the host are filled in. *)
Definition llvm_query_host (st : LLVMState) : LLVMState :=
  mkLLVMState (jitc_llvm_init_attempted st) (jitc_llvm_init_success st)
    (jitc_llvm_use_orcv2 st)
    (LLVMCreateDisasm_ok env && negb (LLVMSetDisasmOptions_result env =? 0))
    true
    (Some (LLVMGetDefaultTargetTriple env))
    (Some (LLVMGetHostCPUName env))
    (Some (LLVMGetHostCPUFeatures env))
    (jitc_llvm_vector_width st) (jitc_llvm_max_align st)
    (jitc_llvm_opaque_pointers st) (jitc_llvm_ones_str st) (llvm_api st)
    (orcv2_active st) (mcjit_active st) (llvm_log st).

(** Lines 120-139. *)
Definition llvm_set_width (st : LLVMState) : LLVMState :=
  let width := detect_vector_width (LLVMGetHostCPUFeatures env) in
  mkLLVMState (jitc_llvm_init_attempted st) (1 <? width)
    (jitc_llvm_use_orcv2 st) (jitc_llvm_disasm_ctx st) (jitc_llvm_context st)
    (jitc_llvm_target_triple st)
    (if is_apple env && is_aarch64 env
     then Some (if 15 <? jitc_llvm_version_major env then "apple-m1" else "apple-a14")
     else jitc_llvm_target_cpu st)
    (jitc_llvm_target_features st) width (uint32 (width * 4))
    (jitc_llvm_opaque_pointers st) (jitc_llvm_ones_str st) (llvm_api st)
    (orcv2_active st) (mcjit_active st) (llvm_log st).

(** Lines 148-152: the engine that was initialised. *)
Definition llvm_set_engine (orcv2 : bool) (st : LLVMState) : LLVMState :=
  mkLLVMState (jitc_llvm_init_attempted st) (jitc_llvm_init_success st)
    orcv2 (jitc_llvm_disasm_ctx st) (jitc_llvm_context st)
    (jitc_llvm_target_triple st) (jitc_llvm_target_cpu st)
    (jitc_llvm_target_features st) (jitc_llvm_vector_width st)
    (jitc_llvm_max_align st) (jitc_llvm_opaque_pointers st)
    (jitc_llvm_ones_str st) (llvm_api st)
    (if orcv2 then true else orcv2_active st)
    (if orcv2 then mcjit_active st else true) (llvm_log st).

(** Lines 159-178: [jitc_llvm_opaque_pointers], [jitc_llvm_update_strings()]
    and the final log message. *)
Definition llvm_finish (st : LLVMState) : LLVMState :=
  jitc_log Info "jit_llvm_init(): found LLVM %s.%s.%s (%s), target=%s, cpu=%s, %s pointers, width=%u."
    (mkLLVMState (jitc_llvm_init_attempted st) (jitc_llvm_init_success st)
       (jitc_llvm_use_orcv2 st) (jitc_llvm_disasm_ctx st) (jitc_llvm_context st)
       (jitc_llvm_target_triple st) (jitc_llvm_target_cpu st)
       (jitc_llvm_target_features st) (jitc_llvm_vector_width st)
       (jitc_llvm_max_align st) (15 <=? jitc_llvm_version_major env)
       true (llvm_api st) (orcv2_active st) (mcjit_active st) (llvm_log st)).

(** [jitc_llvm_init_attempted = true] followed by [jitc_llvm_api_init()]. *)
Definition llvm_attempt (st : LLVMState) : LLVMState :=
  mkLLVMState true (jitc_llvm_init_success st)
    (jitc_llvm_use_orcv2 st) (jitc_llvm_disasm_ctx st) (jitc_llvm_context st)
    (jitc_llvm_target_triple st) (jitc_llvm_target_cpu st)
    (jitc_llvm_target_features st) (jitc_llvm_vector_width st)
    (jitc_llvm_max_align st) (jitc_llvm_opaque_pointers st)
    (jitc_llvm_ones_str st) (api_init_result env) (orcv2_active st)
    (mcjit_active st) (llvm_log st).

(** [bool jitc_llvm_init()] *)
Definition jitc_llvm_init (st : LLVMState) : bool * LLVMState :=
  if jitc_llvm_init_attempted st then (jitc_llvm_init_success st, st)
  else
    let st := llvm_attempt st in
    match api_init_result env with
    | None => (false, st)
    | Some _ =>
        if negb (jitc_llvm_api_has_core st) then
          (false,
           jitc_llvm_api_shutdown
             (jitc_log Warn ("jit_llvm_init(): detected LLVM version lacks core API " ++
                             "used by Dr.Jit, shutting down LLVM backend ..") st))
        else if negb (jitc_llvm_api_has_pb_new st) && negb (jitc_llvm_api_has_pb_legacy st) then
          (false,
           jitc_llvm_api_shutdown
             (jitc_log Warn ("jit_llvm_init(): detected LLVM version lacks pass " ++
                             "manager API used by Dr.Jit, shutting down LLVM backend ..") st))
        else
          let st := llvm_query_host st in
          if negb (is_aarch64 env) &&
             negb (found (strstr (LLVMGetHostCPUFeatures env) "+fma")) then
            (false,
             jitc_llvm_shutdown
               (jitc_log Warn ("jit_llvm_init(): your CPU does not support the `fma` " ++
                               "instruction set, shutting down the LLVM " ++
                               "backend...") st))
          else
            let st := llvm_set_width st in
            let st :=
              if negb (jitc_llvm_init_success st) then
                jitc_llvm_shutdown
                  (jitc_log Warn ("jit_llvm_init(): no suitable vector ISA found, shutting " ++
                                  "down LLVM backend..") st)
              else st in
            if jitc_llvm_api_has_orcv2 st && orcv2_init_result env then
              let st := llvm_finish (llvm_set_engine true st) in
              (jitc_llvm_init_success st, st)
            else if jitc_llvm_api_has_mcjit st && mcjit_init_result env then
              let st := llvm_finish (llvm_set_engine false st) in
              (jitc_llvm_init_success st, st)
            else
              (false,
               jitc_llvm_shutdown
                 (jitc_log Warn ("jit_llvm_init(): ORCv2/MCJIT could not be initialized, " ++
                                 "shutting down LLVM backend..") st))
    end.

End LLVMInit.

(** [void jitc_llvm_set_target(const char *target_cpu, const char
    *target_features, uint32_t vector_width)]; a null [target_features] is
    [None].  [jitc_llvm_update_strings] leaves the table of strings
    allocated. *)
Definition jitc_llvm_set_target (target_cpu : string)
    (target_features : option string) (vector_width : Z) (st : LLVMState)
    : LLVMState :=
  if negb (jitc_llvm_init_success st) then st
  else
    mkLLVMState (jitc_llvm_init_attempted st) (jitc_llvm_init_success st)
      (jitc_llvm_use_orcv2 st) (jitc_llvm_disasm_ctx st) (jitc_llvm_context st)
      (jitc_llvm_target_triple st) (Some target_cpu) target_features
      vector_width (jitc_llvm_max_align st) (jitc_llvm_opaque_pointers st)
      true (llvm_api st) (orcv2_active st) (mcjit_active st) (llvm_log st).

(** * llvm_core.cpp: the strings of all-ones vectors *)

(** What [jitc_llvm_update_strings] reads of the type tables, which are
    defined outside the sources: the number of variable types, the LLVM
    name and the size in bytes of each, and the positions of the four
    enumerators that the function names. *)
Record VarTypes : Type := mkVarTypes {
  VarType_Count : nat;
  type_name_llvm : nat -> string;
  type_size : nat -> Z;
  VarType_Bool : nat;
  VarType_Float16 : nat;
  VarType_Float32 : nat;
  VarType_Float64 : nat
}.

Section UpdateStrings.
Variable T : VarTypes.

(** [for (uint32_t k = 0; k < 16; ++k) buf.put(k < 2 * type_size[i] ? 'F' : '0');]
    with [n] iterations left. *)
Fixpoint put_hex (n : nat) (k : Z) (i : nat) (buf : string) : string :=
  match n with
  | O => buf
  | S n' =>
      put_hex n' (k + 1) i
        (buf ++ (if (k <? uint32 (2 * type_size T i))%Z then "F" else "0"))%string
  end.

Definition is_float_type (i : nat) : bool :=
  Nat.eqb i (VarType_Float16 T) || Nat.eqb i (VarType_Float32 T) ||
  Nat.eqb i (VarType_Float64 T).

(** Lines 242-251: the value with all bits set, for an element of type [i]. *)
Definition put_ones (i : nat) (buf : string) : string :=
  if Nat.eqb i (VarType_Bool T) then (buf ++ "1")%string
  else if is_float_type i then put_hex 16 0 i (buf ++ "0x")%string
  else (buf ++ "-1")%string.

(** The loop of lines 238-255 over [j], with [n] iterations left. *)
Fixpoint put_elements (i : nat) (width : Z) (n : nat) (j : Z) (buf : string)
    : string :=
  match n with
  | O => buf
  | S n' =>
      let buf := (buf ++ type_name_llvm T i ++ " ")%string in
      let buf := put_ones i buf in
      let buf := if j + 1 <? width then (buf ++ ", ")%string else buf in
      put_elements i width n' (j + 1) buf
  end.

(** The string built for type [i]. *)
Definition ones_str (width : Z) (i : nat) : string :=
  (put_elements i width (Z.to_nat width) 0 "<" ++ ">")%string.

(** [void jitc_llvm_update_strings()]: the new contents of
    [jitc_llvm_ones_str] for the vector width [width]. *)
Definition jitc_llvm_update_strings (width : Z) : list string :=
  map (ones_str width) (seq 0 (VarType_Count T)).

End UpdateStrings.

(** * llvm_core.cpp: disassembly of a compiled kernel *)

(** What [jitc_llvm_disasm] reads of a [Kernel]: the address and size of
    its code, and the addresses [kernel.llvm.reloc[i]] ([n_reloc] is the
    length of the list). *)
Record Kernel : Type := mkKernel {
  kernel_data : Z;
  kernel_size : Z;
  kernel_reloc : list Z
}.

(** What the function does that can be seen from outside: calls of
    [LLVMDisasmInstruction] with the address and the number of bytes it
    may read, and calls of [jitc_log(Debug, ...)]. *)
Inductive DisasmEvent : Type :=
| DisasmCall (bytes bytes_size : Z)
| DisasmLog (fmt : string) (args : list Arg).

Definition msg_disasm_header : string := "jit_llvm_disasm(): ========== %u ==========".
Definition msg_disasm_nops : string := "jit_llvm_disasm(): ...".
Definition msg_disasm_line : string := "jit_llvm_disasm(): 0x%08x   %s".

(** [while ( *start == ' ' || *start == '\t') ++start;] *)
Fixpoint skip_blanks (s : string) : string :=
  match s with
  | String c s' =>
      if (char_code c =? 32) || (char_code c =? 9) then skip_blanks s' else s
  | EmptyString => s
  end.

Section Disasm.

(** [LLVMDisasmInstruction] at an address, given the number of bytes that
    may be read: the size of the instruction ([0] when none was decoded)
    and its text. *)
Variable LLVMDisasmInstruction : Z -> Z -> Z * string.

(** The [do ... while (true)] loop of lines 297-322; [fuel] bounds its
    iterations. *)
Fixpoint disasm_loop (fuel : nat) (k : Kernel) (func_base ptr : Z)
    (last_nop : bool) : list DisasmEvent :=
  match fuel with
  | O => []
  | S fuel' =>
      let offset := size_t (ptr - kernel_data k) in
      let func_offset := size_t (ptr - func_base) in
      if kernel_size k <=? offset then []
      else
        let r := LLVMDisasmInstruction ptr (size_t (kernel_size k - offset)) in
        let size := size_t (fst r) in
        DisasmCall ptr (size_t (kernel_size k - offset)) ::
        if size =? 0 then []
        else
          let start := skip_blanks (snd r) in
          if strcmp start "nop" =? 0 then
            (if last_nop then [] else [DisasmLog msg_disasm_nops []]) ++
            disasm_loop fuel' k func_base (ptr + size) true
          else
            DisasmLog msg_disasm_line [ArgI (uint32 func_offset); ArgS start] ::
            if String.prefix "ret" start then []
            else disasm_loop fuel' k func_base (ptr + size) false
  end.

(** The body of the [for] loop for relocation [i]. *)
Definition disasm_function (k : Kernel) (i : Z) (func_base : Z)
    : list DisasmEvent :=
  if i =? 1 then []
  else
    DisasmLog msg_disasm_header [ArgI i] ::
    disasm_loop (S (Z.to_nat (kernel_size k))) k func_base func_base false.

Fixpoint disasm_functions (k : Kernel) (i : Z) (relocs : list Z)
    : list DisasmEvent :=
  match relocs with
  | [] => []
  | base :: rest =>
      disasm_function k i base ++ disasm_functions k (uint32 (i + 1)) rest
  end.

(** [void jitc_llvm_disasm(const Kernel &kernel)] *)
Definition jitc_llvm_disasm (s : State) (k : Kernel) : list DisasmEvent :=
  if LogLevel_rank (LogLevel_max (log_level_stderr s) (log_level_callback s))
     <? LogLevel_rank Trace
  then []
  else disasm_functions k 0 (kernel_reloc k).

End Disasm.

(** * Notions used to state the properties *)

(** ** Worlds *)

Definition set_mutex (b : bool) (w : World) : World :=
  mkWorld (with_mutex_locked b (state w)) (heap w) (thread_state_cuda w)
          (thread_state_llvm w) (jit_temp_path w) (ctx_stack w) (trace w).

Definition add_events (l : list Event) (w : World) : World :=
  mkWorld (state w) (heap w) (thread_state_cuda w)
          (thread_state_llvm w) (jit_temp_path w) (ctx_stack w) (trace w ++ l).

Definition with_heap_trace (w : World) (h : gmap ptr ThreadState)
    (tr : list Event) : World :=
  mkWorld (state w) h (thread_state_cuda w) (thread_state_llvm w)
          (jit_temp_path w) (ctx_stack w) tr.

(** ** The lock discipline *)

(** One step of the discipline, seen from the calling thread: [EvUnlock]
    needs the mutex held, [EvLock] needs it released, a copy of
    [state.tss] needs it held and must be the list [registered], and a
    blocking call needs it released.  The result is whether the mutex is
    held afterwards. *)
Definition mutex_step (registered : list ptr) (held : bool) (e : Event)
    : option bool :=
  match e with
  | EvUnlock => if held then Some false else None
  | EvLock => if held then None else Some true
  | EvSnapshot l => if held && bool_decide (l = registered) then Some true else None
  | _ => if blocking e && held then None else Some held
  end.

Fixpoint mutex_discipline (registered : list ptr) (held : bool)
    (tr : list Event) : option bool :=
  match tr with
  | [] => Some held
  | e :: tr' =>
      match mutex_step registered held e with
      | Some h => mutex_discipline registered h tr'
      | None => None
      end
  end.

(** The events added to the trace [t0] respect the discipline, starting
    with the mutex held, and leave it as [held], which is also what the
    model of the mutex says; [state.tss] is [registered]. *)
Definition lock_inv (registered : list ptr) (t0 : list Event) (held : bool)
    (w : World) : Prop :=
  exists new, trace w = t0 ++ new /\
              mutex_discipline registered true new = Some held /\
              mutex_locked (state w) = held /\
              tss (state w) = registered.

Definition lock_inv_any (registered : list ptr) (t0 : list Event) (w : World) : Prop :=
  exists held, lock_inv registered t0 held w.

(** What holds when a program fails: an exception leaves the mutex as the
    enclosing scope had it; a fatal error may strike while it is released,
    but never after a breach of the discipline. *)
Definition lock_err (registered : list ptr) (t0 : list Event) (held : bool)
    (f : Failure) (w : World) : Prop :=
  match f with
  | Raised _ _ => lock_inv registered t0 held w
  | _ => lock_inv_any registered t0 w
  end.

(** ** Synchronization of the CPU thread states *)

(** [ts->task = nullptr]. *)
Definition clear_task (t : ThreadState) : ThreadState :=
  mkThreadState (ts_cuda t) (ts_context t) (ts_stream t) (ts_event t)
    (ts_device t) None (ts_active_mask t).

(** Heap and events produced by the loop of [jit_sync_device] over a
    snapshot [l], started with heap [h]. *)
Fixpoint cpu_sync_heap (l : list ptr) (h : gmap ptr ThreadState)
    : gmap ptr ThreadState :=
  match l with
  | [] => h
  | p :: l' =>
      match h !! p with
      | Some t => if ts_cuda t then cpu_sync_heap l' h
                  else cpu_sync_heap l' (<[p := clear_task t]> h)
      | None => h
      end
  end.

Fixpoint cpu_sync_events (l : list ptr) (h : gmap ptr ThreadState)
    : list Event :=
  match l with
  | [] => []
  | p :: l' =>
      match h !! p with
      | Some t => if ts_cuda t then cpu_sync_events l' h
                  else EvTaskWait (ts_task t)
                         :: cpu_sync_events l' (<[p := clear_task t]> h)
      | None => []
      end
  end.

(** ** The leak pass of [jit_shutdown] *)

Definition with_state_trace (w : World) (s : State) (tr : list Event) : World :=
  mkWorld s (heap w) (thread_state_cuda w) (thread_state_llvm w)
          (jit_temp_path w) (ctx_stack w) tr.

(** The calls [jit_var_dec_ref_ext(i)] for the indices [ids], and the state
    they leave. *)
Definition dec_ref_calls (ids : list Z) : list Event :=
  map (fun i => EvCall (call_jit_var_dec_ref_ext i)) ids.

Definition dec_ref_all (X : Externals) (ids : list Z) (s : State) : State :=
  fold_left (fun s i => var_dec_ref_ext X i s) ids s.

Definition leak_line (var : Z * Variable_) : Event :=
  EvLog Warn msg_leak_variable
    [ArgI (fst var); ArgI (ref_count_int (snd var));
     ArgI (ref_count_ext (snd var))].

(** What the leak pass reports for the variables that are still in the
    map: nothing when there are none; otherwise a header, one line for each
    of the first ten, one notice when there are more than ten, and the
    summary with their number. *)
Definition leak_report (vars : list (Z * Variable_)) : list Event :=
  match vars with
  | [] => []
  | _ =>
      [EvLog Warn msg_leak_header []] ++
      map leak_line (firstn 10 vars) ++
      (if 10 <? len vars then [EvLog Warn msg_leak_skip []] else []) ++
      [EvLog Warn msg_leak_summary [ArgI (len vars)]]
  end.

Definition empty_records_warning (s : State) : list Event :=
  match variables s, extra s with
  | [], _ :: _ =>
      [EvLog Warn "jit_shutdown(): %zu empty records were not cleaned up!"
         [ArgI (len (extra s))]]
  | _, _ => []
  end.

Definition cse_entry_event (kv : VariableKey * Z) : Event :=
  EvLog Warn msg_cse_entry
    [ArgI (snd kv); ArgI (nth 0 (key_dep (fst kv)) 0);
     ArgI (nth 1 (key_dep (fst kv)) 0); ArgI (nth 2 (key_dep (fst kv)) 0);
     ArgI (nth 3 (key_dep (fst kv)) 0)].

(** Events of the loop [report_leaks] started with counter [n], without
    the wrap-around of the counter. *)
Fixpoint report_events (vars : list (Z * Variable_)) (n : Z) : list Event :=
  match vars with
  | [] => []
  | var :: rest =>
      (if n =? 0 then [EvLog Warn msg_leak_header []] else []) ++
      (if n <? 10 then [leak_line var]
       else if n =? 10 then [EvLog Warn msg_leak_skip []] else []) ++
      report_events rest (n + 1)
  end.

Definition is_nil {A} (l : list A) : bool :=
  match l with [] => true | _ => false end.

(** The part of the state that the leak pass and the cache checks read. *)
Definition same_variables (s0 s : State) : Prop :=
  variables s = variables s0 /\ extra s = extra s0 /\
  cse_cache s = cse_cache s0 /\ variable_from_ptr s = variable_from_ptr s0 /\
  log_level_stderr s = log_level_stderr s0 /\
  log_level_callback s = log_level_callback s0.

(** "On every shutdown, a leak pass runs": whenever [jit_shutdown] returns,
    it has called [jit_var_dec_ref_ext] on every scatter variable whose
    only reference was an external one, and it has logged the summary when
    variables are left. *)
Definition shutdown_always_runs_leak_pass (X : Externals) (light : Z)
    (w : World) : Prop :=
  fst (jit_shutdown X light w) = Ok tt ->
  (forall i, In i (leaked_scatters (variables (state w))) ->
     In (EvCall (call_jit_var_dec_ref_ext i))
        (trace (snd (jit_shutdown X light w)))) /\
  (variables (state (snd (jit_shutdown X light w))) <> [] ->
   exists n, In (EvLog Warn msg_leak_summary [ArgI n])
                (trace (snd (jit_shutdown X light w)))).

(** The format strings of the messages of the leak pass. *)
Definition leak_pass_message (fmt : string) : bool :=
  String.eqb fmt msg_leak_header || String.eqb fmt msg_leak_variable ||
  String.eqb fmt msg_leak_skip || String.eqb fmt msg_leak_summary ||
  String.eqb fmt "jit_shutdown(): %zu empty records were not cleaned up!".

(** An event that is no part of the leak pass: neither a call of
    [jit_var_dec_ref_ext] nor one of its messages. *)
Definition not_leak_pass (e : Event) : Prop :=
  match e with
  | EvCall (call_jit_var_dec_ref_ext _) => False
  | EvLog _ fmt _ => leak_pass_message fmt = false
  | _ => True
  end.

(** The two log levels and the variables of [s] are those of [s0]. *)
Definition quiet_frame (s0 s : State) : Prop :=
  log_level_stderr s = log_level_stderr s0 /\
  log_level_callback s = log_level_callback s0 /\
  variables s = variables s0.

(** ** Properties of the global state and the trace *)

Definition on_state_trace (G : State -> list Event -> Prop) : World -> Prop :=
  fun w => G (state w) (trace w).

(** [G] is kept when an event is added to the trace. *)
Definition grows (G : State -> list Event -> Prop) : Prop :=
  forall s tr e, G s tr -> G s (tr ++ [e]).

(** The trace extends [t]. *)
Definition extends (t : list Event) (tr : list Event) : Prop :=
  exists post, tr = t ++ post.

(** ** Peer access *)

Definition peer_query (a b : Device) : Event :=
  EvCuda (Some (dev_context a)) (cuDeviceCanAccessPeer (dev_id a) (dev_id b)).

Definition peer_enable (a b : Device) : Event :=
  EvCuda (Some (dev_context a)) (cuCtxEnablePeerAccess (dev_context b)).

Definition peer_log (a b : Device) : Event :=
  EvLog Debug " - Enabling peer access from device %i -> %i"
    [ArgI (dev_id a); ArgI (dev_id b)].

(** [peer_ok] as the driver stores it when asked after history [h]. *)
Definition peer_ok (X : Externals) (h : list Event) (a b : Device) : Z :=
  snd (cuda_answer X h (Some (dev_context a))
         (cuDeviceCanAccessPeer (dev_id a) (dev_id b))).

(** The events of one iteration of the inner loop, after history [h]. *)
Definition peer_events (X : Externals) (h : list Event) (a b : Device)
    : list Event :=
  if dev_id a =? dev_id b then []
  else peer_query a b ::
       (if peer_ok X h a b =? 0 then [] else [peer_log a b; peer_enable a b]).

Fixpoint row_events (X : Externals) (h : list Event) (a : Device)
    (bs : list Device) : list Event :=
  match bs with
  | [] => []
  | b :: bs' =>
      peer_events X h a b ++ row_events X (h ++ peer_events X h a b) a bs'
  end.

Fixpoint matrix_events (X : Externals) (h : list Event) (l bs : list Device)
    : list Event :=
  match l with
  | [] => []
  | a :: l' =>
      row_events X h a bs ++ matrix_events X (h ++ row_events X h a bs) l' bs
  end.

(** The driver's answers during the peer-access phase: the query passes
    [cuda_check], and enabling either passes it or reports that peer access
    is already enabled. *)
Definition peer_answers_ok (X : Externals) : Prop :=
  forall h cur c,
    match c with
    | cuDeviceCanAccessPeer _ _ =>
        cuda_check_passes X (fst (cuda_answer X h cur c)) = true
    | cuCtxEnablePeerAccess _ =>
        fst (cuda_answer X h cur c) = CUDA_ERROR_PEER_ACCESS_ALREADY_ENABLED \/
        cuda_check_passes X (fst (cuda_answer X h cur c)) = true
    | _ => True
    end.

(** ** The search for a library *)

Definition select_log (counter : Z) (path : string) : Event :=
  EvLog Info msg_candidate [ArgI counter; ArgS path].

(** Result and events of [select_pass]. *)
Fixpoint select_pass_pure (X : Externals) (j : nat) (paths : list string)
    (chosen : option string) (counter : Z)
    : (option string * Z) * list Event :=
  match paths with
  | [] => ((chosen, counter), [])
  | path :: rest =>
      match j with
      | O =>
          if skipped_at_first (lstat X path) then
            let r := select_pass_pure X j rest chosen counter in
            (fst r, EvCall (call_lstat path) :: snd r)
          else
            let r := select_pass_pure X j rest (Some path) (uint32 (counter + 1)) in
            (fst r, EvCall (call_lstat path) :: select_log counter path :: snd r)
      | S _ =>
          let r := select_pass_pure X j rest (Some path) (uint32 (counter + 1)) in
          (fst r, select_log counter path :: snd r)
      end
  end.

Definition select_candidate_pure (X : Externals) (paths : list string)
    : option string * list Event :=
  let r0 := select_pass_pure X 0 paths None 1 in
  match fst (fst r0) with
  | Some c => (Some c, snd r0)
  | None =>
      let r1 := select_pass_pure X 1 paths None (snd (fst r0)) in
      (fst (fst r1), snd r0 ++ snd r1)
  end.

(** The candidate chosen among the paths found by [glob], and the events
    of the choice. *)
Definition choose_pure (X : Externals) (fname : string)
    (env_var : option string) (paths : list string)
    : option string * list Event :=
  if 1 <? len paths then
    let r := select_candidate_pure X (std_sort X natural_less paths) in
    (fst r,
     [EvLog Info msg_multiple_versions [ArgS fname]] ++ snd r ++
     [EvLog Info msg_choosing_last
        [ArgS (match env_var with Some v => v | None => "(null)" end)]])
  else
    (match paths with [c] => Some c | _ => None end, []).

(** Result and events of [find_library_with]. *)
Definition find_library_pure (X : Externals) (fname glob_pat : string)
    (env_var env_var_val : option string) : option Z * list Event :=
  let name := match env_var_val with Some v => v | None => fname end in
  match dlopen X name with
  | Some h => (Some h, [EvCall (call_dlopen name)])
  | None =>
      match env_var_val with
      | Some v =>
          (None, [EvCall (call_dlopen name);
                  EvLog Warn msg_unable_to_load [ArgS v; ArgS (dlerror X)]])
      | None =>
          match glob X glob_pat with
          | None => (None, [EvCall (call_dlopen name); EvCall (call_glob glob_pat)])
          | Some paths =>
              let r := choose_pure X fname env_var paths in
              match fst r with
              | Some c =>
                  (dlopen X c,
                   [EvCall (call_dlopen name); EvCall (call_glob glob_pat)] ++
                   snd r ++ [EvCall (call_dlopen c)])
              | None =>
                  (None,
                   [EvCall (call_dlopen name); EvCall (call_glob glob_pat)] ++ snd r)
              end
          end
      end
  end.

(** A candidate that the first pass does not skip: [lstat] succeeds and
    the path is not a symbolic link. *)
Definition kept_at_first (X : Externals) (path : string) : bool :=
  negb (skipped_at_first (lstat X path)).

(** [l] is in an order that the comparator [less] accepts: no element is
    less than an element before it. *)
Definition sorted_by (less : string -> string -> bool) (l : list string) : Prop :=
  StronglySorted (fun x y => less y x = false) l.

(** ** A reference-count decrement for concrete runs *)

Definition var_lookup (id : Z) (vars : list (Z * Variable_)) : option Variable_ :=
  option_map snd (find (fun kv => fst kv =? id) vars).

Definition var_update (id : Z) (f : Variable_ -> Variable_)
    (vars : list (Z * Variable_)) : list (Z * Variable_) :=
  map (fun kv => if fst kv =? id then (fst kv, f (snd kv)) else kv) vars.

Definition var_remove (id : Z) (vars : list (Z * Variable_)) : list (Z * Variable_) :=
  filter (fun kv => negb (fst kv =? id)) vars.

Definition dec_ext (v : Variable_) : Variable_ :=
  mkVariable (scatter v) (ref_count_ext v - 1) (ref_count_int v) (dep v).

Definition dec_int (v : Variable_) : Variable_ :=
  mkVariable (scatter v) (ref_count_ext v) (ref_count_int v - 1) (dep v).

(** The worklist of the collection: a variable whose two counts are zero is
    removed from the map, the CSE entries that lead to it are purged, and
    its dependencies lose an internal reference and are examined in turn. *)
Fixpoint var_collect (fuel : nat) (work : list Z)
    (vars : list (Z * Variable_)) (cse : list (VariableKey * Z))
    : list (Z * Variable_) * list (VariableKey * Z) :=
  match fuel, work with
  | S fuel', id :: work' =>
      match var_lookup id vars with
      | Some v =>
          if (ref_count_ext v =? 0) && (ref_count_int v =? 0) then
            let deps := filter (fun d => negb (d =? 0)) (dep v) in
            var_collect fuel' (deps ++ work')
              (fold_left (fun vs d => var_update d dec_int vs) deps
                 (var_remove id vars))
              (filter (fun kv => negb (snd kv =? id)) cse)
          else var_collect fuel' work' vars cse
      | None => var_collect fuel' work' vars cse
      end
  | _, _ => (vars, cse)
  end.

(** Modelled from the spec: [jit_var_dec_ref_ext] is defined in a
    translation unit that is not part of the sources.  Section 4.5: the
    external count is decremented and, when the variable is no longer
    referenced, "collection runs: the Variable's deps are decremented
    (recursively), the Variable is removed from the VariableMap, any CSE
    entry keyed on it is purged"; the recursion is "an explicit
    worklist".  Every step of the worklist removes an entry or a variable,
    and a variable adds at most four entries. *)
Definition var_dec_ref_ext_spec (id : Z) (s : State) : State :=
  let vars := var_update id dec_ext (variables s) in
  let r := var_collect (S (5 * length vars)) [id] vars (cse_cache s) in
  mkState (has_llvm s) (has_cuda s) (tss s) (devices s) (fst r)
    (extra s) (snd r) (variable_from_ptr s) (kernel_cache s)
    (log_level_stderr s) (log_level_callback s) (variable_index s)
    (kernel_hard_misses s) (kernel_soft_misses s) (kernel_hits s)
    (kernel_launches s) (mutex_locked s).

(** ** Concrete externals and worlds *)

(** A sorting function with which [std_sort] can be instantiated. *)
Fixpoint insert_sorted (less : string -> string -> bool) (x : string)
    (l : list string) : list string :=
  match l with
  | [] => [x]
  | y :: l' => if less x y then x :: l else y :: insert_sorted less x l'
  end.

Definition insertion_sort (less : string -> string -> bool) (l : list string)
    : list string :=
  fold_right (insert_sorted less) [] l.

(** Externals in which every driver call succeeds and stores 1, only
    [CUDA_SUCCESS] passes [cuda_check], [jit_var_dec_ref_ext] leaves the
    state alone, the loader finds nothing, every device is named [GPU] and
    every size is shown as [1 GiB]. *)
Definition plain_externals : Externals :=
  mkExternals Linux 2
    (fun _ _ _ => (CUDA_SUCCESS, 1)) (fun rv => rv =? CUDA_SUCCESS)
    (fun _ s => s)
    (fun _ => true) (fun _ => true) (fun _ => 2)
    (fun _ => Some "/home/user") None (fun _ => false) (fun _ _ => false)
    "error"
    (fun _ => None) "not found" (fun _ => None) (fun _ => None)
    insertion_sort
    (fun _ => "GPU") (fun _ => "1 GiB").

Definition empty_state : State :=
  mkState false false [] [] [] [] [] [] [] Info Info 0 0 0 0 0 true.

(** A GPU thread state (context 11, stream 21, event 31) and two CPU
    thread states with pending tasks 7 and 8. *)
Definition gpu_thread_state : ThreadState := mkThreadState true 11 21 31 0 None [].
Definition cpu_thread_state_7 : ThreadState := mkThreadState false 0 0 0 (-1) (Some 7%nat) [].
Definition cpu_thread_state_8 : ThreadState := mkThreadState false 0 0 0 (-1) (Some 8%nat) [].

Definition three_thread_heap : gmap ptr ThreadState :=
  <[1%nat := gpu_thread_state]>
    (<[2%nat := cpu_thread_state_7]> (<[3%nat := cpu_thread_state_8]> ∅)).

(** The calling thread owns thread states 1 (GPU) and 2 (CPU); thread state
    3 was registered by another thread. *)
Definition three_thread_world : World :=
  mkWorld (with_tss [1%nat; 2%nat; 3%nat] empty_state) three_thread_heap
          (Some 1%nat) (Some 2%nat) None [] [].

(** The calling thread has no thread state of its own; another thread
    registered the CPU thread state 3, whose task 8 is pending. *)
Definition foreign_cpu_world : World :=
  mkWorld (with_tss [3%nat] empty_state)
          (<[3%nat := cpu_thread_state_8]> ∅) None None None [] [].

(** Externals like [plain_externals], with the reference-count decrement
    of the specification. *)
Definition collecting_externals : Externals :=
  mkExternals Linux 2
    (fun _ _ _ => (CUDA_SUCCESS, 1)) (fun rv => rv =? CUDA_SUCCESS)
    var_dec_ref_ext_spec
    (fun _ => true) (fun _ => true) (fun _ => 2)
    (fun _ => Some "/home/user") None (fun _ => false) (fun _ _ => false)
    "error"
    (fun _ => None) "not found" (fun _ => None) (fun _ => None)
    insertion_sort
    (fun _ => "GPU") (fun _ => "1 GiB").

(** Three variables: a literal (1) that only the scatter (2) refers to,
    the scatter itself, whose only reference is external, and a variable
    (3) that the program still holds. *)
Definition leaky_variables : list (Z * Variable_) :=
  [(1, mkVariable false 0 1 [0; 0; 0; 0]);
   (2, mkVariable true 1 0 [1; 0; 0; 0]);
   (3, mkVariable false 1 0 [0; 0; 0; 0])].

Definition leaky_state (stderr_level callback_level : LogLevel) : State :=
  mkState true false [] [] leaky_variables [] [] [] []
          stderr_level callback_level 4 0 0 0 0 true.

(** A world with leaks, logging at level [Info]. *)
Definition leaky_world : World :=
  mkWorld (leaky_state Info Info) ∅ None None None [] [].

(** The same world with both log levels at [Error]. *)
Definition quiet_leaky_world : World :=
  mkWorld (leaky_state Error Error) ∅ None None None [] [].

(** A world without variables whose CSE cache still has an entry. *)
Definition stale_cse_world : World :=
  mkWorld (mkState true false [] [] [] [] [(mkVariableKey [1; 2; 0; 0], 7)]
             [] [] Info Info 8 0 0 0 0 true)
          ∅ None None None [] [].

(** A driver with two devices whose primary contexts are 100 and 101.
    Every device can reach every other one; enabling peer access from
    context 101 reports that it is already enabled. *)
Definition peer_driver (h : list Event) (cur : option CUcontext) (c : CudaCall)
    : CUresult * Z :=
  match c with
  | cuDevicePrimaryCtxRetain dev => (CUDA_SUCCESS, 100 + dev)
  | cuCtxEnablePeerAccess _ =>
      match cur with
      | Some 101 => (CUDA_ERROR_PEER_ACCESS_ALREADY_ENABLED, 0)
      | _ => (CUDA_SUCCESS, 0)
      end
  | _ => (CUDA_SUCCESS, 1)
  end.

Definition peer_externals : Externals :=
  mkExternals Linux 2
    peer_driver (fun rv => rv =? CUDA_SUCCESS)
    (fun _ s => s)
    (fun _ => true) (fun _ => true) (fun _ => 2)
    (fun _ => Some "/home/user") None (fun _ => false) (fun _ _ => false)
    "error"
    (fun _ => None) "not found" (fun _ => None) (fun _ => None)
    insertion_sort
    (fun _ => "GPU") (fun _ => "1 GiB").

Definition uninitialised_world : World :=
  mkWorld empty_state ∅ None None None [] [].

(** A machine on which [libLLVM.so] is not on the loader's path and two
    versions of the library are installed as regular files, 2 and
    4294967297 (= 2^32 + 1).  Each can be opened; the handle tells which
    one it is. *)
Definition llvm_2 : string := "/usr/lib/libLLVM-2.so".
Definition llvm_4294967297 : string := "/usr/lib/libLLVM-4294967297.so".

Definition two_versions_externals : Externals :=
  mkExternals Linux 2
    (fun _ _ _ => (CUDA_SUCCESS, 1)) (fun rv => rv =? CUDA_SUCCESS)
    (fun _ s => s)
    (fun _ => true) (fun _ => true) (fun _ => 2)
    (fun _ => None) None (fun _ => false) (fun _ _ => false)
    "error"
    (fun path => if String.eqb path llvm_2 then Some 2
                 else if String.eqb path llvm_4294967297 then Some 4294967297
                 else None)
    "cannot open shared object file"
    (fun _ => Some [llvm_2; llvm_4294967297])
    (fun _ => Some false)
    insertion_sort
    (fun _ => "GPU") (fun _ => "1 GiB").

(** A machine on which the override names a library that can be opened. *)
Definition override_externals : Externals :=
  mkExternals Linux 2
    (fun _ _ _ => (CUDA_SUCCESS, 1)) (fun rv => rv =? CUDA_SUCCESS)
    (fun _ s => s)
    (fun _ => true) (fun _ => true) (fun _ => 2)
    (fun v => if String.eqb v "ENOKI_LIBLLVM_PATH" then Some "/opt/llvm/libLLVM.so"
              else None)
    None (fun _ => false) (fun _ _ => false)
    "error"
    (fun path => if String.eqb path "/opt/llvm/libLLVM.so" then Some 9 else None)
    "cannot open shared object file"
    (fun _ => Some [llvm_2; llvm_4294967297])
    (fun _ => Some false)
    insertion_sort
    (fun _ => "GPU") (fun _ => "1 GiB").

(** ** Hosts of the LLVM backend *)

(** An LLVM library with the core and the legacy pass-manager groups, an
    incomplete ORCv2 group and no MCJIT. *)
Definition api_without_engine : LLVMApi :=
  mkLLVMApi [Some 1; Some 2] [None] [Some 3] [Some 4; None] [None].

(** A Linux machine with an ARM processor: the feature string names none
    of the vector extensions that [jitc_llvm_init] looks for. *)
Definition aarch64_linux : LLVMEnv :=
  mkLLVMEnv true false (Some api_without_engine)
    "aarch64-unknown-linux-gnu" "cortex-a72" "+neon,+fp-armv8,+crc"
    true 1 false false 12.

(** An x86-64 machine with AVX2 and FMA, and the same library. *)
Definition x86_64_linux : LLVMEnv :=
  mkLLVMEnv false false (Some api_without_engine)
    "x86_64-unknown-linux-gnu" "skylake" "+sse4.2,+avx,+avx2,+fma"
    true 1 false false 12.

(** Libraries without the core group, and without either pass-manager
    group. *)
Definition api_without_core : LLVMApi :=
  mkLLVMApi [Some 1; None] [Some 5] [Some 3] [Some 4] [Some 6].
Definition api_without_pass_manager : LLVMApi :=
  mkLLVMApi [Some 1; Some 2] [None] [Some 3; None] [Some 4] [Some 6].

(** A library with every group, on the ARM machine. *)
Definition api_complete : LLVMApi :=
  mkLLVMApi [Some 1; Some 2] [Some 5] [Some 3] [Some 4] [Some 6].

Definition aarch64_linux_complete : LLVMEnv :=
  mkLLVMEnv true false (Some api_complete)
    "aarch64-unknown-linux-gnu" "cortex-a72" "+neon,+fp-armv8,+crc"
    true 1 true true 12.

Definition x86_64_linux_with (t : LLVMApi) : LLVMEnv :=
  mkLLVMEnv false false (Some t)
    "x86_64-unknown-linux-gnu" "skylake" "+sse4.2,+avx,+avx2,+fma"
    true 1 false false 12.

(** The library passes the checks that come before the engines are
    tried: the core group, one of the pass-manager groups, and (except on
    ARM) the [fma] feature. *)
Definition reaches_engines (env : LLVMEnv) (t : LLVMApi) : Prop :=
  api_init_result env = Some t /\
  all_resolved (syms_core t) = true /\
  (all_resolved (syms_pb_new t) = true \/ all_resolved (syms_pb_legacy t) = true) /\
  (is_aarch64 env = true \/
   found (strstr (LLVMGetHostCPUFeatures env) "+fma") = true).

(** Neither engine can be initialised. *)
Definition no_engine (env : LLVMEnv) (t : LLVMApi) : Prop :=
  (all_resolved (syms_orcv2 t) = false \/ orcv2_init_result env = false) /\
  (all_resolved (syms_mcjit t) = false \/ mcjit_init_result env = false).

(** Three candidates, one of them a symbolic link; every candidate can be
    opened, the plain name cannot. *)
Definition llvm_9 : string := "/usr/lib/libLLVM-9.so".
Definition llvm_10 : string := "/usr/lib/libLLVM-10.so".
Definition llvm_link : string := "/usr/lib/libLLVM.so".

Definition three_candidates_externals : Externals :=
  mkExternals Linux 2
    (fun _ _ _ => (CUDA_SUCCESS, 1)) (fun rv => rv =? CUDA_SUCCESS)
    (fun _ s => s)
    (fun _ => true) (fun _ => true) (fun _ => 2)
    (fun _ => None) None (fun _ => false) (fun _ _ => false)
    "error"
    (fun path => if String.eqb path llvm_9 then Some 9
                 else if String.eqb path llvm_10 then Some 10
                 else if String.eqb path llvm_link then Some 12
                 else None)
    "cannot open shared object file"
    (fun _ => Some [llvm_link; llvm_9; llvm_10])
    (fun path => Some (String.eqb path llvm_link))
    insertion_sort
    (fun _ => "GPU") (fun _ => "1 GiB").

(** ** Notions for the further properties *)

(** The driver lets every call pass [cuda_check]. *)
Definition driver_ok (X : Externals) : Prop :=
  forall h cur c, cuda_check_passes X (fst (cuda_answer X h cur c)) = true.

(** The thread state of the calling thread after a switch to the device
    [d] with index [device], when the driver stored [stream] and [event]. *)
Definition switched_thread_state (t : ThreadState) (d : Device) (device : Z)
    (stream : CUstream) (event : CUevent) : ThreadState :=
  mkThreadState (ts_cuda t) (dev_context d) stream event device
    (ts_task t) (ts_active_mask t).

(** The calls of a switch, in order, each with the context that is current
    when it is made. *)
Definition switch_events (t : ThreadState) (d : Device) (device : Z)
    : list Event :=
  [EvLog Info "jit_cuda_set_device(%i)" [ArgI device];
   EvCuda (Some (ts_context t)) (cuStreamSynchronize (ts_stream t));
   EvCuda (Some (ts_context t)) (cuEventDestroy (ts_event t));
   EvCuda (Some (ts_context t)) (cuStreamDestroy (ts_stream t));
   EvCuda (Some (dev_context d)) cuStreamCreate;
   EvCuda (Some (dev_context d)) cuEventCreate].

(** The event by which [jit_sync_thread(ts)] waits for the work of a
    thread state. *)
Definition sync_event (t : ThreadState) : Event :=
  if ts_cuda t
  then EvCuda (Some (ts_context t)) (cuStreamSynchronize (ts_stream t))
  else EvTaskWait (ts_task t).

(** Events of [jit_sync_thread(ts)] called in turn on the thread states
    [l], started with heap [h]. *)
Fixpoint sync_events (l : list ptr) (h : gmap ptr ThreadState) : list Event :=
  match l with
  | [] => []
  | p :: l' =>
      match h !! p with
      | Some t =>
          sync_event t ::
          sync_events l' (if ts_cuda t then h else <[p := clear_task t]> h)
      | None => []
      end
  end.

(** The thread-local pointers of the calling thread that are set. *)
Definition own_thread_states (w : World) : list ptr :=
  match thread_state_cuda w with Some p => [p] | None => [] end ++
  match thread_state_llvm w with Some p => [p] | None => [] end.

(** The state satisfies [St], the heap and the two thread-local pointers
    satisfy [Hp], and the events added to the trace [t0] all satisfy
    [ok]. *)
Definition only_events (St : State -> Prop)
    (Hp : gmap ptr ThreadState -> option ptr -> option ptr -> Prop)
    (ok : Event -> Prop) (t0 : list Event) (w : World) : Prop :=
  St (state w) /\
  Hp (heap w) (thread_state_cuda w) (thread_state_llvm w) /\
  exists new, trace w = t0 ++ new /\ Forall ok new.

(** [jit_var_dec_ref_ext] works on the variable store: it leaves the
    registry of thread states, devices and kernels and the backend flags
    alone. *)
Definition dec_ref_frame (X : Externals) : Prop :=
  forall i s,
    has_llvm (var_dec_ref_ext X i s) = has_llvm s /\
    has_cuda (var_dec_ref_ext X i s) = has_cuda s /\
    tss (var_dec_ref_ext X i s) = tss s /\
    devices (var_dec_ref_ext X i s) = devices s /\
    kernel_cache (var_dec_ref_ext X i s) = kernel_cache s.

(** An event other than work on a thread state or a device, which is a
    driver call, the deletion of a thread state or the wait for a task. *)
Definition not_driver_work (e : Event) : Prop :=
  match e with
  | EvCuda _ _ | EvDelete _ | EvTaskWait _ => False
  | _ => True
  end.

(** No thread state is registered and the CUDA backend is inactive. *)
Definition idle_registry (s : State) : Prop :=
  tss s = [] /\ has_cuda s = false.

Definition any_heap (h : gmap ptr ThreadState) (c l : option ptr) : Prop := True.

(** The registry of thread states, devices and kernels and the backend
    flags of [s] are those of [s0]. *)
Definition same_registry (s0 s : State) : Prop :=
  has_llvm s = has_llvm s0 /\ has_cuda s = has_cuda s0 /\ tss s = tss s0 /\
  devices s = devices s0 /\ kernel_cache s = kernel_cache s0.

Definition same_heap (h0 : gmap ptr ThreadState) (c0 l0 : option ptr)
    (h : gmap ptr ThreadState) (c l : option ptr) : Prop :=
  h = h0 /\ c = c0 /\ l = l0.

Definition any_event (e : Event) : Prop := True.

(** The heap after [delete] has been applied to the objects [l]. *)
Definition delete_all (l : list ptr) (h : gmap ptr ThreadState)
    : gmap ptr ThreadState :=
  fold_left (fun h p => delete p h) l h.

(** An event other than the two calls that unload the backends. *)
Definition keeps_backends (e : Event) : Prop :=
  e <> EvCall call_jit_llvm_shutdown /\ e <> EvCall call_jit_cuda_shutdown.

Definition any_state (s : State) : Prop := True.

(** An event other than a driver call and the start of the CUDA backend. *)
Definition not_cuda (e : Event) : Prop :=
  match e with
  | EvCuda _ _ | EvCall call_jit_cuda_init => False
  | _ => True
  end.

(** An event other than the start of the LLVM backend. *)
Definition not_llvm_init (e : Event) : Prop :=
  e <> EvCall call_jit_llvm_init.

Definition no_devices (s : State) : Prop := devices s = [].

(** A device as [jit_init] registers it: a CUDA ordinal that is not
    negative, and a pool of [ENOKI_SUB_STREAMS] streams and as many
    events. *)
Definition device_ok (X : Externals) (d : Device) : Prop :=
  0 <= dev_id d /\
  length (dev_sub_streams d) = ENOKI_SUB_STREAMS X /\
  length (dev_sub_events d) = ENOKI_SUB_STREAMS X.

(** The devices are in the order of their ordinals, which lie below [n]. *)
Definition devices_below (X : Externals) (n : Z) (l : list Device) : Prop :=
  Forall (fun d => device_ok X d /\ dev_id d < n) l /\
  StronglySorted Z.lt (map dev_id l).

Definition same_devices (s0 s : State) : Prop := devices s = devices s0.

Definition msg_creating_directory : string :=
  ("jit_init(): creating directory " ++ dq ++ "%s" ++ dq ++ " ..")%string.
Definition msg_directory_failed : string :=
  ("jit_init(): creation of directory " ++ dq ++ "%s" ++ dq ++ " failed: %s")%string.

(** ** The order that the comparator defines *)

(** The value of a digit run as the comparator sees it. *)
Definition wrap_int (v : Z) : Z := to_int (Z.min v LONG_MAX).

(** A character that is not a digit: those below ['0'] come before the
    numbers, those above ['9'] after them. *)
Definition char_rank (c : ascii) : Z * Z :=
  (if char_code c <? 48 then 0 else 2, char_code c).

Definition flush (st : option Z) : list (Z * Z) :=
  match st with
  | Some acc => [(1, wrap_int acc)]
  | None => []
  end.

(** The key of a path: one entry for every character outside the digit
    runs and one for every digit run; [st] is the value of the digit run
    that is being read. *)
Fixpoint version_key (st : option Z) (s : string) : list (Z * Z) :=
  match s with
  | EmptyString => flush st
  | String c s' =>
      if isdigit c
      then version_key
             (Some (match st with Some acc => acc | None => 0 end * 10
                    + (char_code c - 48))) s'
      else flush st ++ char_rank c :: version_key None s'
  end.

Definition pair_eqb (p q : Z * Z) : bool :=
  (fst p =? fst q) && (snd p =? snd q).

Definition pair_ltb (p q : Z * Z) : bool :=
  (fst p <? fst q) || ((fst p =? fst q) && (snd p <? snd q)).

(** The lexicographic order on keys; a proper prefix comes first. *)
Fixpoint key_ltb (k1 k2 : list (Z * Z)) : bool :=
  match k1, k2 with
  | [], [] => false
  | [], _ :: _ => true
  | _ :: _, [] => false
  | p :: k1', q :: k2' => if pair_eqb p q then key_ltb k1' k2' else pair_ltb p q
  end.

(** A path without a digit. *)
Fixpoint no_digit (s : string) : bool :=
  match s with
  | EmptyString => true
  | String c s' => negb (isdigit c) && no_digit s'
  end.

(** A C string: no character of the path is the terminating NUL. *)
Fixpoint nul_free (s : string) : bool :=
  match s with
  | EmptyString => true
  | String c s' => negb (char_code c =? 0) && nul_free s'
  end.

(** Neither path is put before the other. *)
Definition equivalent_paths (a b : string) : Prop :=
  natural_less a b = false /\ natural_less b a = false.

Definition orcv2_usable (env : LLVMEnv) (t : LLVMApi) : bool :=
  all_resolved (syms_orcv2 t) && orcv2_init_result env.

Definition mcjit_usable (env : LLVMEnv) (t : LLVMApi) : bool :=
  all_resolved (syms_mcjit t) && mcjit_init_result env.

(** [n] copies of a string. *)
Fixpoint string_repeat (s : string) (n : nat) : string :=
  match n with
  | O => ""
  | S n' => (s ++ string_repeat s n')%string
  end.

(** The literal with all bits set. *)
Definition ones_literal (T : VarTypes) (i : nat) : string :=
  if Nat.eqb i (VarType_Bool T) then "1"
  else if is_float_type T i then
    ("0x" ++ string_repeat "F" (Z.to_nat (Z.min 16 (2 * type_size T i))) ++
     string_repeat "0" (16 - Z.to_nat (Z.min 16 (2 * type_size T i))))%string
  else "-1".

Definition ones_element (T : VarTypes) (i : nat) : string :=
  (type_name_llvm T i ++ " " ++ ones_literal T i)%string.

(** The kernel's code lies in the address space, and every function
    starts inside it. *)
Definition kernel_wf (k : Kernel) : Prop :=
  0 <= kernel_size k < 2 ^ 32 /\
  0 <= kernel_data k /\ kernel_data k + kernel_size k <= 2 ^ 64 /\
  Forall (fun base => kernel_data k <= base <= kernel_data k + kernel_size k)
    (kernel_reloc k).

(** The disassembler reports an instruction no longer than the bytes it
    was given. *)
Definition disasm_sized (D : Z -> Z -> Z * string) : Prop :=
  forall bytes bytes_size,
    0 <= bytes_size -> size_t (fst (D bytes bytes_size)) <= bytes_size.

(** A call of the disassembler stays inside the kernel's code: it starts
    at one of its bytes and may read up to its last byte. *)
Definition call_in_bounds (k : Kernel) (e : DisasmEvent) : Prop :=
  match e with
  | DisasmCall bytes bytes_size =>
      kernel_data k <= bytes /\ 0 < bytes_size /\
      bytes + bytes_size = kernel_data k + kernel_size k
  | DisasmLog _ _ => True
  end.

(** The log lines of a listing. *)
Definition is_nops_line (e : DisasmEvent) : bool :=
  match e with
  | DisasmLog fmt [] => String.eqb fmt msg_disasm_nops
  | _ => false
  end.

Definition log_lines (l : list DisasmEvent) : list DisasmEvent :=
  List.filter (fun e => match e with DisasmLog _ _ => true | _ => false end) l.

(** No two lines ["..."] follow each other. *)
Fixpoint nops_collapsed (l : list DisasmEvent) : Prop :=
  match l with
  | e1 :: ((e2 :: _) as l') =>
      (is_nops_line e1 && is_nops_line e2 = false) /\ nops_collapsed l'
  | _ => True
  end.

(** A line that shows a return instruction. *)
Definition is_ret_line (e : DisasmEvent) : bool :=
  match e with
  | DisasmLog fmt [_; ArgS start] =>
      String.eqb fmt msg_disasm_line && String.prefix "ret" start
  | _ => false
  end.

(** Nothing follows a return instruction. *)
Definition ret_is_last (l : list DisasmEvent) : Prop :=
  forall l1 e l2, l = l1 ++ e :: l2 -> is_ret_line e = true -> l2 = [].

(** ** Worlds and hosts for the further properties *)

(** Two devices whose contexts are 100 and 101. *)
Definition device_0 : Device := mkDevice 0 70 49152 40 100 [1; 1] [1; 1].
Definition device_1 : Device := mkDevice 1 70 49152 40 101 [1; 1] [1; 1].

Definition thread_on_device_0 : ThreadState :=
  mkThreadState true 100 21 31 0 None [].

(** The CUDA backend runs with both devices; the calling thread has the
    CUDA thread state 1, on device 0. *)
Definition two_device_world : World :=
  mkWorld (mkState false true [1%nat] [device_0; device_1] [] [] [] [] []
             Info Info 0 0 0 0 0 true)
          (<[1%nat := thread_on_device_0]> ∅) (Some 1%nat) None None [] [].

(** The CUDA backend runs, but no device was accepted. *)
Definition no_device_world : World :=
  mkWorld (mkState false true [] [] [] [] [] [] [] Info Info 0 0 0 0 0 true)
          ∅ None None None [] [].

(** No variable is left, but the pointer literal 4096 is still
    registered. *)
Definition pointer_leak_world : World :=
  mkWorld (mkState true false [] [] [] [] [] [4096] [] Info Info 8 0 0 0 0 true)
          ∅ None None None [] [].

(** A machine on which [$HOME/.enoki] does not exist and cannot be
    created. *)
Definition readonly_home_externals : Externals :=
  mkExternals Linux 2
    (fun _ _ _ => (CUDA_SUCCESS, 1)) (fun rv => rv =? CUDA_SUCCESS)
    (fun _ s => s)
    (fun _ => true) (fun _ => true) (fun _ => 2)
    (fun _ => Some "/home/user") None (fun _ => true) (fun _ _ => true)
    "Read-only file system"
    (fun _ => None) "not found" (fun _ => None) (fun _ => None)
    insertion_sort
    (fun _ => "GPU") (fun _ => "1 GiB").

(** An x86-64 machine with AVX2 and FMA on which MCJIT can be
    initialised and ORCv2 cannot. *)
Definition x86_64_linux_mcjit : LLVMEnv :=
  mkLLVMEnv false false (Some api_complete)
    "x86_64-unknown-linux-gnu" "skylake" "+sse4.2,+avx,+avx2,+fma"
    true 1 false true 12.

(** A table of five variable types: [Bool], [Int32], [Float16], [Float32]
    and [Float64]. *)
Definition five_var_types : VarTypes :=
  mkVarTypes 5
    (fun i => nth i ["i1"; "i32"; "half"; "float"; "double"] "")
    (fun i => nth i [1; 4; 2; 4; 8] 0)
    0 2 3 4.

(** A disassembler for a processor whose instructions take one byte
    each: an addition at every address that is a multiple of four, a
    return before the next one and [nop] between them. *)
Definition toy_disasm (bytes bytes_size : Z) : Z * string :=
  if bytes_size <? 1 then (0, "")
  else if bytes mod 4 =? 0 then (1, "  addq %rax, %rbx")
  else if bytes mod 4 =? 3 then (1, "  retq")
  else (1, "  nop").

(** A state in which both log levels are [Trace]. *)
Definition trace_level_state : State :=
  mkState false false [] [] [] [] [] [] [] Trace Trace 0 0 0 0 0 true.

(** A kernel of eight bytes at address 4096 with three relocations: two
    functions of four bytes, and the table of callables in between. *)
Definition toy_kernel : Kernel := mkKernel 4096 8 [4096; 4100; 4100].

(** ** The claim about [jit_sync_device] as the specification states it *)

(** "[sync_device()] waits for all work ... on all CPU ThreadStates": once
    the call has returned, every CPU thread state of [state.tss] had its
    task awaited and reset. *)
Definition sync_device_waits_for_every_cpu_thread_state
    (X : Externals) (w : World) : Prop :=
  forall w', jit_sync_device X w = (Ok tt, w') ->
  forall p t, In p (tss (state w)) -> heap w !! p = Some t ->
    ts_cuda t = false ->
    In (EvTaskWait (ts_task t)) (trace w') /\ heap w' !! p = Some (clear_task t).

(** * Reasoning about programs of the monad *)

(** [hoare P m Q E]: started in a world satisfying [P], the program [m]
    either returns [a] in a world satisfying [Q a] or fails with [f] in a
    world satisfying [E f].  Programs are total functions, so this is a
    total-correctness statement. *)
Definition hoare {A} (P : World -> Prop) (m : M A)
    (Q : A -> World -> Prop) (E : Failure -> World -> Prop) : Prop :=
  forall w, P w ->
    match m w with
    | (Ok a, w') => Q a w'
    | (Err f, w') => E f w'
    end.

(** Predicates that do not read the stack of current contexts. *)
Definition ctx_insensitive (P : World -> Prop) : Prop :=
  forall w l, P w ->
    P (mkWorld (state w) (heap w) (thread_state_cuda w) (thread_state_llvm w)
               (jit_temp_path w) l (trace w)).

Lemma hoare_ret {A} (a : A) (P : World -> Prop) (Q : A -> World -> Prop) E :
  (forall w, P w -> Q a w) -> hoare P (ret a) Q E.
Proof. intros H w Hw. apply H, Hw. Qed.

Lemma hoare_fail {A} (f : Failure) (P : World -> Prop)
    (Q : A -> World -> Prop) (E : Failure -> World -> Prop) :
  (forall w, P w -> E f w) -> hoare P (fail f) Q E.
Proof. intros H w Hw. apply H, Hw. Qed.

Lemma hoare_bind {A B} (m : M A) (k : A -> M B) P R Q E :
  hoare P m R E ->
  (forall a, hoare (R a) (k a) Q E) ->
  hoare P (bind m k) Q E.
Proof.
  intros Hm Hk w HP. unfold bind. specialize (Hm w HP).
  destruct (m w) as [[a|f] w']; [apply (Hk a w' Hm) | exact Hm].
Qed.

Lemma hoare_conseq {A} (m : M A) (P P' : World -> Prop)
    (Q Q' : A -> World -> Prop) (E E' : Failure -> World -> Prop) :
  hoare P' m Q' E' ->
  (forall w, P w -> P' w) ->
  (forall a w, Q' a w -> Q a w) ->
  (forall f w, E' f w -> E f w) ->
  hoare P m Q E.
Proof.
  intros H HP HQ HE w Hw. specialize (H w (HP w Hw)).
  destruct (m w) as [[a|f] w']; auto.
Qed.

Lemma hoare_pre {A} (m : M A) (P P' : World -> Prop) Q E :
  hoare P' m Q E -> (forall w, P w -> P' w) -> hoare P m Q E.
Proof. intros H HP. eapply hoare_conseq; eauto. Qed.

Lemma hoare_for_each {A} (l : list A) (body : A -> M unit)
    (I : World -> Prop) E :
  (forall x, In x l -> hoare I (body x) (fun _ => I) E) ->
  hoare I (for_each l body) (fun _ => I) E.
Proof.
  induction l as [|x l IH]; intros H; simpl.
  - apply hoare_ret. auto.
  - eapply hoare_bind; [apply H; now left|].
    intros ?. apply IH. intros y Hy. apply H. now right.
Qed.

(** A scope: the destructor is run after the body, also when the body
    raises an exception. *)
Lemma hoare_scoped {A} (ctor dtor : M unit) (body : M A)
    (P P1 : World -> Prop) (Q R : A -> World -> Prop)
    (Eb E : Failure -> World -> Prop) :
  hoare P ctor (fun _ => P1) E ->
  hoare P1 body Q Eb ->
  (forall a, hoare (Q a) dtor (fun _ => R a) E) ->
  (forall fmt args,
     hoare (Eb (Raised fmt args)) dtor (fun _ => E (Raised fmt args)) E) ->
  (forall fmt args w, Eb (Fatal fmt args) w -> E (Fatal fmt args) w) ->
  (forall w, Eb Undefined w -> E Undefined w) ->
  hoare P (scoped ctor dtor body) R E.
Proof.
  intros Hc Hb Hd Hr Hf Hu w HP. unfold scoped.
  specialize (Hc w HP). destruct (ctor w) as [[[]|f] w1]; [|exact Hc].
  specialize (Hb w1 Hc). destruct (body w1) as [[a|f] w2].
  - specialize (Hd a w2 Hb). destruct (dtor w2) as [[[]|f] w3]; exact Hd.
  - destruct f as [fmt args|fmt args|].
    + specialize (Hr fmt args w2 Hb). destruct (dtor w2) as [[[]|f] w3]; exact Hr.
    + apply Hf, Hb.
    + apply Hu, Hb.
Qed.

Lemma hoare_scoped_set_context {A} (ctx : CUcontext) (body : M A)
    (P : World -> Prop) (Q : A -> World -> Prop) (E : Failure -> World -> Prop) :
  ctx_insensitive P ->
  (forall a, ctx_insensitive (Q a)) ->
  (forall f, ctx_insensitive (E f)) ->
  hoare P body Q E ->
  hoare P (scoped_set_context ctx body) Q E.
Proof.
  intros HP HQ HE Hb. unfold scoped_set_context.
  eapply hoare_scoped with (P1 := P) (Q := Q) (Eb := E).
  - intros w Hw. simpl. apply HP, Hw.
  - exact Hb.
  - intros a w Hw. simpl. apply HQ, Hw.
  - intros fmt args w Hw. simpl. apply HE, Hw.
  - auto.
  - auto.
Qed.

(** ** Running programs *)

Lemma World_eta w :
  mkWorld (state w) (heap w) (thread_state_cuda w) (thread_state_llvm w)
          (jit_temp_path w) (ctx_stack w) (trace w) = w.
Proof. now destruct w. Qed.

Lemma bind_ok {A B} (m : M A) (k : A -> M B) w a w1 :
  m w = (Ok a, w1) -> bind m k w = k a w1.
Proof. intros H. unfold bind. now rewrite H. Qed.

Lemma bind_err {A B} (m : M A) (k : A -> M B) w f w1 :
  m w = (Err f, w1) -> bind m k w = (Err f, w1).
Proof. intros H. unfold bind. now rewrite H. Qed.

Lemma for_each_cons {A} (x : A) l (body : A -> M unit) w :
  for_each (x :: l) body w =
  match body x w with
  | (Ok _, w') => for_each l body w'
  | (Err f, w') => (Err f, w')
  end.
Proof. reflexivity. Qed.

Lemma relock s :
  mutex_locked s = true -> with_mutex_locked true (with_mutex_locked false s) = s.
Proof. destruct s; simpl; intros ->; reflexivity. Qed.

Lemma unlock_guard_run {A} (body : M A) w a w2 :
  mutex_locked (state w) = true ->
  body (set_mutex false (add_events [EvUnlock] w)) = (Ok a, w2) ->
  mutex_locked (state w2) = false ->
  unlock_guard body w = (Ok a, set_mutex true (add_events [EvLock] w2)).
Proof.
  intros Hm Hb Hm2.
  unfold unlock_guard, scoped, mutex_unlock, mutex_lock, bind, get_state.
  simpl. rewrite Hm. simpl.
  change (mkWorld (with_mutex_locked false (state w)) (heap w)
            (thread_state_cuda w) (thread_state_llvm w) (jit_temp_path w)
            (ctx_stack w) (trace w ++ [EvUnlock]))
    with (set_mutex false (add_events [EvUnlock] w)).
  rewrite Hb. rewrite Hm2. reflexivity.
Qed.

Lemma snapshot_tss_run w :
  snapshot_tss w = (Ok (tss (state w)), add_events [EvSnapshot (tss (state w))] w).
Proof. reflexivity. Qed.

Lemma add_events_app a b w : add_events b (add_events a w) = add_events (a ++ b) w.
Proof. unfold add_events. simpl. now rewrite app_assoc. Qed.

Lemma add_events_nil w : add_events [] w = w.
Proof. unfold add_events. now rewrite app_nil_r, World_eta. Qed.

(** * common.h: [scope_guard] *)

(** C10. A scope that owns a guard made by [scope_guard(f)] behaves exactly
    like the scope without the guard, whatever [f] would do if it were
    called: the result and the whole world (state, heap, trace) after the
    guard's construction, the body and the guard's destruction are those of
    the body alone.  The stored function is never invoked. *)
Theorem scope_guard_never_invokes_func (A : Type) (f : M unit) (body : M A)
    (w : World) :
  with_scope_guard f body w = body w.
Proof.
  unfold with_scope_guard, make_scope_guard, scope_guard_ctor, scoped,
    scope_guard_dtor, ret.
  destruct (body w) as [[a|[fmt args|fmt args|]] w']; reflexivity.
Qed.

(** In contrast, the destructor of [unlock_guard] does run: leaving the
    scope locks the mutex again. *)
Example unlock_guard_dtor_runs (w : World) :
  mutex_locked (state w) = true ->
  trace (snd (unlock_guard (ret tt) w)) = trace w ++ [EvUnlock; EvLock].
Proof.
  intros Hm. erewrite unlock_guard_run; [|exact Hm|reflexivity|reflexivity].
  simpl. now rewrite <- app_assoc.
Qed.

(** * init.cpp: the synchronization functions *)

(** ** The mutex is never held across a blocking call *)


Lemma lock_inv_ctx reg t0 h : ctx_insensitive (lock_inv reg t0 h).
Proof. intros w l [new H]. exists new. exact H. Qed.

Lemma lock_inv_any_ctx reg t0 : ctx_insensitive (lock_inv_any reg t0).
Proof. intros w l [h H]. exists h. now apply lock_inv_ctx. Qed.

Lemma lock_err_ctx reg t0 h f : ctx_insensitive (lock_err reg t0 h f).
Proof.
  destruct f; simpl; [apply lock_inv_ctx | apply lock_inv_any_ctx ..].
Qed.


Create HintDb lockdb.
#[local] Hint Resolve lock_inv_ctx lock_inv_any_ctx lock_err_ctx : lockdb.

Section LockDiscipline.

Variable X : Externals.
Variable reg : list ptr.
Variable t0 : list Event.














End LockDiscipline.


(** ** What [jit_sync_device] waits for *)

Section SyncDevice.

Variable X : Externals.

Lemma sync_if_cpu_run p t w :
  heap w !! p = Some t ->
  sync_if_cpu X p w =
  (Ok tt, if ts_cuda t then w
          else with_heap_trace w (<[p := clear_task t]> (heap w))
                 (trace w ++ [EvTaskWait (ts_task t)])).
Proof.
  intros Ht. unfold sync_if_cpu, jit_sync_thread_ts, load, store, bind,
    get_heap, task_wait_and_release, emit, set_heap, ret. simpl. rewrite Ht.
  destruct (ts_cuda t) eqn:Hc; simpl; [reflexivity|].
  repeat (rewrite ?Hc, ?Ht; simpl).
  unfold with_heap_trace, clear_task. now rewrite Hc.
Qed.

Lemma cpu_sync_loop l : forall w,
  (forall p, In p l -> is_Some (heap w !! p)) ->
  for_each l (sync_if_cpu X) w
  = (Ok tt, with_heap_trace w (cpu_sync_heap l (heap w))
                            (trace w ++ cpu_sync_events l (heap w))).
Proof.
  induction l as [|p l IH]; intros w Hv.
  - simpl. unfold ret, with_heap_trace. now rewrite app_nil_r, World_eta.
  - destruct (Hv p (or_introl eq_refl)) as [t Ht].
    rewrite for_each_cons, (sync_if_cpu_run p t w Ht). simpl. rewrite Ht.
    destruct (ts_cuda t) eqn:Hc.
    + apply IH. intros; apply Hv; now right.
    + rewrite IH.
      * unfold with_heap_trace. simpl. now rewrite <- app_assoc.
      * simpl. intros q Hq. destruct (decide (q = p)) as [->|Hne].
        -- rewrite lookup_insert_eq. eauto.
        -- rewrite lookup_insert_ne by congruence. apply Hv. now right.
Qed.

(** A CPU thread state that is already synchronized stays as it is. *)
Lemma cpu_sync_heap_idle l : forall h p t,
  h !! p = Some t -> ts_cuda t = false -> ts_task t = None ->
  cpu_sync_heap l h !! p = Some t.
Proof.
  induction l as [|q l IH]; intros h p t Hp Hc Hn; simpl; [exact Hp|].
  destruct (h !! q) as [tq|] eqn:Hq; [|exact Hp].
  destruct (ts_cuda tq) eqn:Hcq; [now apply IH|].
  apply IH; auto. destruct (decide (p = q)) as [->|Hne].
  - rewrite lookup_insert_eq. rewrite Hq in Hp. inversion Hp; subst.
    destruct t; simpl in *. subst. reflexivity.
  - rewrite lookup_insert_ne by congruence. exact Hp.
Qed.

Lemma cpu_sync_spec l : forall h p t,
  (forall q, In q l -> is_Some (h !! q)) ->
  In p l -> h !! p = Some t -> ts_cuda t = false ->
  In (EvTaskWait (ts_task t)) (cpu_sync_events l h) /\
  cpu_sync_heap l h !! p = Some (clear_task t).
Proof.
  induction l as [|q l IH]; intros h p t Hv Hin Hp Hc; [destruct Hin|].
  simpl. destruct (Hv q (or_introl eq_refl)) as [tq Hq]. rewrite Hq.
  destruct (decide (p = q)) as [->|Hne].
  - rewrite Hq in Hp. inversion Hp; subst tq. rewrite Hc. split; [now left|].
    apply cpu_sync_heap_idle; [apply lookup_insert_eq|exact Hc|reflexivity].
  - destruct Hin as [Heq|Hin]; [congruence|].
    destruct (ts_cuda tq) eqn:Hcq.
    + apply IH; auto. intros; apply Hv; now right.
    + destruct (IH (<[q := clear_task tq]> h) p t) as [H1 H2]; auto.
      * intros r Hr. destruct (decide (r = q)) as [->|Hrq].
        -- rewrite lookup_insert_eq. eauto.
        -- rewrite lookup_insert_ne by congruence. apply Hv. now right.
      * rewrite lookup_insert_ne by congruence. exact Hp.
      * split; [now right|exact H2].
Qed.

Lemma ctx_sync_run p t w :
  heap w !! p = Some t ->
  cuda_check_passes X
    (fst (cuda_answer X (trace w) (Some (ts_context t)) cuCtxSynchronize)) = true ->
  (let* t := load p in
   scoped_set_context (ts_context t) (cuda_checked X cuCtxSynchronize >> ret tt)) w
  = (Ok tt, add_events [EvCuda (Some (ts_context t)) cuCtxSynchronize] w).
Proof.
  intros Ht Hc. unfold load, bind, get_heap, scoped_set_context, scoped,
    cuda_checked, cuda_call, cuda_check, bind, ret. simpl. rewrite Ht. simpl.
  rewrite Hc. simpl. reflexivity.
Qed.

(** First half of [jit_sync_device]: the context of the calling thread. *)
Lemma sync_device_cuda_half ts w :
  mutex_locked (state w) = true ->
  (forall p, ts = Some p -> is_Some (heap w !! p)) ->
  (forall h cur,
     cuda_check_passes X (fst (cuda_answer X h cur cuCtxSynchronize)) = true) ->
  exists ev1,
    match ts with
    | Some p => unlock_guard
          (let* t := load p in
           scoped_set_context (ts_context t)
             (cuda_checked X cuCtxSynchronize >> ret tt))
    | None => ret tt
    end w = (Ok tt, add_events ev1 w) /\
    (forall t, ~ In (EvTaskWait t) ev1) /\
    (forall p t, ts = Some p -> heap w !! p = Some t ->
       In (EvCuda (Some (ts_context t)) cuCtxSynchronize) ev1).
Proof.
  intros Hm Hcu Hok. destruct ts as [p|].
  - destruct (Hcu p eq_refl) as [t Ht].
    exists [EvUnlock; EvCuda (Some (ts_context t)) cuCtxSynchronize; EvLock].
    split; [|split].
    + erewrite unlock_guard_run;
        [| exact Hm | apply ctx_sync_run; [exact Ht|apply Hok] | reflexivity].
      unfold set_mutex, add_events. simpl. rewrite relock by exact Hm.
      now rewrite <- !app_assoc.
    + intros t' [H|[H|[H|[]]]]; discriminate.
    + intros p' t' Hp' Ht'. inversion Hp'; subst p'. rewrite Ht in Ht'.
      inversion Ht'; subst. right; now left.
  - exists []. repeat split.
    + unfold add_events, ret. now rewrite app_nil_r, World_eta.
    + intros t [].
    + intros; discriminate.
Qed.

(** C1, as amended.  [jit_sync_device()] is called with the mutex held, in
    a world whose registered thread states (and the calling thread's CUDA
    thread state) are live objects and whose driver lets
    [cuCtxSynchronize] pass [cuda_check].  Then the call returns, and
    - if the calling thread has a CUDA thread state, [cuCtxSynchronize]
      was called with that thread state's context current;
    - if the calling thread has an LLVM thread state, every CPU thread
      state registered in [state.tss] had its pending task awaited and its
      task handle reset, whichever thread registered it;
    - if the calling thread has no LLVM thread state, no task was awaited
      and no thread state was changed. *)
Theorem jit_sync_device_syncs (w : World) :
  mutex_locked (state w) = true ->
  (forall p, thread_state_cuda w = Some p -> is_Some (heap w !! p)) ->
  (forall p, In p (tss (state w)) -> is_Some (heap w !! p)) ->
  (forall h cur,
     cuda_check_passes X (fst (cuda_answer X h cur cuCtxSynchronize)) = true) ->
  exists w' new,
    jit_sync_device X w = (Ok tt, w') /\
    trace w' = trace w ++ new /\
    (forall p t, thread_state_cuda w = Some p -> heap w !! p = Some t ->
       In (EvCuda (Some (ts_context t)) cuCtxSynchronize) new) /\
    (forall q p t, thread_state_llvm w = Some q ->
       In p (tss (state w)) -> heap w !! p = Some t -> ts_cuda t = false ->
       In (EvTaskWait (ts_task t)) new /\
       heap w' !! p = Some (clear_task t)) /\
    (thread_state_llvm w = None ->
       heap w' = heap w /\ forall t, ~ In (EvTaskWait t) new).
Proof.
  intros Hm Hcu Htss Hok.
  destruct (sync_device_cuda_half (thread_state_cuda w) w Hm Hcu Hok)
    as (ev1 & Hrun1 & Hnw & Hev1).
  unfold jit_sync_device. unfold bind at 1, get_thread_state_cuda at 1.
  rewrite (bind_ok _ _ _ _ _ Hrun1).
  unfold bind at 1, get_thread_state_llvm at 1.
  change (thread_state_llvm (add_events ev1 w)) with (thread_state_llvm w).
  destruct (thread_state_llvm w) as [q|] eqn:Hq.
  - rewrite (bind_ok _ _ _ _ _ (snapshot_tss_run _)).
    erewrite unlock_guard_run;
      [| exact Hm | apply cpu_sync_loop; exact Htss | exact eq_refl].
    eexists. exists (ev1 ++ [EvSnapshot (tss (state w)); EvUnlock]
                     ++ cpu_sync_events (tss (state w)) (heap w) ++ [EvLock]).
    split; [reflexivity|]. simpl. split; [now rewrite <- !app_assoc|].
    split; [|split].
    + intros p t Hp Ht. apply in_or_app. left. eauto.
    + intros q' p t _ Hin Ht Hc.
      destruct (cpu_sync_spec (tss (state w)) (heap w) p t Htss Hin Ht Hc)
        as [H1 H2].
      split; [|exact H2].
      apply in_or_app. right. right. right. apply in_or_app. now left.
    + discriminate.
  - exists (add_events ev1 w), ev1. split; [reflexivity|]. simpl.
    split; [reflexivity|]. split; [exact Hev1|]. split; [discriminate|]. auto.
Qed.

End SyncDevice.

(** Witness of [jit_sync_device_syncs]: a thread with a GPU and a CPU
    thread state, and a CPU thread state of another thread. *)
Lemma jit_sync_device_syncs_witness :
  exists w' new,
    jit_sync_device plain_externals three_thread_world = (Ok tt, w') /\
    trace w' = trace three_thread_world ++ new /\
    (forall p t, thread_state_cuda three_thread_world = Some p ->
       heap three_thread_world !! p = Some t ->
       In (EvCuda (Some (ts_context t)) cuCtxSynchronize) new) /\
    (forall q p t, thread_state_llvm three_thread_world = Some q ->
       In p (tss (state three_thread_world)) ->
       heap three_thread_world !! p = Some t -> ts_cuda t = false ->
       In (EvTaskWait (ts_task t)) new /\
       heap w' !! p = Some (clear_task t)) /\
    (thread_state_llvm three_thread_world = None ->
       heap w' = heap three_thread_world /\ forall t, ~ In (EvTaskWait t) new).
Proof.
  apply (jit_sync_device_syncs plain_externals three_thread_world).
  - reflexivity.
  - intros p H. inversion H; subst. eexists. reflexivity.
  - intros p [<-|[<-|[<-|[]]]]; eexists; reflexivity.
  - intros h cur. reflexivity.
Defined.

(** C1, counterexample.  The calling thread has no LLVM thread state, and a
    CPU thread state registered by another thread has a pending task:
    [jit_sync_device()] returns without waiting for it. *)
Lemma jit_sync_device_skips_foreign_cpu_work :
  ~ sync_device_waits_for_every_cpu_thread_state plain_externals foreign_cpu_world.
Proof.
  intros H.
  destruct (H foreign_cpu_world eq_refl 3%nat cpu_thread_state_8
              (or_introl eq_refl) eq_refl eq_refl) as [[] _].
Qed.


(** The events of that run: the context is synchronized and both tasks are
    awaited between an unlock and the next lock. *)
Example sync_device_trace :
  trace (snd (jit_sync_device plain_externals three_thread_world)) =
  [EvUnlock; EvCuda (Some 11) cuCtxSynchronize; EvLock;
   EvSnapshot [1%nat; 2%nat; 3%nat]; EvUnlock;
   EvTaskWait (Some 7%nat); EvTaskWait (Some 8%nat); EvLock].
Proof. reflexivity. Qed.

(** * init.cpp: [jit_init_thread_state] on an unavailable backend *)

(** C5. When the backend asked for is not available ([state.has_cuda],
    respectively [state.has_llvm], is false), [jit_init_thread_state]
    raises an error whose message names the environment variable to set.
    The thread state allocated at the start is deleted before the error is
    raised, and the world is as before apart from these two events: the
    global state (with [state.tss]), the heap and the thread-local pointers
    are unchanged. *)
Theorem jit_init_thread_state_backend_unavailable (X : Externals)
    (cuda : bool) (w : World) :
  (if cuda then has_cuda (state w) else has_llvm (state w)) = false ->
  let p := fresh (dom (heap w)) in
  let fmt := if cuda then msg_cuda_inactive else msg_llvm_inactive in
  let var := if cuda then "ENOKI_LIBCUDA_PATH" else "ENOKI_LIBLLVM_PATH" in
  exists args,
    jit_init_thread_state X cuda w =
      (Err (Raised fmt args), add_events [EvNew p; EvDelete p] w) /\
    found (strstr fmt var) = true.
Proof.
  intros H p fmt var. subst p fmt var.
  destruct cuda;
    [exists [ArgS (cuda_fname X)] | exists [ArgS (llvm_fname X)]];
    (split; [|reflexivity]);
    unfold jit_init_thread_state, new_ThreadState, delete_ThreadState, bind,
      get_heap, get_state, emit, set_heap, ret, jit_raise, fail;
    simpl; rewrite H; simpl; rewrite lookup_insert_eq; simpl;
    rewrite delete_insert_id by (apply not_elem_of_dom, is_fresh);
    unfold add_events; now rewrite <- app_assoc.
Qed.

(** Witness: the CUDA backend is unavailable in [foreign_cpu_world]. *)
Lemma jit_init_thread_state_unavailable_witness :
  exists args,
    jit_init_thread_state plain_externals true foreign_cpu_world =
      (Err (Raised msg_cuda_inactive args),
       add_events [EvNew (fresh (dom (heap foreign_cpu_world)));
                   EvDelete (fresh (dom (heap foreign_cpu_world)))]
         foreign_cpu_world) /\
    found (strstr msg_cuda_inactive "ENOKI_LIBCUDA_PATH") = true.
Proof.
  apply (jit_init_thread_state_backend_unavailable plain_externals true
           foreign_cpu_world).
  reflexivity.
Defined.

(** * init.cpp: [jit_shutdown] *)

(** ** Blocks of [jit_shutdown] keep properties of the state and grow the trace *)

Lemma on_state_trace_ctx G : ctx_insensitive (on_state_trace G).
Proof. intros w l H. exact H. Qed.

Section StateFrame.
Variable X : Externals.
Variable G : State -> list Event -> Prop.
Hypothesis G_grows : grows G.

Let P := on_state_trace G.
Let E := fun (_ : Failure) => on_state_trace G.

Lemma hs_emit e : hoare P (emit e) (fun _ => P) E.
Proof. intros w H. apply G_grows, H. Qed.

Lemma hs_ret {A} (a : A) : hoare P (ret a) (fun _ => P) E.
Proof. intros w H. exact H. Qed.

Lemma hs_get {A} (g : World -> A) :
  hoare P (fun w => (Ok (g w), w)) (fun _ => P) E.
Proof. intros w H. exact H. Qed.

Lemma hs_fail {A} f : hoare P (@fail A f) (fun _ => P) E.
Proof. intros w H. exact H. Qed.

Lemma hs_load p : hoare P (load p) (fun _ => P) E.
Proof.
  intros w H. unfold load, bind, get_heap. simpl.
  destruct (heap w !! p); simpl; exact H.
Qed.

Lemma hs_delete p : hoare P (delete_ThreadState p) (fun _ => P) E.
Proof.
  intros w H. unfold delete_ThreadState, bind, get_heap. simpl.
  destruct (heap w !! p); simpl; [apply G_grows|]; exact H.
Qed.

Lemma hs_cuda_checked c : hoare P (cuda_checked X c) (fun _ => P) E.
Proof.
  intros w H. unfold cuda_checked, bind, cuda_call, cuda_check. simpl.
  destruct (cuda_check_passes X _); simpl; apply G_grows, H.
Qed.

Lemma hs_modify f :
  (forall s tr, G s tr -> G (f s) tr) ->
  hoare P (modify_state f) (fun _ => P) E.
Proof. intros Hf w H. simpl. apply Hf, H. Qed.

Lemma hs_set_jit_temp_path p : hoare P (set_jit_temp_path p) (fun _ => P) E.
Proof. intros w H. exact H. Qed.

Lemma hs_set_thread_state_llvm p : hoare P (set_thread_state_llvm p) (fun _ => P) E.
Proof. intros w H. exact H. Qed.

Lemma hs_set_thread_state_cuda p : hoare P (set_thread_state_cuda p) (fun _ => P) E.
Proof. intros w H. exact H. Qed.

Lemma hs_scoped_set_context {A} ctx (body : M A) :
  hoare P body (fun _ => P) E ->
  hoare P (scoped_set_context ctx body) (fun _ => P) E.
Proof.
  intros H. apply hoare_scoped_set_context; auto; intros; apply on_state_trace_ctx.
Qed.

Lemma hs_bind {A B} (m : M A) (k : A -> M B) :
  hoare P m (fun _ => P) E ->
  (forall a, hoare P (k a) (fun _ => P) E) ->
  hoare P (bind m k) (fun _ => P) E.
Proof. intros Hm Hk. eapply hoare_bind; [exact Hm|exact Hk]. Qed.

Lemma hs_for_each {A} (l : list A) (body : A -> M unit) :
  (forall x, hoare P (body x) (fun _ => P) E) ->
  hoare P (for_each l body) (fun _ => P) E.
Proof. intros H. apply hoare_for_each. intros x _. apply H. Qed.

(** The blocks of [jit_shutdown]. *)
Lemma hs_shutdown_thread_state p :
  hoare P (shutdown_thread_state X p) (fun _ => P) E.
Proof.
  unfold shutdown_thread_state, ext_call, task_wait_and_release, jit_log.
  apply hs_bind; [apply hs_emit|intros ?].
  apply hs_bind; [apply hs_load|intros t].
  apply hs_bind; [|intros ?; apply hs_delete].
  destruct (ts_cuda t).
  - apply hs_scoped_set_context.
    repeat (apply hs_bind; [apply hs_cuda_checked|intros ?]).
    apply hs_ret.
  - apply hs_bind; [apply hs_emit|intros ?].
    destruct (ts_active_mask t); [apply hs_ret|apply hs_emit].
Qed.

Lemma hs_shutdown_thread_states :
  (forall s tr, G s tr -> G (with_tss [] s) tr) ->
  hoare P (shutdown_thread_states X) (fun _ => P) E.
Proof.
  intros Htss. unfold shutdown_thread_states, get_state, ext_call, jit_log.
  apply hs_bind; [apply (hs_get state)|intros s].
  apply hs_bind.
  - destruct (tss s); [apply hs_ret|].
    apply hs_bind; [apply hs_emit|intros ?].
    apply hs_bind; [apply hs_for_each; intros; apply hs_shutdown_thread_state|intros ?].
    apply hs_bind; [apply hs_emit|intros ?].
    apply hs_modify, Htss.
  - intros ?. apply hs_bind; [apply hs_set_thread_state_llvm|intros ?].
    apply hs_set_thread_state_cuda.
Qed.

Lemma hs_shutdown_kernel_cache :
  (forall s tr, G s tr -> G (with_kernel_cache [] s) tr) ->
  hoare P shutdown_kernel_cache (fun _ => P) E.
Proof.
  intros Hkc. unfold shutdown_kernel_cache, get_state, ext_call, jit_log.
  apply hs_bind; [apply (hs_get state)|intros s].
  destruct (kernel_cache s); [apply hs_ret|].
  apply hs_bind; [apply hs_emit|intros ?].
  apply hs_bind; [apply hs_for_each; intros; apply hs_emit|intros ?].
  apply hs_modify, Hkc.
Qed.

Lemma hs_shutdown_cache_checks :
  hoare P shutdown_cache_checks (fun _ => P) E.
Proof.
  unfold shutdown_cache_checks, get_state, jit_fail, log_cse_entry, jit_log.
  apply hs_bind; [apply (hs_get state)|intros s].
  apply hs_bind.
  - destruct (variables s); [|apply hs_ret].
    destruct (cse_cache s); [apply hs_ret|].
    apply hs_bind; [apply hs_for_each; intros; apply hs_emit|intros ?].
    apply hs_fail.
  - intros ?. apply hs_bind; [apply (hs_get state)|intros s'].
    destruct (variables s'); [|apply hs_ret].
    destruct (variable_from_ptr s'); [apply hs_ret|apply hs_fail].
Qed.

Lemma hs_shutdown_device v :
  hoare P (shutdown_device X v) (fun _ => P) E.
Proof.
  unfold shutdown_device.
  apply hs_bind; [|intros ?; apply hs_bind; [apply hs_cuda_checked|intros ?; apply hs_ret]].
  apply hs_scoped_set_context. apply hs_for_each. intros i.
  repeat (apply hs_bind; [apply hs_cuda_checked|intros ?]). apply hs_ret.
Qed.

Lemma hs_shutdown_backends light :
  (forall s tr, G s tr -> G (with_devices [] s) tr) ->
  (forall s tr b, G s tr -> G (with_has_cuda b s) tr) ->
  (forall s tr b, G s tr -> G (with_has_llvm b s) tr) ->
  hoare P (shutdown_backends X light) (fun _ => P) E.
Proof.
  intros Hd Hc Hl. unfold shutdown_backends, get_state, ext_call, jit_log.
  apply hs_bind; [apply hs_emit|intros ?].
  apply hs_bind; [apply hs_emit|intros ?].
  apply hs_bind; [apply (hs_get state)|intros s].
  apply hs_bind.
  { destruct (has_cuda s); [|apply hs_ret].
    apply hs_bind; [apply hs_for_each; intros; apply hs_shutdown_device|intros ?].
    apply hs_modify, Hd. }
  intros ?. apply hs_bind; [apply hs_emit|intros ?].
  apply hs_bind.
  { destruct (light =? 0); [|apply hs_ret].
    apply hs_bind; [apply hs_emit|intros ?; apply hs_emit]. }
  intros ?. apply hs_bind; [apply hs_set_jit_temp_path|intros ?].
  apply hs_bind; [apply hs_modify; intros; apply Hc; auto|intros ?].
  apply hs_modify; intros; apply Hl; auto.
Qed.

End StateFrame.

Lemma extends_grows t : grows (fun _ => extends t).
Proof.
  intros s tr e [post H]. exists (post ++ [e]). now rewrite H, app_assoc.
Qed.

Lemma same_variables_grows s0 : grows (fun s _ => same_variables s0 s).
Proof. intros s tr e H. exact H. Qed.

Lemma bind_assoc {A B C} (m : M A) (k : A -> M B) (k' : B -> M C) w :
  bind (bind m k) k' w = bind m (fun a => bind (k a) k') w.
Proof. unfold bind. destruct (m w) as [[a|f] w']; reflexivity. Qed.

Lemma shutdown_prefix_frame X w w1 :
  (shutdown_release X) w = (Ok tt, w1) ->
  same_variables (state w) (state w1).
Proof.
  intros H.
  assert (Hh : hoare (on_state_trace (fun s _ => same_variables (state w) s))
                 (shutdown_release X)
                 (fun _ => on_state_trace (fun s _ => same_variables (state w) s))
                 (fun _ => on_state_trace (fun s _ => same_variables (state w) s))).
  { unfold shutdown_release. apply hs_bind.
    - apply hs_shutdown_thread_states; [apply same_variables_grows|auto].
    - intros ?. apply hs_shutdown_kernel_cache; [apply same_variables_grows|auto]. }
  specialize (Hh w).
  rewrite H in Hh. apply Hh. unfold on_state_trace, same_variables. tauto.
Qed.

(** ** The leak pass *)

Lemma len_cons {A} (x : A) l : len (x :: l) = len l + 1.
Proof. unfold len. simpl length. lia. Qed.

Lemma len_nonneg {A} (l : list A) : 0 <= len l.
Proof. unfold len. lia. Qed.

Lemma report_leaks_run vars : forall n w,
  0 <= n -> n + len vars < 2 ^ 32 ->
  report_leaks vars n w = (Ok (n + len vars), add_events (report_events vars n) w).
Proof.
  induction vars as [|var rest IH]; intros n w Hn Hb.
  - simpl. unfold ret, add_events, len. simpl.
    now rewrite Z.add_0_r, app_nil_r, World_eta.
  - rewrite len_cons in Hb. pose proof (len_nonneg rest).
    simpl.
    assert (Hu : uint32 (n + 1) = n + 1).
    { unfold uint32. apply Z.mod_small. lia. }
    rewrite Hu.
    destruct (n =? 0) eqn:H0; destruct (n <? 10) eqn:H10;
      [| apply Z.eqb_eq in H0; apply Z.ltb_ge in H10; lia | |
       destruct (n =? 10) eqn:H1 ];
      unfold bind, ret, jit_log, emit; simpl;
      rewrite IH by lia; rewrite len_cons; unfold add_events; simpl;
      rewrite <- ?app_assoc; simpl;
      replace (n + 1 + len rest) with (n + (len rest + 1)) by lia;
      reflexivity.
Qed.

Lemma report_events_spec vars : forall n,
  0 <= n ->
  report_events vars n =
    (if (n =? 0) && negb (is_nil vars) then [EvLog Warn msg_leak_header []] else []) ++
    map leak_line (firstn (Z.to_nat (10 - n)) vars) ++
    (if (n <=? 10) && (10 <? n + len vars) then [EvLog Warn msg_leak_skip []] else []).
Proof.
  induction vars as [|var rest IH]; intros n Hn.
  - simpl. rewrite andb_false_r, firstn_nil. simpl.
    unfold len. simpl. rewrite Z.add_0_r.
    destruct (n <=? 10) eqn:H1; destruct (10 <? n) eqn:H2; try reflexivity.
    apply Z.leb_le in H1. apply Z.ltb_lt in H2. lia.
  - simpl report_events. rewrite (IH (n + 1)) by lia. rewrite len_cons.
    pose proof (len_nonneg rest) as Hl.
    replace (n + 1 =? 0) with false by (symmetry; apply Z.eqb_neq; lia).
    simpl andb. rewrite andb_true_r.
    destruct (n <? 10) eqn:H10.
    + apply Z.ltb_lt in H10.
      replace (Z.to_nat (10 - n)) with (S (Z.to_nat (10 - (n + 1)))) by lia.
      replace (n + 1 <=? 10) with true by (symmetry; apply Z.leb_le; lia).
      replace (n <=? 10) with true by (symmetry; apply Z.leb_le; lia).
      replace (n + 1 + len rest) with (n + (len rest + 1)) by lia.
      simpl. reflexivity.
    + apply Z.ltb_ge in H10.
      replace (n =? 0) with false by (symmetry; apply Z.eqb_neq; lia).
      replace (Z.to_nat (10 - n)) with O by lia.
      replace (Z.to_nat (10 - (n + 1))) with O by lia.
      replace (n + 1 <=? 10) with false by (symmetry; apply Z.leb_gt; lia).
      simpl. destruct (n =? 10) eqn:H1.
      * apply Z.eqb_eq in H1. subst n. simpl.
        replace (10 <? 10 + (len rest + 1)) with true
          by (symmetry; apply Z.ltb_lt; lia).
        reflexivity.
      * apply Z.eqb_neq in H1.
        replace (n <=? 10) with false by (symmetry; apply Z.leb_gt; lia).
        reflexivity.
Qed.

Lemma leak_report_events vars :
  leak_report vars =
  report_events vars 0 ++
  (if 0 <? 0 + len vars then [EvLog Warn msg_leak_summary [ArgI (0 + len vars)]] else []).
Proof.
  rewrite report_events_spec by lia. destruct vars as [|v vars]; [reflexivity|].
  unfold leak_report. rewrite len_cons. pose proof (len_nonneg vars).
  replace (0 <? 0 + (len vars + 1)) with true by (symmetry; apply Z.ltb_lt; lia).
  change (Z.to_nat (10 - 0)) with 10%nat. rewrite Z.add_0_l.
  simpl andb. rewrite <- !app_assoc. reflexivity.
Qed.

Section LeakPass.
Variable X : Externals.

Lemma dec_ref_loop_run ids : forall w,
  for_each ids (jit_var_dec_ref_ext X) w =
  (Ok tt, with_state_trace w (dec_ref_all X ids (state w))
            (trace w ++ dec_ref_calls ids)).
Proof.
  induction ids as [|i ids IH]; intros w.
  - simpl. unfold ret, with_state_trace. now rewrite app_nil_r, World_eta.
  - rewrite for_each_cons.
    unfold jit_var_dec_ref_ext at 1, ext_call, emit, modify_state, bind,
      get_state, set_state. simpl.
    rewrite IH. unfold with_state_trace. simpl. now rewrite <- app_assoc.
Qed.

Lemma shutdown_leak_pass_run w :
  leak_pass_enabled (state w) = true ->
  let ids := leaked_scatters (variables (state w)) in
  let s2 := dec_ref_all X ids (state w) in
  len (variables s2) < 2 ^ 32 ->
  shutdown_leak_pass X w =
  (Ok tt, with_state_trace w s2
            (trace w ++ dec_ref_calls ids ++ leak_report (variables s2)
                     ++ empty_records_warning s2)).
Proof.
  intros Hen ids s2 Hb. unfold shutdown_leak_pass.
  unfold bind at 1, get_state at 1. rewrite Hen.
  rewrite (bind_ok _ _ _ _ _ (dec_ref_loop_run _ _)).
  fold ids. fold s2. clearbody s2. clearbody ids.
  unfold bind at 1, get_state at 1. simpl state.
  erewrite bind_ok; [|apply report_leaks_run; [lia|simpl; lia]].
  rewrite leak_report_events.
  unfold empty_records_warning.
  destruct (0 <? 0 + len (variables s2)) eqn:Hpos;
    unfold bind, jit_log, emit, get_state, ret, add_events, with_state_trace;
    simpl;
    destruct (variables s2) as [|v vs] eqn:Hv.
  - unfold len in Hpos. simpl in Hpos. discriminate.
  - rewrite <- !app_assoc. simpl. rewrite ?app_nil_r. reflexivity.
  - destruct (extra s2) as [|e es] eqn:He; simpl;
      rewrite ?app_nil_r, <- ?app_assoc; reflexivity.
  - rewrite len_cons in Hpos. pose proof (len_nonneg vs).
    apply Z.ltb_ge in Hpos. lia.
Qed.

End LeakPass.

Section Shutdown.
Variable X : Externals.

Lemma log_cse_loop_run l : forall w,
  for_each l log_cse_entry w = (Ok tt, add_events (map cse_entry_event l) w).
Proof.
  induction l as [|kv l IH]; intros w.
  - simpl. unfold ret, add_events. now rewrite app_nil_r, World_eta.
  - rewrite for_each_cons. unfold log_cse_entry at 1, jit_log, emit.
    rewrite IH. unfold add_events. simpl. now rewrite <- app_assoc.
Qed.

Lemma shutdown_cache_checks_cse_leak w :
  variables (state w) = [] -> cse_cache (state w) <> [] ->
  shutdown_cache_checks w =
  (Err (Fatal msg_cse_leak []),
   add_events (map cse_entry_event (cse_cache (state w))) w).
Proof.
  intros Hv Hc. unfold shutdown_cache_checks.
  unfold bind at 1, get_state at 1. rewrite Hv.
  destruct (cse_cache (state w)) as [|kv l] eqn:Hl; [congruence|].
  apply bind_err. rewrite (bind_ok _ _ _ _ _ (log_cse_loop_run _ _)).
  reflexivity.
Qed.

Lemma jit_shutdown_split light w :
  jit_shutdown X light w =
  bind (shutdown_release X)
       (fun _ => shutdown_leak_pass X >> shutdown_cache_checks >>
                 shutdown_backends X light) w.
Proof. reflexivity. Qed.

Lemma with_state_trace_same w tr :
  with_state_trace w (state w) (trace w ++ tr) = add_events tr w.
Proof. reflexivity. Qed.

Lemma shutdown_leak_pass_no_variables w :
  variables (state w) = [] ->
  shutdown_leak_pass X w =
  (Ok tt, add_events (if leak_pass_enabled (state w)
                      then empty_records_warning (state w) else []) w).
Proof.
  intros Hv. destruct (leak_pass_enabled (state w)) eqn:Hen.
  - rewrite shutdown_leak_pass_run; auto; rewrite Hv; simpl.
    + unfold dec_ref_all. simpl. rewrite Hv. simpl. reflexivity.
    + unfold dec_ref_all. simpl. rewrite Hv. reflexivity.
  - unfold shutdown_leak_pass, bind, get_state. rewrite Hen.
    unfold ret, add_events. now rewrite app_nil_r, World_eta.
Qed.

(** C6. [jit_shutdown] is called in a state whose variable map is empty
    and whose CSE cache is not.  Then the call never returns normally.
    When the release of thread states and kernels completes (no driver
    error ends the process before), every entry of the CSE cache is logged
    and the process is terminated by [jit_fail] with the CSE-leak message;
    the only event between the release and these log lines is the warning
    about empty records of an enabled leak pass. *)
Theorem jit_shutdown_cse_leak_is_fatal (light : Z) (w : World) :
  variables (state w) = [] ->
  cse_cache (state w) <> [] ->
  (forall a, fst (jit_shutdown X light w) <> Ok a) /\
  (forall w1,
     (shutdown_release X) w = (Ok tt, w1) ->
     jit_shutdown X light w =
       (Err (Fatal msg_cse_leak []),
        add_events
          ((if leak_pass_enabled (state w)
            then empty_records_warning (state w) else []) ++
           map cse_entry_event (cse_cache (state w))) w1)).
Proof.
  intros Hv Hc.
  assert (Hmain : forall w1,
     (shutdown_release X) w = (Ok tt, w1) ->
     jit_shutdown X light w =
       (Err (Fatal msg_cse_leak []),
        add_events
          ((if leak_pass_enabled (state w)
            then empty_records_warning (state w) else []) ++
           map cse_entry_event (cse_cache (state w))) w1)).
  { intros w1 Hpre.
    destruct (shutdown_prefix_frame X w w1 Hpre)
      as (Hv1 & He1 & Hc1 & Hp1 & Hl1 & Hl2).
    rewrite jit_shutdown_split, (bind_ok _ _ _ _ _ Hpre).
    rewrite (bind_ok _ _ _ _ _ (shutdown_leak_pass_no_variables w1 ltac:(congruence))).
    apply bind_err. rewrite shutdown_cache_checks_cse_leak.
    - unfold add_events. simpl. rewrite <- app_assoc.
      unfold leak_pass_enabled, empty_records_warning.
      now rewrite Hv1, He1, Hc1, Hl1, Hl2.
    - simpl. congruence.
    - simpl. congruence. }
  split; [|exact Hmain].
  intros a. rewrite jit_shutdown_split.
  destruct ((shutdown_release X) w)
    as [[[]|f] w1] eqn:Hpre.
  - rewrite <- jit_shutdown_split, (Hmain w1 eq_refl). discriminate.
  - rewrite (bind_err _ _ _ _ _ Hpre). discriminate.
Qed.

(** The leak pass of a shutdown with one of the two log levels at [Warn]
    or above, once the release of thread states and kernels has
    completed. *)
Lemma jit_shutdown_leak_pass_enabled (light : Z) (w w1 : World) :
  (shutdown_release X) w = (Ok tt, w1) ->
  leak_pass_enabled (state w) = true ->
  let ids := leaked_scatters (variables (state w)) in
  let s2 := dec_ref_all X ids (state w1) in
  len (variables s2) < 2 ^ 32 ->
  exists post,
    trace (snd (jit_shutdown X light w)) =
      trace w1 ++ dec_ref_calls ids ++ leak_report (variables s2) ++ post.
Proof.
  intros Hpre Hen ids s2 Hb.
  destruct (shutdown_prefix_frame X w w1 Hpre)
    as (Hv1 & He1 & Hc1 & Hp1 & Hl1 & Hl2).
  assert (Hen1 : leak_pass_enabled (state w1) = true).
  { unfold leak_pass_enabled in *. now rewrite Hl1, Hl2. }
  rewrite jit_shutdown_split, (bind_ok _ _ _ _ _ Hpre).
  assert (Hleak := shutdown_leak_pass_run X w1 Hen1).
  cbv zeta in Hleak. rewrite Hv1 in Hleak. fold ids in Hleak. fold s2 in Hleak.
  specialize (Hleak Hb).
  rewrite (bind_ok _ _ _ _ _ Hleak).
  set (w2 := with_state_trace w1 s2 _).
  assert (Hext : hoare (on_state_trace (fun _ => extends (trace w2)))
                   (shutdown_cache_checks >> shutdown_backends X light)
                   (fun _ => on_state_trace (fun _ => extends (trace w2)))
                   (fun _ => on_state_trace (fun _ => extends (trace w2)))).
  { apply hs_bind.
    - apply hs_shutdown_cache_checks, extends_grows.
    - intros ?. apply hs_shutdown_backends; auto using extends_grows. }
  specialize (Hext w2 ltac:(exists []; now rewrite app_nil_r)).
  assert (Hfin : extends (trace w2)
            (trace (snd ((shutdown_cache_checks >> shutdown_backends X light) w2)))).
  { destruct ((shutdown_cache_checks >> shutdown_backends X light) w2)
      as [[[]|f] w3]; exact Hext. }
  destruct Hfin as [post Hpost].
  exists (empty_records_warning s2 ++ post).
  rewrite Hpost. subst w2. simpl. now rewrite <- !app_assoc.
Qed.

End Shutdown.

(** Witness of [jit_shutdown_cse_leak_is_fatal]. *)
Lemma jit_shutdown_cse_leak_witness :
  (forall a, fst (jit_shutdown plain_externals 0 stale_cse_world) <> Ok a) /\
  (forall w1,
     shutdown_release plain_externals stale_cse_world = (Ok tt, w1) ->
     jit_shutdown plain_externals 0 stale_cse_world =
       (Err (Fatal msg_cse_leak []),
        add_events
          ((if leak_pass_enabled (state stale_cse_world)
            then empty_records_warning (state stale_cse_world) else []) ++
           map cse_entry_event (cse_cache (state stale_cse_world))) w1)).
Proof.
  apply (jit_shutdown_cse_leak_is_fatal plain_externals 0 stale_cse_world).
  - reflexivity.
  - discriminate.
Defined.

(** The run of that world: one log line for the stale entry, then the
    fatal error. *)
Example jit_shutdown_stale_cse_run :
  fst (jit_shutdown plain_externals 0 stale_cse_world)
    = Err (Fatal msg_cse_leak []) /\
  trace (snd (jit_shutdown plain_externals 0 stale_cse_world))
    = [EvLog Warn msg_cse_entry [ArgI 7; ArgI 1; ArgI 2; ArgI 0; ArgI 0]].
Proof. split; reflexivity. Qed.


(** C2, counterexample.  With both log levels at [Error] the shutdown
    returns without a call of [jit_var_dec_ref_ext] for the scatter variable
    2, whose only reference is external. *)
Lemma jit_shutdown_quiet_skips_leak_pass :
  ~ shutdown_always_runs_leak_pass collecting_externals 0 quiet_leaky_world.
Proof.
  intros H. destruct (H eq_refl) as [Hcalls _].
  specialize (Hcalls 2 (or_introl eq_refl)).
  vm_compute in Hcalls.
  repeat (destruct Hcalls as [Hcalls|Hcalls]; [discriminate|]).
  exact Hcalls.
Qed.

(** * init.cpp: peer access in [jit_init] *)

Section Peer.
Variable X : Externals.
Hypothesis Hok : peer_answers_ok X.

Lemma init_peer_run a b w :
  init_peer X a b w = (Ok tt, add_events (peer_events X (trace w) a b) w).
Proof.
  unfold init_peer, peer_events.
  destruct (dev_id a =? dev_id b).
  - unfold ret, add_events. now rewrite app_nil_r, World_eta.
  - unfold scoped_set_context, scoped, cuda_checked, bind, cuda_call,
      cuda_check, jit_log, emit, ret, set_ctx_stack, jit_fail, fail.
    simpl.
    pose proof (Hok (trace w) (Some (dev_context a))
                  (cuDeviceCanAccessPeer (dev_id a) (dev_id b))) as Hq.
    simpl in Hq. rewrite Hq. simpl.
    unfold peer_ok. 
    destruct (snd (cuda_answer X (trace w) (Some (dev_context a))
                     (cuDeviceCanAccessPeer (dev_id a) (dev_id b))) =? 0) eqn:Hp.
    + simpl. reflexivity.
    + simpl.
      match goal with |- context [cuda_answer X ?h ?c (cuCtxEnablePeerAccess ?p)] =>
        pose proof (Hok h c (cuCtxEnablePeerAccess p)) as He;
        destruct (fst (cuda_answer X h c (cuCtxEnablePeerAccess p))
                    =? CUDA_ERROR_PEER_ACCESS_ALREADY_ENABLED) eqn:Hal
      end.
      * simpl. unfold add_events, peer_query, peer_log, peer_enable. simpl.
        rewrite <- !app_assoc. reflexivity.
      * simpl in He. destruct He as [He|He].
        -- apply Z.eqb_neq in Hal. congruence.
        -- rewrite He. simpl. unfold add_events, peer_query, peer_log, peer_enable.
           simpl. rewrite <- !app_assoc. reflexivity.
Qed.

Lemma init_row_run a bs : forall w,
  for_each bs (fun b => init_peer X a b) w =
  (Ok tt, add_events (row_events X (trace w) a bs) w).
Proof.
  induction bs as [|b bs IH]; intros w.
  - simpl. unfold ret. now rewrite add_events_nil.
  - rewrite for_each_cons, init_peer_run, IH. simpl.
    now rewrite add_events_app.
Qed.

Lemma init_matrix_run l bs : forall w,
  for_each l (fun a => for_each bs (fun b => init_peer X a b)) w =
  (Ok tt, add_events (matrix_events X (trace w) l bs) w).
Proof.
  induction l as [|a l IH]; intros w.
  - simpl. unfold ret. now rewrite add_events_nil.
  - rewrite for_each_cons, init_row_run, IH. simpl.
    now rewrite add_events_app.
Qed.

Lemma init_peer_access_run w :
  init_peer_access X w =
  (Ok tt, add_events (matrix_events X (trace w) (devices (state w))
                        (devices (state w))) w).
Proof.
  unfold init_peer_access, bind, get_state. apply init_matrix_run.
Qed.

(** Every pair of the row occurs in the row's events. *)
Lemma row_events_In a bs : forall h b,
  In b bs ->
  exists t1 t2, row_events X h a bs = t1 ++ peer_events X (h ++ t1) a b ++ t2.
Proof.
  induction bs as [|b0 bs IH]; intros h b Hin; [destruct Hin|].
  destruct Hin as [->|Hin].
  - exists [], (row_events X (h ++ peer_events X h a b) a bs).
    simpl. now rewrite app_nil_r.
  - destruct (IH (h ++ peer_events X h a b0) b Hin) as (t1 & t2 & Ht).
    exists (peer_events X h a b0 ++ t1), t2. simpl. rewrite Ht.
    now rewrite <- !app_assoc.
Qed.

Lemma matrix_events_In l bs : forall h a b,
  In a l -> In b bs ->
  exists t1 t2, matrix_events X h l bs = t1 ++ peer_events X (h ++ t1) a b ++ t2.
Proof.
  induction l as [|a0 l IH]; intros h a b Ha Hb; [destruct Ha|].
  destruct Ha as [->|Ha].
  - destruct (row_events_In a bs h b Hb) as (t1 & t2 & Ht).
    exists t1, (t2 ++ matrix_events X (h ++ row_events X h a bs) l bs).
    simpl. rewrite Ht. now rewrite <- !app_assoc.
  - destruct (IH (h ++ row_events X h a0 bs) a b Ha Hb) as (t1 & t2 & Ht).
    exists (row_events X h a0 bs ++ t1), t2. simpl. rewrite Ht.
    now rewrite <- !app_assoc.
Qed.


(** C7. [jit_init] is called on an uninitialised state and asked for at
    least one backend; the discovery of devices completes, leaving the
    accepted devices in [state.devices]; during the peer-access phase the
    driver's answer to a query passes [cuda_check] and its answer to
    [cuCtxEnablePeerAccess] either passes it or is
    [CUDA_ERROR_PEER_ACCESS_ALREADY_ENABLED].  Then [jit_init] returns
    normally, and for every ordered pair [(a, b)] of accepted devices with
    different ids the events after the discovery contain the query
    [cuDeviceCanAccessPeer(a.id, b.id)] made with [a]'s context current,
    followed, when the driver stored a non-zero [peer_ok], by the log line
    and [cuCtxEnablePeerAccess(b.context)], again with [a]'s context
    current. *)
Theorem jit_init_enables_peer_access (llvm cuda : Z) (w w1 : World) :
  has_llvm (state w) = false ->
  has_cuda (state w) = false ->
  let cuda' := match platform X with Apple => 0 | _ => cuda end in
  (llvm =? 0) && (cuda' =? 0) = false ->
  init_discovery X llvm cuda' w = (Ok tt, w1) ->
  exists w' p2p,
    jit_init X llvm cuda w = (Ok tt, w') /\
    devices (state w') = devices (state w1) /\
    trace w' = trace w1 ++ p2p /\
    forall a b,
      In a (devices (state w')) -> In b (devices (state w')) ->
      dev_id a <> dev_id b ->
      exists t1 t2,
        p2p = t1 ++ peer_query a b :: t2 /\
        (peer_ok X (trace w1 ++ t1) a b <> 0 ->
         exists t3, t2 = peer_log a b :: peer_enable a b :: t3).
Proof.
  intros Hl Hc cuda' Hreq Hdisc. subst cuda'.
  unfold jit_init. cbv zeta. unfold bind at 1, get_state at 1. cbv beta iota.
  rewrite Hl, Hc, Hreq. cbn [orb].
  rewrite (bind_ok _ _ _ _ _ Hdisc).
  rewrite (bind_ok _ _ _ _ _ (init_peer_access_run w1)).
  eexists. exists (matrix_events X (trace w1) (devices (state w1)) (devices (state w1))).
  split; [reflexivity|]. simpl. split; [reflexivity|]. split; [reflexivity|].
  intros a b Ha Hb Hne.
  destruct (matrix_events_In (devices (state w1)) (devices (state w1))
              (trace w1) a b Ha Hb) as (t1 & t2 & Ht).
  unfold peer_events in Ht.
  replace (dev_id a =? dev_id b) with false in Ht
    by (symmetry; apply Z.eqb_neq; exact Hne).
  destruct (peer_ok X (trace w1 ++ t1) a b =? 0) eqn:Hp.
  - exists t1, t2. split; [exact Ht|].
    intros Hnz. apply Z.eqb_eq in Hp. contradiction.
  - exists t1, (peer_log a b :: peer_enable a b :: t2). split; [exact Ht|].
    intros _. exists t2. reflexivity.
Qed.

End Peer.

Lemma peer_externals_ok : peer_answers_ok peer_externals.
Proof.
  intros h cur c. destruct c; simpl; auto.
  destruct cur as [[|[p|p|]|]|]; simpl; auto;
    repeat (destruct p as [p|p|]; simpl; auto).
Qed.

(** Witness of [jit_init_enables_peer_access]: two devices; peer access
    from device 0 to 1 is newly enabled, from 1 to 0 the driver reports
    that it is already enabled, and [jit_init] returns normally. *)
Lemma jit_init_peer_access_witness :
  exists w' p2p,
    jit_init peer_externals 1 1 uninitialised_world = (Ok tt, w') /\
    devices (state w') =
      devices (state (snd (init_discovery peer_externals 1 1 uninitialised_world))) /\
    trace w' =
      trace (snd (init_discovery peer_externals 1 1 uninitialised_world)) ++ p2p /\
    forall a b,
      In a (devices (state w')) -> In b (devices (state w')) ->
      dev_id a <> dev_id b ->
      exists t1 t2,
        p2p = t1 ++ peer_query a b :: t2 /\
        (peer_ok peer_externals
           (trace (snd (init_discovery peer_externals 1 1 uninitialised_world)) ++ t1)
           a b <> 0 ->
         exists t3, t2 = peer_log a b :: peer_enable a b :: t3).
Proof.
  apply (jit_init_enables_peer_access peer_externals peer_externals_ok 1 1
           uninitialised_world
           (snd (init_discovery peer_externals 1 1 uninitialised_world))).
  - reflexivity.
  - reflexivity.
  - reflexivity.
  - vm_compute. reflexivity.
Defined.

(** The events of the peer-access phase in that run. *)
Example jit_init_peer_access_trace :
  let d0 := mkDevice 0 11 1 1 100 [1; 1] [1; 1] in
  let d1 := mkDevice 1 11 1 1 101 [1; 1] [1; 1] in
  fst (jit_init peer_externals 1 1 uninitialised_world) = Ok tt /\
  devices (state (snd (jit_init peer_externals 1 1 uninitialised_world)))
    = [d0; d1] /\
  skipn 37 (trace (snd (jit_init peer_externals 1 1 uninitialised_world)))
    = [peer_query d0 d1; peer_log d0 d1; peer_enable d0 d1;
       peer_query d1 d0; peer_log d1 d0; peer_enable d1 d0].
Proof. vm_compute. repeat split. Qed.

(** * init.cpp: [jit_find_library] *)

Section Find.
Variable X : Externals.

Lemma select_pass_run j paths : forall chosen counter w,
  select_pass X j paths chosen counter w =
  (Ok (fst (select_pass_pure X j paths chosen counter)),
   add_events (snd (select_pass_pure X j paths chosen counter)) w).
Proof.
  induction paths as [|path rest IH]; intros chosen counter w.
  - simpl. unfold ret. now rewrite add_events_nil.
  - simpl. destruct j as [|j].
    + unfold bind at 1. unfold lstat_call, ext_call, bind, emit, ret. simpl.
      fold (add_events [EvCall (call_lstat path)] w).
      destruct (skipped_at_first (lstat X path)).
      * rewrite IH. simpl. now rewrite add_events_app.
      * unfold jit_log, emit. simpl. rewrite IH. simpl.
        unfold add_events. simpl. now rewrite <- !app_assoc.
    + unfold bind at 1, ret at 1. unfold bind, jit_log, emit. simpl.
      rewrite IH. simpl. unfold add_events. simpl. now rewrite <- !app_assoc.
Qed.

Lemma select_candidate_run paths w :
  select_candidate X paths w =
  (Ok (fst (select_candidate_pure X paths)),
   add_events (snd (select_candidate_pure X paths)) w).
Proof.
  unfold select_candidate, select_candidate_pure.
  rewrite (bind_ok _ _ _ _ _ (select_pass_run 0 paths None 1 w)).
  destruct (fst (fst (select_pass_pure X 0 paths None 1))) as [c|]; [reflexivity|].
  rewrite (bind_ok _ _ _ _ _ (select_pass_run 1 paths None _ _)).
  unfold ret. simpl. now rewrite add_events_app.
Qed.

(** The selection makes no call of [dlopen] or [glob]. *)
Lemma select_pass_pure_events j paths : forall chosen counter e,
  In e (snd (select_pass_pure X j paths chosen counter)) ->
  (exists p, e = EvCall (call_lstat p)) \/ (exists n p, e = select_log n p).
Proof.
  induction paths as [|path rest IH]; intros chosen counter e; simpl; [tauto|].
  destruct j as [|j]; [destruct (skipped_at_first (lstat X path))|]; simpl;
    intros H; repeat (destruct H as [<-|H]; [eauto|]); eauto.
Qed.

Lemma select_candidate_pure_events paths e :
  In e (snd (select_candidate_pure X paths)) ->
  (exists p, e = EvCall (call_lstat p)) \/ (exists n p, e = select_log n p).
Proof.
  unfold select_candidate_pure.
  destruct (fst (fst (select_pass_pure X 0 paths None 1))); simpl.
  - apply select_pass_pure_events.
  - intros H. apply in_app_or in H. destruct H as [H|H];
      eapply select_pass_pure_events; eauto.
Qed.

Lemma choose_pure_events fname env_var paths e :
  In e (snd (choose_pure X fname env_var paths)) ->
  forall p, e <> EvCall (call_dlopen p).
Proof.
  unfold choose_pure. destruct (1 <? len paths); simpl; [|tauto].
  intros [<-|H] p; [discriminate|].
  apply in_app_or in H. destruct H as [H|[<-|[]]]; [|discriminate].
  apply select_candidate_pure_events in H.
  destruct H as [[q ->]|(n & q & ->)]; discriminate.
Qed.

Lemma find_library_with_run fname glob_pat env_var env_var_val w :
  find_library_with X fname glob_pat env_var env_var_val w =
  (Ok (fst (find_library_pure X fname glob_pat env_var env_var_val)),
   add_events (snd (find_library_pure X fname glob_pat env_var env_var_val)) w).
Proof.
  unfold find_library_with, find_library_pure.
  set (name := match env_var_val with Some v => v | None => fname end).
  unfold bind at 1, dlopen_call at 1, ext_call, bind, emit, ret. simpl.
  destruct (dlopen X name) as [h|]; [reflexivity|].
  destruct env_var_val as [v|].
  - unfold jit_log, emit. simpl. unfold add_events. simpl.
    now rewrite <- app_assoc.
  - unfold glob_call, ext_call, bind, emit, ret. simpl.
    destruct (glob X glob_pat) as [paths|]; simpl.
    + unfold choose_pure.
      destruct (1 <? len paths).
      * unfold jit_log, emit. simpl.
        match goal with |- context [select_candidate X ?l ?w0] =>
          rewrite (select_candidate_run l w0) end.
        simpl.
        destruct (fst (select_candidate_pure X (std_sort X natural_less paths)))
          as [c|]; simpl.
        -- unfold dlopen_call, ext_call, bind, emit, ret. simpl.
           unfold add_events. simpl. rewrite <- ?app_assoc. simpl.
           rewrite <- ?app_assoc. reflexivity.
        -- unfold add_events. simpl. rewrite <- ?app_assoc. simpl.
           rewrite <- ?app_assoc. reflexivity.
      * destruct paths as [|c [|c' paths]]; simpl;
          unfold dlopen_call, ext_call, bind, emit, ret, add_events; simpl;
          rewrite <- ?app_assoc; reflexivity.
    + unfold add_events. simpl. now rewrite <- app_assoc.
Qed.

Lemma env_override_spec env_var val :
  env_override X env_var = Some val <->
  exists v, env_var = Some v /\ getenv X v = Some val /\ val <> EmptyString.
Proof.
  unfold env_override. split.
  - destruct env_var as [v|]; [|discriminate].
    destruct (getenv X v) as [[|c s]|] eqn:Hg; try discriminate.
    intros H. inversion H; subst. exists v. repeat split; auto.
  - intros (v & -> & Hg & Hne). rewrite Hg.
    destruct val; [congruence|reflexivity].
Qed.

(** C9. [jit_find_library] honours the override and never terminates the
    process.
    - The override is in force exactly when [env_var] is given and the
      variable is set to a non-empty string; an empty value counts as
      unset.
    - With an override in force that path is the only one passed to
      [dlopen]; there is no call of [glob], and the function returns what
      [dlopen] returned, after a warning when that is the null handle.
    - In every case the function returns normally with a handle [h].  A
      non-null [h] was returned by one of the calls of [dlopen] that were
      made; if every call of [dlopen] that was made returned the null
      handle, [h] is the null handle. *)
Theorem jit_find_library_honors_override (fname glob_pat : string)
    (env_var : option string) (w : World) :
  (forall val,
     env_override X env_var = Some val <->
     exists v, env_var = Some v /\ getenv X v = Some val /\ val <> EmptyString) /\
  (forall val,
     env_override X env_var = Some val ->
     jit_find_library X fname glob_pat env_var w =
       (Ok (dlopen X val),
        add_events
          (EvCall (call_dlopen val) ::
           match dlopen X val with
           | Some _ => []
           | None => [EvLog Warn msg_unable_to_load [ArgS val; ArgS (dlerror X)]]
           end) w)) /\
  exists h new,
    jit_find_library X fname glob_pat env_var w = (Ok h, add_events new w) /\
    (forall r, h = Some r ->
       exists path, In (EvCall (call_dlopen path)) new /\ dlopen X path = Some r) /\
    ((forall path, In (EvCall (call_dlopen path)) new -> dlopen X path = None) ->
     h = None).
Proof.
  split; [intros val; apply env_override_spec|]. split.
  - intros val Hval. unfold jit_find_library.
    rewrite find_library_with_run, Hval. unfold find_library_pure.
    destruct (dlopen X val); reflexivity.
  - unfold jit_find_library. rewrite find_library_with_run.
    eexists. eexists. split; [reflexivity|].
    unfold find_library_pure.
    set (name := match env_override X env_var with Some v => v | None => fname end).
    destruct (dlopen X name) as [h|] eqn:Hd; simpl.
    + split.
      * intros r Hr. inversion Hr; subst. exists name. split; [now left|exact Hd].
      * intros Hall. rewrite (Hall name (or_introl eq_refl)) in Hd. discriminate.
    + destruct (env_override X env_var) as [v|]; simpl.
      * split; [discriminate|reflexivity].
      * destruct (glob X glob_pat) as [paths|]; simpl;
          [|split; [discriminate|reflexivity]].
        destruct (fst (choose_pure X fname env_var paths)) as [c|]; simpl;
          [|split; [discriminate|reflexivity]].
        split.
        -- intros r Hr. exists c. split; [|exact Hr].
           right. right. apply in_or_app. right. now left.
        -- intros Hall. apply Hall.
           right. right. apply in_or_app. right. now left.
Qed.

End Find.



Example jit_find_library_override_run :
  jit_find_library override_externals "libLLVM.so" "/usr/lib/libLLVM-*.so"
    (Some "ENOKI_LIBLLVM_PATH") uninitialised_world
  = (Ok (Some 9),
     add_events [EvCall (call_dlopen "/opt/llvm/libLLVM.so")] uninitialised_world).
Proof. reflexivity. Qed.

(** ** The comparator terminates *)

Lemma skip_common_length a : forall b,
  (String.length (fst (skip_common a b)) <= String.length a)%nat.
Proof.
  induction a as [|x a IH]; intros b; simpl; [lia|].
  destruct b as [|y b]; simpl; [lia|].
  destruct ((char_code x =? char_code y) && negb (isdigit x)); simpl; [|lia].
  specialize (IH b). lia.
Qed.

Lemma digits_value_length a : forall acc,
  (String.length (snd (digits_value acc a)) <= String.length a)%nat.
Proof.
  induction a as [|c a IH]; intros acc; simpl; [lia|].
  destruct (isdigit c); simpl; [|lia]. specialize (IH (acc * 10 + (char_code c - 48))). lia.
Qed.

Lemma strtol_consumes a :
  starts_with_digit a = true ->
  (String.length (snd (strtol a)) < String.length a)%nat.
Proof.
  destruct a as [|c a]; simpl; [discriminate|]. intros Hd. rewrite Hd.
  pose proof (digits_value_length a (0 * 10 + (char_code c - 48))). simpl in *. lia.
Qed.

Lemma natural_less_fuel_enough n : forall m a b,
  (String.length a < n)%nat -> (String.length a < m)%nat ->
  natural_less_fuel n a b = natural_less_fuel m a b.
Proof.
  induction n as [|n IH]; intros m a b Hn Hm; [lia|].
  destruct m as [|m]; [lia|]. cbn [natural_less_fuel].
  destruct (starts_with_digit (fst (skip_common a b))) eqn:Ha;
    cbn [andb]; [|reflexivity].
  destruct (starts_with_digit (snd (skip_common a b))); [|reflexivity].
  destruct (negb _); [reflexivity|].
  pose proof (skip_common_length a b). pose proof (strtol_consumes _ Ha).
  apply IH; lia.
Qed.

(** More fuel than [natural_less] uses does not change the result: the
    outer loop always leaves through one of its [return] statements. *)
Lemma natural_less_fuel_stable a b n :
  (String.length a < n)%nat -> natural_less_fuel n a b = natural_less a b.
Proof. intros H. apply natural_less_fuel_enough; [exact H|lia]. Qed.

(** ** The comparator on digit runs that fit an [int] *)

Lemma skip_common_same a : exists s, skip_common a a = (s, s).
Proof.
  induction a as [|x a [s IH]]; simpl; [eexists; reflexivity|].
  rewrite Z.eqb_refl. simpl. destruct (negb (isdigit x)); eauto.
Qed.

Lemma strcmp_same a : strcmp a a = 0.
Proof. induction a as [|x a IH]; simpl; [reflexivity|]. now rewrite Z.eqb_refl. Qed.

Lemma natural_less_fuel_irrefl n : forall a, natural_less_fuel n a a = false.
Proof.
  induction n as [|n IH]; intros a; [reflexivity|]. cbn [natural_less_fuel].
  destruct (skip_common_same a) as [s ->]. cbn [fst snd].
  destruct (starts_with_digit s); cbn [andb].
  - rewrite Z.eqb_refl. cbn [negb]. apply IH.
  - now rewrite strcmp_same.
Qed.

(** No candidate is put before itself. *)
Lemma natural_less_irrefl a : natural_less a a = false.
Proof. apply natural_less_fuel_irrefl. Qed.

(** One iteration of the outer loop of the comparator. *)
Lemma natural_less_unfold a b :
  natural_less a b =
  let a1 := fst (skip_common a b) in
  let b1 := snd (skip_common a b) in
  if starts_with_digit a1 && starts_with_digit b1 then
    let ai := to_int (fst (strtol a1)) in
    let bi := to_int (fst (strtol b1)) in
    if negb (ai =? bi) then ai <? bi
    else natural_less (snd (strtol a1)) (snd (strtol b1))
  else strcmp a1 b1 <? 0.
Proof.
  unfold natural_less at 1. cbn [natural_less_fuel]. cbv zeta.
  destruct (starts_with_digit (fst (skip_common a b))) eqn:Ha;
    cbn [andb]; [|reflexivity].
  destruct (starts_with_digit (snd (skip_common a b))); [|reflexivity].
  destruct (negb _); [reflexivity|].
  apply natural_less_fuel_stable.
  pose proof (skip_common_length a b). pose proof (strtol_consumes _ Ha). lia.
Qed.

Lemma digits_value_nonneg a : forall acc, 0 <= acc -> 0 <= fst (digits_value acc a).
Proof.
  induction a as [|c a IH]; intros acc Hacc; simpl; [exact Hacc|].
  destruct (isdigit c) eqn:Hc; [|exact Hacc]. apply IH.
  unfold isdigit in Hc. apply andb_prop in Hc. destruct Hc as [H1 H2].
  apply Z.leb_le in H1. lia.
Qed.

(** The value of a digit run that fits an [int] is not changed by the
    two conversions. *)
Lemma to_int_strtol_small a :
  fst (digits_value 0 a) < 2 ^ 31 ->
  to_int (fst (strtol a)) = fst (digits_value 0 a).
Proof.
  intros H. pose proof (digits_value_nonneg a 0 (Z.le_refl 0)) as H0.
  unfold strtol, to_int, LONG_MAX. cbn [fst].
  rewrite Z.min_l by lia.
  rewrite Z.mod_small by lia. lia.
Qed.

(** Digit runs compare numerically.  Where two candidates first differ
    in a digit run, and both runs have a value below 2^31, the candidate
    whose run has the smaller value is the lesser one ([a1] and [b1] are
    what is left of the candidates after their common prefix without
    digits). *)
Theorem natural_less_numeric a b :
  let a1 := fst (skip_common a b) in
  let b1 := snd (skip_common a b) in
  starts_with_digit a1 = true -> starts_with_digit b1 = true ->
  fst (digits_value 0 a1) < 2 ^ 31 -> fst (digits_value 0 b1) < 2 ^ 31 ->
  fst (digits_value 0 a1) <> fst (digits_value 0 b1) ->
  natural_less a b = (fst (digits_value 0 a1) <? fst (digits_value 0 b1)).
Proof.
  intros a1 b1 Ha Hb Hsa Hsb Hne. rewrite natural_less_unfold. cbv zeta.
  fold a1 b1. rewrite Ha, Hb. cbn [andb].
  rewrite !to_int_strtol_small by assumption.
  destruct (Z.eqb_spec (fst (digits_value 0 a1)) (fst (digits_value 0 b1)));
    [contradiction|reflexivity].
Qed.

(** Digit runs of the same value below 2^31 are passed over, whatever
    their leading zeros, and the comparison goes on behind them. *)
Theorem natural_less_equal_runs a b :
  let a1 := fst (skip_common a b) in
  let b1 := snd (skip_common a b) in
  starts_with_digit a1 = true -> starts_with_digit b1 = true ->
  fst (digits_value 0 a1) < 2 ^ 31 ->
  fst (digits_value 0 a1) = fst (digits_value 0 b1) ->
  natural_less a b =
  natural_less (snd (digits_value 0 a1)) (snd (digits_value 0 b1)).
Proof.
  intros a1 b1 Ha Hb Hsa Heq. rewrite natural_less_unfold. cbv zeta.
  fold a1 b1. rewrite Ha, Hb. cbn [andb].
  rewrite !to_int_strtol_small by (rewrite <- ?Heq; assumption).
  rewrite Heq, Z.eqb_refl. reflexivity.
Qed.

Lemma strcmp_skip_common a : forall b,
  strcmp (fst (skip_common a b)) (snd (skip_common a b)) = strcmp a b.
Proof.
  induction a as [|x a IH]; intros [|y b]; try reflexivity.
  cbn [skip_common].
  destruct ((char_code x =? char_code y) && negb (isdigit x)) eqn:H;
    [|reflexivity].
  apply andb_prop in H. destruct H as [H _].
  rewrite IH. cbn [strcmp]. now rewrite H.
Qed.

Lemma skip_common_no_digit_l a : forall b,
  no_digit a = true -> starts_with_digit (fst (skip_common a b)) = false.
Proof.
  induction a as [|x a IH]; intros [|y b] H; try reflexivity;
    cbn [no_digit] in H; apply andb_prop in H; destruct H as [Hx Ha].
  - cbn. now apply negb_true_iff.
  - cbn [skip_common].
    destruct ((char_code x =? char_code y) && negb (isdigit x));
      [now apply IH|].
    cbn. now apply negb_true_iff.
Qed.

Lemma skip_common_no_digit_r a : forall b,
  no_digit b = true -> starts_with_digit (snd (skip_common a b)) = false.
Proof.
  induction a as [|x a IH]; intros [|y b] H; try reflexivity;
    cbn [no_digit] in H; apply andb_prop in H; destruct H as [Hy Hb].
  - cbn. now apply negb_true_iff.
  - cbn [skip_common].
    destruct ((char_code x =? char_code y) && negb (isdigit x));
      [now apply IH|].
    cbn. now apply negb_true_iff.
Qed.

(** When one of the two candidates contains no digit, the comparator
    orders them as [strcmp] orders the whole paths: the common prefix that
    the loop skips does not change the sign of [strcmp], and the scan never
    stops in front of two digit runs. *)
Theorem natural_less_lexicographic a b :
  no_digit a = true \/ no_digit b = true ->
  natural_less a b = (strcmp a b <? 0).
Proof.
  intros H. rewrite natural_less_unfold. cbv zeta.
  rewrite strcmp_skip_common.
  destruct H as [H|H].
  - now rewrite (skip_common_no_digit_l a b H).
  - rewrite (skip_common_no_digit_r a b H). now rewrite andb_false_r.
Qed.

Lemma natural_less_numeric_witness :
  natural_less llvm_9 llvm_10 = (9 <? 10).
Proof.
  apply (natural_less_numeric llvm_9 llvm_10);
    [reflexivity | reflexivity | vm_compute; reflexivity
    | vm_compute; reflexivity | vm_compute; discriminate].
Defined.

Lemma natural_less_equal_runs_witness :
  natural_less "libLLVM-09.so" "libLLVM-9.so.1" = natural_less ".so" ".so.1".
Proof.
  apply (natural_less_equal_runs "libLLVM-09.so" "libLLVM-9.so.1");
    [reflexivity | reflexivity | vm_compute; reflexivity | reflexivity].
Defined.

Lemma natural_less_lexicographic_witness :
  natural_less llvm_10 llvm_link = (strcmp llvm_10 llvm_link <? 0).
Proof.
  apply (natural_less_lexicographic llvm_10 llvm_link). right. reflexivity.
Defined.

(** ** The candidate that is opened *)

Section Choice.
Variable X : Externals.

Lemma select_pass_first paths : forall chosen counter,
  fst (fst (select_pass_pure X 0 paths chosen counter)) =
  match last (List.filter (kept_at_first X) paths) with
  | Some c => Some c
  | None => chosen
  end.
Proof.
  induction paths as [|p paths IH]; intros chosen counter; [reflexivity|].
  simpl. unfold kept_at_first at 1.
  destruct (skipped_at_first (lstat X p)); simpl.
  - apply IH.
  - rewrite IH, last_cons.
    destruct (last (List.filter (kept_at_first X) paths)); reflexivity.
Qed.

Lemma select_pass_second paths : forall chosen counter,
  fst (fst (select_pass_pure X 1 paths chosen counter)) =
  match last paths with
  | Some c => Some c
  | None => chosen
  end.
Proof.
  induction paths as [|p paths IH]; intros chosen counter; [reflexivity|].
  simpl. rewrite IH, last_cons. destruct (last paths); reflexivity.
Qed.

(** The two passes choose the last candidate that is not a symbolic link
    (and that [lstat] could examine) when there is one, and the last
    candidate otherwise. *)
Lemma select_candidate_chosen paths :
  fst (select_candidate_pure X paths) =
  match last (List.filter (kept_at_first X) paths) with
  | Some c => Some c
  | None => last paths
  end.
Proof.
  unfold select_candidate_pure. rewrite select_pass_first.
  destruct (last (List.filter (kept_at_first X) paths)) as [c|]; [reflexivity|].
  simpl. rewrite select_pass_second. destruct (last paths); reflexivity.
Qed.

End Choice.

Lemma last_In {A} (l : list A) c : last l = Some c -> In c l.
Proof.
  induction l as [|x l IH]; [discriminate|]. rewrite last_cons.
  destruct (last l) as [y|] eqn:Hl.
  - intros H. right. apply IH. exact H.
  - intros H. inversion H. now left.
Qed.

Lemma sorted_by_last less l c :
  sorted_by less l -> less c c = false -> last l = Some c ->
  forall x, In x l -> less c x = false.
Proof.
  intros Hs Hirr. induction Hs as [|y l Hs IH Hall]; [discriminate|].
  rewrite last_cons. destruct (last l) as [z|] eqn:Hl.
  - intros Hz x [<-|Hx].
    + rewrite List.Forall_forall in Hall. apply Hall. apply last_In. congruence.
    + apply IH; auto.
  - intros Hz x Hx. inversion Hz; subst. apply last_None in Hl. subst l.
    destruct Hx as [<-|[]]. exact Hirr.
Qed.

Lemma sorted_by_filter less f l :
  sorted_by less l -> sorted_by less (List.filter f l).
Proof.
  intros Hs. induction Hs as [|y l Hs IH Hall]; simpl; [constructor|].
  destruct (f y); [|exact IH]. constructor; [exact IH|].
  rewrite List.Forall_forall in *. intros x Hx. apply filter_In in Hx. apply Hall, Hx.
Qed.

Lemma filter_nil_none {A} (f : A -> bool) l :
  List.filter f l = [] -> forall x, In x l -> f x = false.
Proof.
  induction l as [|y l IH]; simpl; [tauto|].
  destruct (f y) eqn:Hy; [discriminate|].
  intros H x [<-|Hx]; auto.
Qed.

(** The candidate that is opened.  The override is not in force, the
    plain name cannot be opened, and [glob] finds more than one candidate;
    [std::sort] returns the candidates in an order that the comparator
    accepts.  Then [jit_find_library] returns what [dlopen] returns for a
    candidate [c] such that
    - [c] is not a symbolic link if any candidate is a regular file, and
    - the comparator puts [c] before no candidate of the kind of [c]:
      before no regular file when [c] is one, before no candidate at all
      when every candidate is a symbolic link. *)
Theorem jit_find_library_opens_last_candidate (X : Externals)
    (fname glob_pat : string) (env_var : option string)
    (paths : list string) (w : World) :
  env_override X env_var = None ->
  dlopen X fname = None ->
  glob X glob_pat = Some paths ->
  (1 < length paths)%nat ->
  Permutation paths (std_sort X natural_less paths) ->
  sorted_by natural_less (std_sort X natural_less paths) ->
  exists c,
    fst (jit_find_library X fname glob_pat env_var w) = Ok (dlopen X c) /\
    In c paths /\
    (forall x, In x paths -> kept_at_first X x = true -> kept_at_first X c = true) /\
    (forall x, In x paths -> kept_at_first X x = kept_at_first X c ->
       natural_less c x = false).
Proof.
  intros He Hd Hg Hlen Hperm Hsorted.
  unfold jit_find_library. rewrite find_library_with_run, He.
  unfold find_library_pure. rewrite Hd, Hg. unfold choose_pure.
  replace (1 <? len paths) with true
    by (symmetry; apply Z.ltb_lt; unfold len; lia).
  cbn [fst snd]. rewrite select_candidate_chosen.
  set (sorted := std_sort X natural_less paths) in *.
  destruct (last (List.filter (kept_at_first X) sorted)) as [c|] eqn:Hl.
  - exists c. pose proof (last_In _ _ Hl) as Hin.
    apply filter_In in Hin. destruct Hin as [Hin Hk].
    split; [reflexivity|]. split.
    + eapply Permutation_in; [symmetry; exact Hperm|exact Hin].
    + split; [intros; exact Hk|]. intros x Hx Hkx.
      apply (sorted_by_last natural_less (List.filter (kept_at_first X) sorted));
        [apply sorted_by_filter; exact Hsorted|apply natural_less_irrefl|exact Hl|].
      apply filter_In. split; [eapply Permutation_in; eauto|congruence].
  - apply last_None in Hl.
    destruct (last sorted) as [c|] eqn:Hs.
    + exists c. pose proof (last_In _ _ Hs) as Hin.
      pose proof (filter_nil_none _ _ Hl) as Hnone.
      split; [reflexivity|]. split.
      * eapply Permutation_in; [symmetry; exact Hperm|exact Hin].
      * split.
        -- intros x Hx Hkx. rewrite Hnone in Hkx; [discriminate|].
           eapply Permutation_in; eauto.
        -- intros x Hx _.
           apply (sorted_by_last natural_less sorted);
             [exact Hsorted|apply natural_less_irrefl|exact Hs|].
           eapply Permutation_in; eauto.
    + apply last_None in Hs. apply Permutation_length in Hperm.
      rewrite Hs in Hperm. simpl in Hperm. lia.
Qed.

Lemma three_candidates_sorted :
  std_sort three_candidates_externals natural_less [llvm_link; llvm_9; llvm_10]
  = [llvm_9; llvm_10; llvm_link].
Proof. vm_compute. reflexivity. Qed.

Lemma jit_find_library_opens_last_candidate_witness :
  exists c,
    fst (jit_find_library three_candidates_externals "libLLVM.so"
           "/usr/lib/libLLVM*.so" (Some "ENOKI_LIBLLVM_PATH") uninitialised_world)
      = Ok (dlopen three_candidates_externals c) /\
    In c [llvm_link; llvm_9; llvm_10] /\
    (forall x, In x [llvm_link; llvm_9; llvm_10] ->
       kept_at_first three_candidates_externals x = true ->
       kept_at_first three_candidates_externals c = true) /\
    (forall x, In x [llvm_link; llvm_9; llvm_10] ->
       kept_at_first three_candidates_externals x
         = kept_at_first three_candidates_externals c ->
       natural_less c x = false).
Proof.
  apply (jit_find_library_opens_last_candidate three_candidates_externals
           "libLLVM.so" "/usr/lib/libLLVM*.so" (Some "ENOKI_LIBLLVM_PATH")
           [llvm_link; llvm_9; llvm_10] uninitialised_world);
    [reflexivity | reflexivity | reflexivity | simpl; lia | | ].
  - rewrite three_candidates_sorted.
    apply (Permutation_cons_append [llvm_9; llvm_10] llvm_link).
  - rewrite three_candidates_sorted. unfold sorted_by.
    repeat first
      [ apply SSorted_nil | apply SSorted_cons | apply List.Forall_nil
      | apply List.Forall_cons; [vm_compute; reflexivity|] ].
Defined.

(** The regular file with the greater version is opened, not the
    symbolic link that sorts last. *)
Example jit_find_library_skips_symbolic_link :
  fst (jit_find_library three_candidates_externals "libLLVM.so"
         "/usr/lib/libLLVM*.so" (Some "ENOKI_LIBLLVM_PATH") uninitialised_world)
  = Ok (dlopen three_candidates_externals llvm_10).
Proof. vm_compute. reflexivity. Qed.

(** ** Versions whose number does not fit an [int] *)

(** C4, failing input.  Two versions of the library are installed, 2 and
    4294967297.  The comparator converts the result of [strtol] to [int],
    so the larger number wraps to 1 and sorts before 2 (whichever correct
    sorting procedure is used, since the comparator puts them in this
    order and not in the other); both candidates are regular files, and
    the function opens version 2. *)
Theorem jit_find_library_opens_smaller_version :
  natural_less llvm_4294967297 llvm_2 = true /\
  natural_less llvm_2 llvm_4294967297 = false /\
  to_int (fst (strtol "4294967297.so")) = 1 /\
  fst (jit_find_library two_versions_externals "libLLVM.so"
         "/usr/lib/libLLVM-*.so" (Some "ENOKI_LIBLLVM_PATH")
         uninitialised_world)
    = Ok (dlopen two_versions_externals llvm_2) /\
  dlopen two_versions_externals llvm_2 = Some 2.
Proof. vm_compute. repeat split. Qed.

(** * llvm_core.cpp: missing capabilities *)

Section LLVMCapabilities.
Variable env : LLVMEnv.

Lemma all_resolved_spec group :
  all_resolved group = true <-> forall sym, In sym group -> sym <> None.
Proof.
  unfold all_resolved. rewrite forallb_forall. split.
  - intros H sym Hin. specialize (H sym Hin). destruct sym; [discriminate|discriminate].
  - intros H sym Hin. specialize (H sym Hin). destruct sym; [reflexivity|congruence].
Qed.

Lemma group_resolved_spec sel st :
  group_resolved sel st = true <->
  exists t, llvm_api st = Some t /\ forall sym, In sym (sel t) -> sym <> None.
Proof.
  unfold group_resolved. destruct (llvm_api st) as [t|].
  - rewrite all_resolved_spec. split; [eauto|]. intros (t' & Ht & H).
    inversion Ht; subst. exact H.
  - split; [discriminate|]. intros (t & Ht & _). discriminate.
Qed.

(** The core group is incomplete: [jitc_llvm_init] releases the API table
    and returns [false]. *)
Theorem jitc_llvm_init_missing_core st t :
  jitc_llvm_init_attempted st = false ->
  api_init_result env = Some t ->
  all_resolved (syms_core t) = false ->
  fst (jitc_llvm_init env st) = false /\
  llvm_api (snd (jitc_llvm_init env st)) = None.
Proof.
  intros Ha Ht Hc. unfold jitc_llvm_init. rewrite Ha, Ht.
  unfold jitc_llvm_api_has_core, group_resolved. simpl. rewrite Ht, Hc. simpl.
  split; reflexivity.
Qed.

(** Both pass-manager groups are incomplete: [jitc_llvm_init] releases
    the API table and returns [false]. *)
Theorem jitc_llvm_init_missing_pass_builder st t :
  jitc_llvm_init_attempted st = false ->
  api_init_result env = Some t ->
  all_resolved (syms_core t) = true ->
  all_resolved (syms_pb_new t) = false ->
  all_resolved (syms_pb_legacy t) = false ->
  fst (jitc_llvm_init env st) = false /\
  llvm_api (snd (jitc_llvm_init env st)) = None.
Proof.
  intros Ha Ht Hc Hn Hl. unfold jitc_llvm_init. rewrite Ha, Ht.
  unfold jitc_llvm_api_has_core, jitc_llvm_api_has_pb_new,
    jitc_llvm_api_has_pb_legacy, group_resolved. simpl.
  rewrite Ht, Hc, Hn, Hl. simpl. split; reflexivity.
Qed.

(** The engines cannot be initialised.  [jitc_llvm_init] returns [false];
    the API table is released, and a later call tries again, exactly when
    a vector width above 1 was found, because [jitc_llvm_shutdown] does
    nothing while [jitc_llvm_init_success] is false. *)
Theorem jitc_llvm_init_engine_failure st t :
  jitc_llvm_init_attempted st = false ->
  reaches_engines env t -> no_engine env t ->
  fst (jitc_llvm_init env st) = false /\
  llvm_api (snd (jitc_llvm_init env st)) =
    (if 1 <? detect_vector_width env (LLVMGetHostCPUFeatures env)
     then None else Some t) /\
  jitc_llvm_init_attempted (snd (jitc_llvm_init env st)) =
    negb (1 <? detect_vector_width env (LLVMGetHostCPUFeatures env)).
Proof.
  intros Ha (Ht & Hc & Hpb & Hfma) (Ho & Hm).
  unfold jitc_llvm_init. rewrite Ha, Ht.
  unfold jitc_llvm_api_has_core, jitc_llvm_api_has_pb_new,
    jitc_llvm_api_has_pb_legacy, jitc_llvm_api_has_orcv2,
    jitc_llvm_api_has_mcjit, group_resolved.
  cbn -[detect_vector_width Z.ltb]. rewrite Ht, Hc. cbn [negb].
  replace (negb (all_resolved (syms_pb_new t)) && negb (all_resolved (syms_pb_legacy t)))
    with false by (destruct Hpb as [-> | ->]; cbn; rewrite ?andb_false_r; reflexivity).
  replace (negb (is_aarch64 env) && negb (found (strstr (LLVMGetHostCPUFeatures env) "+fma")))
    with false by (destruct Hfma as [-> | ->]; cbn; rewrite ?andb_false_r; reflexivity).
  assert (Ho' : all_resolved (syms_orcv2 t) && orcv2_init_result env = false)
    by (destruct Ho as [-> | ->]; rewrite ?andb_false_r; reflexivity).
  assert (Hm' : all_resolved (syms_mcjit t) && mcjit_init_result env = false)
    by (destruct Hm as [-> | ->]; rewrite ?andb_false_r; reflexivity).
  destruct (1 <? detect_vector_width env (LLVMGetHostCPUFeatures env)) eqn:Hw;
    cbn -[detect_vector_width Z.ltb]; rewrite ?Hw;
    unfold jitc_llvm_shutdown; cbn -[detect_vector_width Z.ltb];
    rewrite ?Hw, ?Ht; cbn -[detect_vector_width Z.ltb];
    rewrite ?Hw, ?Ht; cbn -[detect_vector_width Z.ltb];
    rewrite Ho', Hm'; cbn -[detect_vector_width Z.ltb]; rewrite ?Hw;
    cbn; rewrite ?Ht; auto.
Qed.

Lemma jitc_llvm_init_width_one st t :
  jitc_llvm_init_attempted st = false ->
  reaches_engines env t ->
  detect_vector_width env (LLVMGetHostCPUFeatures env) <= 1 ->
  fst (jitc_llvm_init env st) = false /\
  llvm_api (snd (jitc_llvm_init env st)) = Some t /\
  jitc_llvm_init_attempted (snd (jitc_llvm_init env st)) = true /\
  jitc_llvm_init_success (snd (jitc_llvm_init env st)) = false /\
  In (Warn, ("jit_llvm_init(): no suitable vector ISA found, shutting " ++
             "down LLVM backend..")%string)
     (llvm_log (snd (jitc_llvm_init env st))).
Proof.
  intros Ha (Ht & Hc & Hpb & Hfma) Hw. apply Z.ltb_ge in Hw.
  unfold jitc_llvm_init. rewrite Ha, Ht.
  unfold jitc_llvm_api_has_core, jitc_llvm_api_has_pb_new,
    jitc_llvm_api_has_pb_legacy, jitc_llvm_api_has_orcv2,
    jitc_llvm_api_has_mcjit, group_resolved.
  cbn -[detect_vector_width Z.ltb]. rewrite Ht, Hc. cbn [negb].
  replace (negb (all_resolved (syms_pb_new t)) && negb (all_resolved (syms_pb_legacy t)))
    with false by (destruct Hpb as [-> | ->]; cbn; rewrite ?andb_false_r; reflexivity).
  replace (negb (is_aarch64 env) && negb (found (strstr (LLVMGetHostCPUFeatures env) "+fma")))
    with false by (destruct Hfma as [-> | ->]; cbn; rewrite ?andb_false_r; reflexivity).
  cbn -[detect_vector_width Z.ltb]. rewrite ?Hw.
  unfold jitc_llvm_shutdown. cbn -[detect_vector_width Z.ltb]. rewrite ?Hw, ?Ht.
  cbn -[detect_vector_width Z.ltb]. rewrite ?Hw, ?Ht.
  destruct (all_resolved (syms_orcv2 t) && orcv2_init_result env);
    [|destruct (all_resolved (syms_mcjit t) && mcjit_init_result env)];
    cbn -[detect_vector_width Z.ltb]; rewrite ?Hw;
    cbn -[detect_vector_width Z.ltb]; rewrite ?Ht;
    (repeat split; try reflexivity; try assumption);
    apply in_or_app; (try now (right; left));
    left; apply in_or_app; right; now left.
Qed.

Lemma jitc_llvm_init_width_one_engines st t :
  jitc_llvm_init_attempted st = false ->
  reaches_engines env t ->
  detect_vector_width env (LLVMGetHostCPUFeatures env) <= 1 ->
  orcv2_active (snd (jitc_llvm_init env st)) =
    orcv2_usable env t || orcv2_active st /\
  mcjit_active (snd (jitc_llvm_init env st)) =
    (negb (orcv2_usable env t) && mcjit_usable env t) || mcjit_active st /\
  (orcv2_usable env t || mcjit_usable env t = true ->
   jitc_llvm_use_orcv2 (snd (jitc_llvm_init env st)) = orcv2_usable env t) /\
  (orcv2_usable env t || mcjit_usable env t = false ->
   In (Warn, ("jit_llvm_init(): ORCv2/MCJIT could not be initialized, " ++
              "shutting down LLVM backend..")%string)
      (llvm_log (snd (jitc_llvm_init env st)))).
Proof.
  intros Ha (Ht & Hc & Hpb & Hfma) Hw. apply Z.ltb_ge in Hw.
  unfold jitc_llvm_init. rewrite Ha, Ht.
  unfold jitc_llvm_api_has_core, jitc_llvm_api_has_pb_new,
    jitc_llvm_api_has_pb_legacy, jitc_llvm_api_has_orcv2,
    jitc_llvm_api_has_mcjit, group_resolved, orcv2_usable, mcjit_usable.
  cbn -[detect_vector_width Z.ltb]. rewrite Ht, Hc. cbn [negb].
  replace (negb (all_resolved (syms_pb_new t)) && negb (all_resolved (syms_pb_legacy t)))
    with false by (destruct Hpb as [-> | ->]; cbn; rewrite ?andb_false_r; reflexivity).
  replace (negb (is_aarch64 env) && negb (found (strstr (LLVMGetHostCPUFeatures env) "+fma")))
    with false by (destruct Hfma as [-> | ->]; cbn; rewrite ?andb_false_r; reflexivity).
  cbn -[detect_vector_width Z.ltb]. rewrite ?Hw.
  unfold jitc_llvm_shutdown. cbn -[detect_vector_width Z.ltb]. rewrite ?Hw, ?Ht.
  cbn -[detect_vector_width Z.ltb]. rewrite ?Hw, ?Ht.
  destruct (all_resolved (syms_orcv2 t) && orcv2_init_result env);
    [|destruct (all_resolved (syms_mcjit t) && mcjit_init_result env)];
    cbn -[detect_vector_width Z.ltb]; rewrite ?Hw;
    cbn -[detect_vector_width Z.ltb]; rewrite ?Ht;
    (repeat split; try reflexivity; try discriminate).
  intros _. apply in_or_app. right. now left.
Qed.

(** No vector extension is found (vector width 1).  [jitc_llvm_init]
    logs that it shuts the backend down and goes on to the engines all the
    same: ORCv2 is initialised when it can be, MCJIT when ORCv2 cannot and
    MCJIT can, and an engine that was initialised is left running and
    recorded in [jitc_llvm_use_orcv2]; when neither can be initialised
    this is logged.  In every case [jitc_llvm_init] returns [false] with
    the API table still loaded, and later calls return [false] at once. *)
Theorem jitc_llvm_init_without_vector_isa st t :
  jitc_llvm_init_attempted st = false ->
  reaches_engines env t ->
  detect_vector_width env (LLVMGetHostCPUFeatures env) <= 1 ->
  fst (jitc_llvm_init env st) = false /\
  llvm_api (snd (jitc_llvm_init env st)) = Some t /\
  jitc_llvm_init_attempted (snd (jitc_llvm_init env st)) = true /\
  In (Warn, ("jit_llvm_init(): no suitable vector ISA found, shutting " ++
             "down LLVM backend..")%string)
     (llvm_log (snd (jitc_llvm_init env st))) /\
  orcv2_active (snd (jitc_llvm_init env st)) =
    orcv2_usable env t || orcv2_active st /\
  mcjit_active (snd (jitc_llvm_init env st)) =
    (negb (orcv2_usable env t) && mcjit_usable env t) || mcjit_active st /\
  (orcv2_usable env t || mcjit_usable env t = true ->
   jitc_llvm_use_orcv2 (snd (jitc_llvm_init env st)) = orcv2_usable env t) /\
  (orcv2_usable env t || mcjit_usable env t = false ->
   In (Warn, ("jit_llvm_init(): ORCv2/MCJIT could not be initialized, " ++
              "shutting down LLVM backend..")%string)
      (llvm_log (snd (jitc_llvm_init env st)))) /\
  jitc_llvm_init env (snd (jitc_llvm_init env st)) =
    (false, snd (jitc_llvm_init env st)).
Proof.
  intros Ha Hr Hw.
  destruct (jitc_llvm_init_width_one st t Ha Hr Hw) as (H1 & H2 & H3 & H4 & H5).
  destruct (jitc_llvm_init_width_one_engines st t Ha Hr Hw)
    as (E1 & E2 & E3 & E4).
  repeat split; try assumption.
  unfold jitc_llvm_init at 1. rewrite H3, H4. reflexivity.
Qed.

End LLVMCapabilities.

(** Modelled from the spec: the predicates are defined outside the
    sources at hand.  Each capability predicate is true exactly when the
    API table is loaded and every symbol of its group resolved. *)
Theorem jitc_llvm_api_predicates_all_symbols (st : LLVMState) :
  let resolved sel :=
    exists t, llvm_api st = Some t /\ forall sym, In sym (sel t) -> sym <> None in
  (jitc_llvm_api_has_core st = true <-> resolved syms_core) /\
  (jitc_llvm_api_has_pb_new st = true <-> resolved syms_pb_new) /\
  (jitc_llvm_api_has_pb_legacy st = true <-> resolved syms_pb_legacy) /\
  (jitc_llvm_api_has_orcv2 st = true <-> resolved syms_orcv2) /\
  (jitc_llvm_api_has_mcjit st = true <-> resolved syms_mcjit).
Proof. cbv zeta. repeat split; apply group_resolved_spec. Qed.

Lemma jitc_llvm_init_missing_core_witness :
  fst (jitc_llvm_init (x86_64_linux_with api_without_core) LLVMState_initial) = false /\
  llvm_api (snd (jitc_llvm_init (x86_64_linux_with api_without_core) LLVMState_initial))
    = None.
Proof.
  apply (jitc_llvm_init_missing_core (x86_64_linux_with api_without_core)
           LLVMState_initial api_without_core); reflexivity.
Defined.

Lemma jitc_llvm_init_missing_pass_builder_witness :
  fst (jitc_llvm_init (x86_64_linux_with api_without_pass_manager)
         LLVMState_initial) = false /\
  llvm_api (snd (jitc_llvm_init (x86_64_linux_with api_without_pass_manager)
                   LLVMState_initial)) = None.
Proof.
  apply (jitc_llvm_init_missing_pass_builder
           (x86_64_linux_with api_without_pass_manager)
           LLVMState_initial api_without_pass_manager); reflexivity.
Defined.

Lemma jitc_llvm_init_engine_failure_witness :
  fst (jitc_llvm_init x86_64_linux LLVMState_initial) = false /\
  llvm_api (snd (jitc_llvm_init x86_64_linux LLVMState_initial)) =
    (if 1 <? detect_vector_width x86_64_linux (LLVMGetHostCPUFeatures x86_64_linux)
     then None else Some api_without_engine) /\
  jitc_llvm_init_attempted (snd (jitc_llvm_init x86_64_linux LLVMState_initial)) =
    negb (1 <? detect_vector_width x86_64_linux (LLVMGetHostCPUFeatures x86_64_linux)).
Proof.
  apply (jitc_llvm_init_engine_failure x86_64_linux LLVMState_initial
           api_without_engine);
    [ reflexivity
    | repeat split; [right; reflexivity | right; reflexivity]
    | split; left; reflexivity ].
Defined.

Lemma jitc_llvm_init_without_vector_isa_witness :
  fst (jitc_llvm_init aarch64_linux_complete LLVMState_initial) = false /\
  llvm_api (snd (jitc_llvm_init aarch64_linux_complete LLVMState_initial))
    = Some api_complete /\
  jitc_llvm_init_attempted (snd (jitc_llvm_init aarch64_linux_complete LLVMState_initial))
    = true /\
  In (Warn, ("jit_llvm_init(): no suitable vector ISA found, shutting " ++
             "down LLVM backend..")%string)
     (llvm_log (snd (jitc_llvm_init aarch64_linux_complete LLVMState_initial))) /\
  orcv2_active (snd (jitc_llvm_init aarch64_linux_complete LLVMState_initial)) =
    orcv2_usable aarch64_linux_complete api_complete
    || orcv2_active LLVMState_initial /\
  mcjit_active (snd (jitc_llvm_init aarch64_linux_complete LLVMState_initial)) =
    (negb (orcv2_usable aarch64_linux_complete api_complete)
     && mcjit_usable aarch64_linux_complete api_complete)
    || mcjit_active LLVMState_initial /\
  (orcv2_usable aarch64_linux_complete api_complete
   || mcjit_usable aarch64_linux_complete api_complete = true ->
   jitc_llvm_use_orcv2 (snd (jitc_llvm_init aarch64_linux_complete LLVMState_initial))
     = orcv2_usable aarch64_linux_complete api_complete) /\
  (orcv2_usable aarch64_linux_complete api_complete
   || mcjit_usable aarch64_linux_complete api_complete = false ->
   In (Warn, ("jit_llvm_init(): ORCv2/MCJIT could not be initialized, " ++
              "shutting down LLVM backend..")%string)
      (llvm_log (snd (jitc_llvm_init aarch64_linux_complete LLVMState_initial)))) /\
  jitc_llvm_init aarch64_linux_complete
    (snd (jitc_llvm_init aarch64_linux_complete LLVMState_initial)) =
    (false, snd (jitc_llvm_init aarch64_linux_complete LLVMState_initial)).
Proof.
  apply (jitc_llvm_init_without_vector_isa aarch64_linux_complete
           LLVMState_initial api_complete);
    [ reflexivity
    | repeat split; [left; reflexivity | left; reflexivity]
    | vm_compute; discriminate ].
Defined.

(** On the ARM machine a complete library has its ORCv2 engine
    initialised, and the backend is reported as unavailable all the
    same. *)
Example jitc_llvm_init_aarch64_engine_left_running :
  fst (jitc_llvm_init aarch64_linux_complete LLVMState_initial) = false /\
  orcv2_active (snd (jitc_llvm_init aarch64_linux_complete LLVMState_initial)) = true.
Proof. vm_compute. split; reflexivity. Qed.

(** C8, failing input.  On a Linux machine with an ARM processor no vector
    extension is recognised, so [jitc_llvm_init_success] is false when the
    engines are tried.  With a library that offers neither ORCv2 nor MCJIT,
    [jitc_llvm_init] logs that it shuts the backend down and returns
    [false], but [jitc_llvm_shutdown] returns at once because
    [jitc_llvm_init_success] is false: the API table stays loaded, the
    target strings stay allocated, and [jitc_llvm_init_attempted] stays
    set. *)
Theorem jitc_llvm_init_leaves_api_table_loaded :
  jitc_llvm_api_has_orcv2
    (snd (jitc_llvm_init aarch64_linux LLVMState_initial)) = false /\
  jitc_llvm_api_has_mcjit
    (snd (jitc_llvm_init aarch64_linux LLVMState_initial)) = false /\
  fst (jitc_llvm_init aarch64_linux LLVMState_initial) = false /\
  llvm_api (snd (jitc_llvm_init aarch64_linux LLVMState_initial))
    = Some api_without_engine /\
  jitc_llvm_target_features (snd (jitc_llvm_init aarch64_linux LLVMState_initial))
    = Some "+neon,+fp-armv8,+crc" /\
  jitc_llvm_init_attempted (snd (jitc_llvm_init aarch64_linux LLVMState_initial))
    = true.
Proof. vm_compute. repeat split. Qed.

(** With a vector extension the same library leads to a complete
    shutdown. *)
Example jitc_llvm_init_x86_releases_api_table :
  fst (jitc_llvm_init x86_64_linux LLVMState_initial) = false /\
  llvm_api (snd (jitc_llvm_init x86_64_linux LLVMState_initial)) = None /\
  jitc_llvm_init_attempted (snd (jitc_llvm_init x86_64_linux LLVMState_initial))
    = false.
Proof. vm_compute. repeat split. Qed.

(** * Further properties of the code *)

(** Case analysis on the branches of a run. *)
Ltac run_cases :=
  repeat match goal with
  | |- context [match ?x with _ => _ end] =>
      match type of x with
      | option _ => destruct x eqn:?
      | bool => destruct x eqn:?
      | list _ => destruct x eqn:?
      | _ => fail 1
      end; simpl
  | |- context [if ?x then _ else _] => destruct x eqn:?; simpl
  end.

(** ** init.cpp: thread states and the choice of a device *)

Section DeviceSelectionFacts.
Variable X : Externals.

Lemma cuda_checked_run c w :
  cuda_check_passes X (fst (cuda_answer X (trace w) (head (ctx_stack w)) c)) = true ->
  cuda_checked X c w =
  (Ok (snd (cuda_answer X (trace w) (head (ctx_stack w)) c)),
   add_events [EvCuda (head (ctx_stack w)) c] w).
Proof.
  intros H. unfold cuda_checked, cuda_call, cuda_check, bind. simpl.
  rewrite H. reflexivity.
Qed.

Lemma thread_state_present (cuda : bool) p w :
  (if cuda then thread_state_cuda w else thread_state_llvm w) = Some p ->
  thread_state X cuda w = (Ok p, w).
Proof.
  intros H. unfold thread_state, bind, get_thread_state_cuda,
    get_thread_state_llvm. destruct cuda; simpl; rewrite H; reflexivity.
Qed.

Lemma load_run p t w : heap w !! p = Some t -> load p w = (Ok t, w).
Proof. intros H. unfold load, bind, get_heap, ret. simpl. now rewrite H. Qed.

Lemma size_t_out_of_range device n :
  - 2 ^ 31 <= device < 2 ^ 31 -> 0 <= n < 2 ^ 31 ->
  (n <=? size_t device) = (device <? 0) || (n <=? device).
Proof.
  intros Hd Hn. unfold size_t.
  destruct (Z.ltb_spec device 0).
  - simpl. apply Z.leb_le.
    replace (device mod 2 ^ 64) with (device + 2 ^ 64)
      by (apply Z.mod_unique with (q := -1); lia).
    lia.
  - simpl. rewrite Z.mod_small by lia. reflexivity.
Qed.

Lemma to_int_small n : - 2 ^ 31 <= n < 2 ^ 31 -> to_int n = n.
Proof. intros H. unfold to_int. rewrite Z.mod_small by lia. lia. Qed.

(** A device index that is negative, or not below the number of devices,
    is refused.  When the calling thread has a CUDA thread state that is on
    another device, [jit_cuda_set_device] raises the range error, whose
    second argument is the last valid index, and changes nothing: no event
    is recorded and the driver is not called. *)
Theorem jit_cuda_set_device_out_of_range (device : Z) (p : ptr)
    (t : ThreadState) (w : World) :
  - 2 ^ 31 <= device < 2 ^ 31 ->
  len (devices (state w)) < 2 ^ 31 ->
  thread_state_cuda w = Some p -> heap w !! p = Some t ->
  ts_device t <> device ->
  device < 0 \/ len (devices (state w)) <= device ->
  jit_cuda_set_device X device w =
  (Err (Raised msg_set_device_range
          [ArgI device; ArgI (len (devices (state w)) - 1)]), w).
Proof.
  intros Hd Hn Hp Ht Hne Hr. unfold jit_cuda_set_device.
  rewrite (bind_ok _ _ _ _ _ (thread_state_present true p w Hp)).
  rewrite (bind_ok _ _ _ _ _ (load_run p t w Ht)).
  apply Z.eqb_neq in Hne. rewrite Hne.
  unfold bind at 1, get_state at 1.
  assert (Hlen : 0 <= len (devices (state w))) by (unfold len; lia).
  rewrite size_t_out_of_range by lia.
  replace ((device <? 0) || (len (devices (state w)) <=? device)) with true
    by (symmetry; apply orb_true_iff; destruct Hr;
        [left; now apply Z.ltb_lt|right; now apply Z.leb_le]).
  rewrite to_int_small by lia. reflexivity.
Qed.

(** A switch to another device of the list, with a driver that reports no
    error.  Under the old context the stream is synchronized, then the event
    and the stream are destroyed; under the context of the new device a
    stream and an event are created, in this order.  Afterwards the thread
    state holds the new device, its context and the new stream and event,
    its task and mask are unchanged, and [jit_cuda_context] and
    [jit_cuda_stream] return the new context and the new stream. *)
Theorem jit_cuda_set_device_switches (device : Z) (p : ptr)
    (t : ThreadState) (d : Device) (w : World) :
  driver_ok X ->
  thread_state_cuda w = Some p -> heap w !! p = Some t ->
  ts_device t <> device ->
  0 <= device < 2 ^ 31 ->
  nth_error (devices (state w)) (Z.to_nat device) = Some d ->
  let h := trace w ++ firstn 4 (switch_events t d device) in
  let stream := snd (cuda_answer X h (Some (dev_context d)) cuStreamCreate) in
  let event :=
    snd (cuda_answer X (h ++ [EvCuda (Some (dev_context d)) cuStreamCreate])
           (Some (dev_context d)) cuEventCreate) in
  let w' := with_heap_trace w
              (<[p := switched_thread_state t d device stream event]> (heap w))
              (trace w ++ switch_events t d device) in
  jit_cuda_set_device X device w = (Ok tt, w') /\
  jit_cuda_context X w' = (Ok (dev_context d), w') /\
  jit_cuda_stream X w' = (Ok stream, w').
Proof.
  intros Hok Hp Ht Hne Hd Hnth.
  assert (Hlen : (Z.to_nat device < length (devices (state w)))%nat)
    by (apply nth_error_Some; congruence).
  cbv zeta. split; [|split].
  - unfold jit_cuda_set_device.
    rewrite (bind_ok _ _ _ _ _ (thread_state_present true p w Hp)).
    rewrite (bind_ok _ _ _ _ _ (load_run p t w Ht)).
    apply Z.eqb_neq in Hne. rewrite Hne.
    unfold bind at 1, get_state at 1.
    replace (len (devices (state w)) <=? size_t device) with false
      by (symmetry; apply Z.leb_gt; unfold size_t, len;
          rewrite Z.mod_small by lia; lia).
    rewrite Hnth.
    unfold scoped_set_context, scoped, cuda_checked, cuda_call, cuda_check,
      jit_log, emit, load, store, get_heap, set_heap, set_ctx_stack, bind, ret.
    repeat (progress (simpl; rewrite ?Ht, ?Hok, ?lookup_insert_eq)).
    simpl. rewrite !insert_insert_eq.
    unfold with_heap_trace, switched_thread_state, switch_events,
      set_ts_event, set_ts_stream, set_ts_context_device. simpl.
    rewrite <- !app_assoc. simpl. reflexivity.
  - unfold jit_cuda_context.
    erewrite bind_ok by (apply thread_state_present; exact Hp).
    erewrite bind_ok by (apply load_run; simpl; apply lookup_insert_eq).
    reflexivity.
  - unfold jit_cuda_stream.
    erewrite bind_ok by (apply thread_state_present; exact Hp).
    erewrite bind_ok by (apply load_run; simpl; apply lookup_insert_eq).
    reflexivity.
Qed.

Lemma jit_init_thread_state_cuda_pointer w :
  match jit_init_thread_state X true w with
  | (Ok p, w') => thread_state_cuda w' = Some p /\ is_Some (heap w' !! p)
  | (Err _, _) => True
  end.
Proof.
  unfold jit_init_thread_state, new_ThreadState, delete_ThreadState,
    scoped_set_context, scoped, cuda_checked, cuda_call, cuda_check,
    modify_state, get_state, set_state, set_thread_state_cuda,
    jit_raise, jit_fail, fail,
    jit_log, emit, load, store, get_heap, set_heap, set_ctx_stack, bind, ret.
  simpl.
  repeat (progress (run_cases; rewrite ?lookup_insert_eq; simpl)); auto.
  all: try (split; [reflexivity|eauto]).
Qed.

Lemma thread_state_cuda_pointer w :
  match thread_state X true w with
  | (Ok p, w') => thread_state_cuda w' = Some p
  | (Err _, _) => True
  end.
Proof.
  unfold thread_state, bind, get_thread_state_cuda. simpl.
  destruct (thread_state_cuda w) as [p|] eqn:Hp; [exact Hp|].
  pose proof (jit_init_thread_state_cuda_pointer w) as H.
  destruct (jit_init_thread_state X true w) as [[p|f] w']; [apply H|exact I].
Qed.

Lemma jit_cuda_set_device_post device w :
  match jit_cuda_set_device X device w with
  | (Ok _, w') =>
      exists p t, thread_state_cuda w' = Some p /\ heap w' !! p = Some t /\
                  ts_device t = device
  | (Err _, _) => True
  end.
Proof.
  unfold jit_cuda_set_device. unfold bind at 1.
  pose proof (thread_state_cuda_pointer w) as Hp.
  destruct (thread_state X true w) as [[p|f] w1]; [|exact I].
  unfold scoped_set_context, scoped, cuda_checked, cuda_call, cuda_check,
    get_state, jit_raise, jit_fail, fail,
    jit_log, emit, load, store, get_heap, set_heap, set_ctx_stack, bind, ret.
  simpl.
  repeat (progress (run_cases; rewrite ?lookup_insert_eq; simpl)); auto.
  all: try (eexists; eexists; split; [eassumption|]; split;
            [first [eassumption | apply lookup_insert_eq]|]).
  all: try (simpl; lia).
  repeat match goal with
  | H : <[_:=_]> _ !! _ = Some _ |- _ => rewrite lookup_insert_eq in H
  end.
  repeat match goal with
  | H : Some _ = Some _ |- _ => injection H as H; try subst
  end.
  reflexivity.
Qed.

(** Selecting the same device twice in a row is the same as selecting it
    once: the second call returns at once, whatever the first one did (and
    is not reached when the first one fails). *)
Theorem jit_cuda_set_device_idempotent (device : Z) (w : World) :
  (jit_cuda_set_device X device >> jit_cuda_set_device X device) w =
  jit_cuda_set_device X device w.
Proof.
  pose proof (jit_cuda_set_device_post device w) as H. unfold bind at 1.
  destruct (jit_cuda_set_device X device w) as [[[]|f] w']; [|reflexivity].
  destruct H as (p & t & Hp & Ht & Hd).
  unfold jit_cuda_set_device.
  rewrite (bind_ok _ _ _ _ _ (thread_state_present true p w' Hp)).
  rewrite (bind_ok _ _ _ _ _ (load_run p t w' Ht)).
  apply Z.eqb_eq in Hd. now rewrite Hd.
Qed.

(** A CUDA thread state is created: a fresh object, on the first device,
    with a stream and an event of its own, registered last in [state.tss]
    and made the calling thread's CUDA thread state. *)
Theorem jit_init_thread_state_cuda_registers (w : World) (d0 : Device)
    (ds : list Device) :
  driver_ok X ->
  has_cuda (state w) = true ->
  devices (state w) = d0 :: ds ->
  let p := fresh (dom (heap w)) in
  let ctx := dev_context d0 in
  let h := trace w ++ [EvNew p] in
  let stream := snd (cuda_answer X h (Some ctx) cuStreamCreate) in
  let event :=
    snd (cuda_answer X (h ++ [EvCuda (Some ctx) cuStreamCreate]) (Some ctx)
           cuEventCreate) in
  heap w !! p = None /\
  jit_init_thread_state X true w =
  (Ok p,
   mkWorld (with_tss (tss (state w) ++ [p]) (state w))
     (<[p := mkThreadState true ctx stream event 0 None []]> (heap w))
     (Some p) (thread_state_llvm w) (jit_temp_path w) (ctx_stack w)
     (h ++ [EvCuda (Some ctx) cuStreamCreate; EvCuda (Some ctx) cuEventCreate])).
Proof.
  intros Hok Hc Hd. cbv zeta. split; [apply not_elem_of_dom, is_fresh|].
  unfold jit_init_thread_state, new_ThreadState, delete_ThreadState,
    scoped_set_context, scoped, cuda_checked, cuda_call, cuda_check,
    modify_state, get_state, set_state, set_thread_state_cuda,
    jit_raise, jit_fail, fail,
    jit_log, emit, load, store, get_heap, set_heap, set_ctx_stack, bind, ret.
  simpl. rewrite Hc, Hd. simpl.
  repeat (progress (simpl; rewrite ?Hok, ?lookup_insert_eq)).
  simpl. rewrite !insert_insert_eq. rewrite <- !app_assoc. reflexivity.
Qed.

(** An LLVM thread state is created: a fresh object with device [-1],
    registered last in [state.tss] and made the calling thread's LLVM
    thread state; the driver is not called. *)
Theorem jit_init_thread_state_llvm_registers (w : World) :
  has_llvm (state w) = true ->
  let p := fresh (dom (heap w)) in
  heap w !! p = None /\
  jit_init_thread_state X false w =
  (Ok p,
   mkWorld (with_tss (tss (state w) ++ [p]) (state w))
     (<[p := mkThreadState false 0 0 0 (-1) None []]> (heap w))
     (thread_state_cuda w) (Some p) (jit_temp_path w) (ctx_stack w)
     (trace w ++ [EvNew p])).
Proof.
  intros Hl. cbv zeta. split; [apply not_elem_of_dom, is_fresh|].
  unfold jit_init_thread_state, new_ThreadState, delete_ThreadState,
    modify_state, get_state, set_state, set_thread_state_llvm,
    jit_raise, jit_fail, fail,
    jit_log, emit, load, store, get_heap, set_heap, set_ctx_stack, bind, ret.
  simpl. rewrite Hl. simpl.
  repeat (progress (simpl; rewrite ?lookup_insert_eq)).
  simpl. rewrite !insert_insert_eq. reflexivity.
Qed.

(** The CUDA backend is active but no device was accepted: the error is
    raised after the new thread state has been deleted, and nothing else
    has happened. *)
Theorem jit_init_thread_state_no_devices (w : World) :
  has_cuda (state w) = true ->
  devices (state w) = [] ->
  let p := fresh (dom (heap w)) in
  jit_init_thread_state X true w =
  (Err (Raised msg_no_devices []), add_events [EvNew p; EvDelete p] w).
Proof.
  intros Hc Hd. cbv zeta.
  unfold jit_init_thread_state, new_ThreadState, delete_ThreadState, bind,
    get_heap, get_state, emit, set_heap, ret, jit_raise, fail.
  simpl. rewrite Hc, Hd. simpl. rewrite lookup_insert_eq. simpl.
  rewrite delete_insert_id by (apply not_elem_of_dom, is_fresh).
  unfold add_events. now rewrite <- app_assoc.
Qed.
End DeviceSelectionFacts.

(** ** init.cpp: [jit_sync_all_devices] and [jit_sync_thread] *)

Section SyncAll.
Variable X : Externals.
Hypothesis Hok : driver_ok X.

Lemma sync_thread_ts_run p t w :
  heap w !! p = Some t ->
  jit_sync_thread_ts X (Some p) w =
  (Ok tt, with_heap_trace w
            (if ts_cuda t then heap w else <[p := clear_task t]> (heap w))
            (trace w ++ [sync_event t])).
Proof.
  intros Ht. unfold jit_sync_thread_ts, sync_event, load, store,
    get_heap, task_wait_and_release, emit, set_heap,
    scoped_set_context, scoped, cuda_checked, cuda_call, cuda_check,
    set_ctx_stack, bind, ret.
  simpl. rewrite Ht. simpl.
  destruct (ts_cuda t) eqn:Hc; repeat (rewrite ?Hc, ?Ht, ?Hok; simpl);
    unfold with_heap_trace, clear_task; rewrite ?Hc; reflexivity.
Qed.

Lemma sync_loop_run l : forall w,
  (forall p, In p l -> is_Some (heap w !! p)) ->
  for_each l (fun p => jit_sync_thread_ts X (Some p)) w
  = (Ok tt, with_heap_trace w (cpu_sync_heap l (heap w))
                            (trace w ++ sync_events l (heap w))).
Proof.
  induction l as [|p l IH]; intros w Hv.
  - simpl. unfold ret, with_heap_trace. now rewrite app_nil_r, World_eta.
  - destruct (Hv p (or_introl eq_refl)) as [t Ht].
    rewrite for_each_cons, (sync_thread_ts_run p t w Ht). simpl. rewrite Ht.
    rewrite IH.
    + unfold with_heap_trace. simpl. rewrite <- app_assoc.
      destruct (ts_cuda t); reflexivity.
    + simpl. intros q Hq. destruct (ts_cuda t); [apply Hv; now right|].
      destruct (decide (q = p)) as [->|Hne].
      * rewrite lookup_insert_eq. eauto.
      * rewrite lookup_insert_ne by congruence. apply Hv. now right.
Qed.

(** [jit_sync_thread(ts)] never changes a CUDA thread state. *)
Lemma cpu_sync_heap_cuda l : forall h p t,
  h !! p = Some t -> ts_cuda t = true -> cpu_sync_heap l h !! p = Some t.
Proof.
  induction l as [|q l IH]; intros h p t Hp Hc; simpl; [exact Hp|].
  destruct (h !! q) as [tq|] eqn:Hq; [|exact Hp].
  destruct (ts_cuda tq) eqn:Hcq; [now apply IH|].
  apply IH; auto. rewrite lookup_insert_ne; [exact Hp|].
  intros ->. congruence.
Qed.

(** Thread states outside the list are left alone. *)
Lemma cpu_sync_heap_other l : forall h p,
  ~ In p l -> cpu_sync_heap l h !! p = h !! p.
Proof.
  induction l as [|q l IH]; intros h p Hn; simpl; [reflexivity|].
  destruct (h !! q) as [tq|] eqn:Hq; [|reflexivity].
  destruct (ts_cuda tq); rewrite IH by (intros H; apply Hn; now right);
    [reflexivity|].
  apply lookup_insert_ne. intros ->. apply Hn. now left.
Qed.

Lemma sync_events_In l : forall h p t,
  (forall q, In q l -> is_Some (h !! q)) ->
  In p l -> h !! p = Some t ->
  In (sync_event t) (sync_events l h).
Proof.
  induction l as [|q l IH]; intros h p t Hv Hin Hp; [destruct Hin|].
  simpl. destruct (Hv q (or_introl eq_refl)) as [tq Hq]. rewrite Hq.
  destruct (decide (p = q)) as [->|Hne].
  - rewrite Hq in Hp. inversion Hp; subst tq. now left.
  - destruct Hin as [Heq|Hin]; [congruence|]. right.
    apply (IH _ p t); auto.
    + intros r Hr. destruct (ts_cuda tq); [apply Hv; now right|].
      destruct (decide (r = q)) as [->|Hrq].
      * rewrite lookup_insert_eq. eauto.
      * rewrite lookup_insert_ne by congruence. apply Hv. now right.
    + destruct (ts_cuda tq); [exact Hp|].
      rewrite lookup_insert_ne by congruence. exact Hp.
Qed.

(** What a run of [jit_sync_thread(ts)] over the live thread states [l]
    achieves. *)
Lemma sync_loop_spec l h :
  (forall q, In q l -> is_Some (h !! q)) ->
  (forall p t, In p l -> h !! p = Some t ->
     In (sync_event t) (sync_events l h) /\
     cpu_sync_heap l h !! p = Some (if ts_cuda t then t else clear_task t)) /\
  (forall p, ~ In p l -> cpu_sync_heap l h !! p = h !! p).
Proof.
  intros Hv. split; [|intros p Hp; now apply cpu_sync_heap_other].
  intros p t Hin Hp. split; [now apply (sync_events_In l h p t)|].
  destruct (ts_cuda t) eqn:Hc.
  - now apply cpu_sync_heap_cuda.
  - now apply (cpu_sync_spec l h p t).
Qed.

(** [jit_sync_all_devices], called with the mutex held and a driver that
    reports no error, returns.  It copies [state.tss], releases the mutex,
    waits for every registered thread state in order (a stream
    synchronization under its context for a CUDA thread state, a wait for
    the task of a CPU thread state, whose task is then reset) and takes the
    mutex again.  The global state is unchanged, and so is every thread
    state outside [state.tss]. *)
Theorem jit_sync_all_devices_waits_for_all (w : World) :
  mutex_locked (state w) = true ->
  (forall p, In p (tss (state w)) -> is_Some (heap w !! p)) ->
  exists w',
    jit_sync_all_devices X w = (Ok tt, w') /\
    trace w' =
      trace w ++ [EvSnapshot (tss (state w)); EvUnlock] ++
      sync_events (tss (state w)) (heap w) ++ [EvLock] /\
    state w' = state w /\
    (forall p t, In p (tss (state w)) -> heap w !! p = Some t ->
       In (sync_event t) (sync_events (tss (state w)) (heap w)) /\
       heap w' !! p = Some (if ts_cuda t then t else clear_task t)) /\
    (forall p, ~ In p (tss (state w)) -> heap w' !! p = heap w !! p).
Proof.
  intros Hm Hv. unfold jit_sync_all_devices.
  rewrite (bind_ok _ _ _ _ _ (snapshot_tss_run w)).
  set (l := tss (state w)) in *.
  destruct (sync_loop_spec l (heap w) Hv) as [H1 H2].
  eexists. split; [|split; [|split; [|split]]].
  - erewrite unlock_guard_run;
      [reflexivity | exact Hm | apply sync_loop_run; exact Hv | reflexivity].
  - simpl. rewrite <- !app_assoc. reflexivity.
  - simpl. apply relock. exact Hm.
  - exact H1.
  - exact H2.
Qed.

Lemma own_sync_run w :
  (forall p, In p (own_thread_states w) -> is_Some (heap w !! p)) ->
  (let* c := get_thread_state_cuda in
   jit_sync_thread_ts X c >>
   let* l := get_thread_state_llvm in
   jit_sync_thread_ts X l) w =
  for_each (own_thread_states w) (fun p => jit_sync_thread_ts X (Some p)) w.
Proof.
  intros Hv. unfold own_thread_states in *.
  unfold bind, get_thread_state_cuda, get_thread_state_llvm, ret.
  destruct (thread_state_cuda w) as [c|] eqn:Hc;
    destruct (thread_state_llvm w) as [l|] eqn:Hl;
    cbn -[jit_sync_thread_ts] in *; unfold bind, ret.
  - destruct (Hv c (or_introl eq_refl)) as [t Ht].
    rewrite (sync_thread_ts_run c t w Ht). cbn -[jit_sync_thread_ts]. rewrite ?Hl.
    destruct (jit_sync_thread_ts X (Some l) _) as [[[]|f] w2]; reflexivity.
  - destruct (Hv c (or_introl eq_refl)) as [t Ht].
    rewrite (sync_thread_ts_run c t w Ht). cbn. rewrite ?Hl. reflexivity.
  - change (jit_sync_thread_ts X None w) with (@Ok unit tt, w).
    cbn -[jit_sync_thread_ts]. rewrite ?Hl.
    destruct (jit_sync_thread_ts X (Some l) w) as [[[]|f] w2]; reflexivity.
  - cbn. rewrite ?Hl. reflexivity.
Qed.

(** [jit_sync_thread()], called with the mutex held and a driver that
    reports no error, returns.  It releases the mutex, waits for the CUDA
    thread state and then for the LLVM thread state of the calling thread,
    as far as they exist, and takes the mutex again.  The global state is
    unchanged, and so is every thread state of another thread. *)
Theorem jit_sync_thread_waits_for_own_work (w : World) :
  mutex_locked (state w) = true ->
  (forall p, In p (own_thread_states w) -> is_Some (heap w !! p)) ->
  exists w',
    jit_sync_thread X w = (Ok tt, w') /\
    trace w' =
      trace w ++ [EvUnlock] ++
      sync_events (own_thread_states w) (heap w) ++ [EvLock] /\
    state w' = state w /\
    (forall p t, In p (own_thread_states w) -> heap w !! p = Some t ->
       In (sync_event t) (sync_events (own_thread_states w) (heap w)) /\
       heap w' !! p = Some (if ts_cuda t then t else clear_task t)) /\
    (forall p, ~ In p (own_thread_states w) -> heap w' !! p = heap w !! p).
Proof.
  intros Hm Hv. unfold jit_sync_thread.
  set (l := own_thread_states w) in *.
  destruct (sync_loop_spec l (heap w) Hv) as [H1 H2].
  eexists. split; [|split; [|split; [|split]]].
  - erewrite unlock_guard_run;
      [ reflexivity | exact Hm
      | rewrite own_sync_run by exact Hv; apply sync_loop_run; exact Hv
      | reflexivity ].
  - simpl. rewrite <- !app_assoc. reflexivity.
  - simpl. apply relock. exact Hm.
  - exact H1.
  - exact H2.
Qed.
End SyncAll.

(** ** Events that a program adds to the trace *)

Lemma only_events_ctx St Hp ok t0 : ctx_insensitive (only_events St Hp ok t0).
Proof. intros w l H. exact H. Qed.

Section EventFrame.
Variable X : Externals.
Variable St : State -> Prop.
Variable Hp : gmap ptr ThreadState -> option ptr -> option ptr -> Prop.
Variable ok : Event -> Prop.
Variable t0 : list Event.

Let P := only_events St Hp ok t0.
Let E := fun (_ : Failure) => only_events St Hp ok t0.

Lemma he_emit e : ok e -> hoare P (emit e) (fun _ => P) E.
Proof.
  intros He w (Hs & Hh & new & Ht & Hf). split; [exact Hs|]. split; [exact Hh|].
  exists (new ++ [e]). simpl. rewrite Ht, app_assoc. split; [reflexivity|].
  apply Forall_app. split; [exact Hf|]. constructor; [exact He|constructor].
Qed.

Lemma he_ret {A} (a : A) : hoare P (ret a) (fun _ => P) E.
Proof. intros w H. exact H. Qed.

Lemma he_get {A} (g : World -> A) :
  hoare P (fun w => (Ok (g w), w)) (fun _ => P) E.
Proof. intros w H. exact H. Qed.

Lemma he_fail {A} f : hoare P (@fail A f) (fun _ => P) E.
Proof. intros w H. exact H. Qed.

Lemma he_load p : hoare P (load p) (fun _ => P) E.
Proof.
  intros w H. unfold load, bind, get_heap. simpl.
  destruct (heap w !! p); simpl; exact H.
Qed.

Lemma he_store p t :
  (forall h c l, Hp h c l -> Hp (<[p := t]> h) c l) ->
  hoare P (store p t) (fun _ => P) E.
Proof.
  intros Hh w H. unfold store, bind, get_heap. simpl.
  destruct (heap w !! p); simpl; [|exact H].
  destruct H as (Hs & Hh' & Ht). split; [exact Hs|]. split; [apply Hh, Hh'|exact Ht].
Qed.

Lemma he_delete p :
  ok (EvDelete p) ->
  (forall h c l, Hp h c l -> Hp (delete p h) c l) ->
  hoare P (delete_ThreadState p) (fun _ => P) E.
Proof.
  intros He Hh w H. unfold delete_ThreadState, bind, get_heap. simpl.
  destruct (heap w !! p); simpl; [|exact H].
  destruct (he_emit (EvDelete p) He w H) as (Hs & Hh' & Ht).
  split; [exact Hs|]. split; [apply Hh, Hh'|exact Ht].
Qed.

Lemma he_cuda_checked c :
  (forall cur, ok (EvCuda cur c)) -> hoare P (cuda_checked X c) (fun _ => P) E.
Proof.
  intros He w H. unfold cuda_checked, bind, cuda_call, cuda_check. simpl.
  destruct (cuda_check_passes X _); simpl;
    apply (he_emit (EvCuda (head (ctx_stack w)) c) (He _) w H).
Qed.

Lemma he_cuda_call c :
  (forall cur, ok (EvCuda cur c)) -> hoare P (cuda_call X c) (fun _ => P) E.
Proof.
  intros He w H. unfold cuda_call.
  apply (he_emit (EvCuda (head (ctx_stack w)) c) (He _) w H).
Qed.

Lemma he_cuda_check rv : hoare P (cuda_check X rv) (fun _ => P) E.
Proof.
  intros w H. unfold cuda_check. destruct (cuda_check_passes X rv); exact H.
Qed.

Lemma he_modify f :
  (forall s, St s -> St (f s)) -> hoare P (modify_state f) (fun _ => P) E.
Proof. intros Hf w (Hs & Ht). split; [apply Hf, Hs|exact Ht]. Qed.

Lemma he_set_jit_temp_path p : hoare P (set_jit_temp_path p) (fun _ => P) E.
Proof. intros w H. exact H. Qed.

Lemma he_set_thread_state_llvm p :
  (forall h c l, Hp h c l -> Hp h c p) ->
  hoare P (set_thread_state_llvm p) (fun _ => P) E.
Proof. intros Hh w (Hs & Hh' & Ht). split; [exact Hs|]. split; [apply Hh in Hh'; exact Hh'|exact Ht]. Qed.

Lemma he_set_thread_state_cuda p :
  (forall h c l, Hp h c l -> Hp h p l) ->
  hoare P (set_thread_state_cuda p) (fun _ => P) E.
Proof. intros Hh w (Hs & Hh' & Ht). split; [exact Hs|]. split; [apply Hh in Hh'; exact Hh'|exact Ht]. Qed.

Lemma he_scoped_set_context {A} ctx (body : M A) :
  hoare P body (fun _ => P) E ->
  hoare P (scoped_set_context ctx body) (fun _ => P) E.
Proof.
  intros H. apply hoare_scoped_set_context; auto; intros; apply only_events_ctx.
Qed.

Lemma he_bind {A B} (m : M A) (k : A -> M B) :
  hoare P m (fun _ => P) E ->
  (forall a, hoare P (k a) (fun _ => P) E) ->
  hoare P (bind m k) (fun _ => P) E.
Proof. intros Hm Hk. eapply hoare_bind; [exact Hm|exact Hk]. Qed.

(** After [get_state] the continuation may use [St] of the state read. *)
Lemma he_bind_state {B} (k : State -> M B) :
  (forall s, St s -> hoare P (k s) (fun _ => P) E) ->
  hoare P (bind get_state k) (fun _ => P) E.
Proof.
  intros Hk w H. unfold bind, get_state. apply (Hk (state w)); [apply H|exact H].
Qed.

Lemma he_for_each {A} (l : list A) (body : A -> M unit) :
  (forall x, In x l -> hoare P (body x) (fun _ => P) E) ->
  hoare P (for_each l body) (fun _ => P) E.
Proof. intros H. apply hoare_for_each. exact H. Qed.

(** What a run from a world that satisfies the invariant gives. *)
Lemma he_run {A} (m : M A) w :
  hoare P m (fun _ => P) E -> P w -> P (snd (m w)).
Proof.
  intros H Hw. specialize (H w Hw). destruct (m w) as [[a|f] w']; exact H.
Qed.

End EventFrame.

(** One step through a program built from the primitives. *)
Ltac he_step :=
  lazymatch goal with
  | |- hoare _ (bind get_state _) _ _ => apply he_bind_state; intros ? ?
  | |- hoare _ (bind _ _) _ _ => apply he_bind; [|intros ?]
  | |- hoare _ (emit _) _ _ => apply he_emit
  | |- hoare _ (jit_log _ _ _) _ _ => unfold jit_log
  | |- hoare _ (ext_call _) _ _ => unfold ext_call
  | |- hoare _ (jit_fail _ _) _ _ => unfold jit_fail
  | |- hoare _ (jit_raise _ _) _ _ => unfold jit_raise
  | |- hoare _ (task_wait_and_release _) _ _ => unfold task_wait_and_release
  | |- hoare _ (ret _) _ _ => apply he_ret
  | |- hoare _ (fail _) _ _ => apply he_fail
  | |- hoare _ (load _) _ _ => apply he_load
  | |- hoare _ (store _ _) _ _ => apply he_store; intros ? ? ? ?
  | |- hoare _ (delete_ThreadState _) _ _ => apply he_delete; [|intros ? ? ? ?]
  | |- hoare _ (cuda_checked _ _) _ _ => apply he_cuda_checked; intros ?
  | |- hoare _ (cuda_call _ _) _ _ => apply he_cuda_call; intros ?
  | |- hoare _ (cuda_check _ _) _ _ => apply he_cuda_check
  | |- hoare _ (modify_state _) _ _ => apply he_modify; intros ? ?
  | |- hoare _ (set_jit_temp_path _) _ _ => apply he_set_jit_temp_path
  | |- hoare _ (set_thread_state_llvm _) _ _ =>
      apply he_set_thread_state_llvm; intros ? ? ? ?
  | |- hoare _ (set_thread_state_cuda _) _ _ =>
      apply he_set_thread_state_cuda; intros ? ? ? ?
  | |- hoare _ (scoped_set_context _ _) _ _ => apply he_scoped_set_context
  | |- hoare _ (for_each _ _) _ _ => apply he_for_each; intros ? ?
  | |- hoare _ (fun w => (Ok _, w)) _ _ => apply he_get
  | |- hoare _ (if ?b then _ else _) _ _ => destruct b eqn:?
  | |- hoare _ (match ?x with _ => _ end) _ _ => destruct x eqn:?
  end.

(** ** init.cpp: what [jit_shutdown] releases *)

(** The blocks of [jit_shutdown]. *)
Ltac unfold_shutdown :=
  unfold jit_shutdown, shutdown_release, shutdown_thread_states,
    shutdown_thread_state, shutdown_kernel_cache, shutdown_leak_pass,
    shutdown_cache_checks, shutdown_backends, shutdown_device,
    jit_var_dec_ref_ext, log_cse_entry, task_wait_and_release,
    ext_call, jit_log, jit_fail.

Section ShutdownIdle.
Variable X : Externals.
Hypothesis Hframe : dec_ref_frame X.

Lemma he_report_leaks St Hp ok t0 vars : forall n,
  (forall l fmt args, ok (EvLog l fmt args)) ->
  hoare (only_events St Hp ok t0) (report_leaks vars n)
        (fun _ => only_events St Hp ok t0)
        (fun _ => only_events St Hp ok t0).
Proof.
  induction vars as [|v vars IH]; intros n Hl; simpl; [apply he_ret|].
  unfold jit_log. repeat he_step; try apply Hl. apply IH, Hl.
Qed.

Lemma jit_shutdown_idle light t0 :
  hoare (only_events idle_registry any_heap not_driver_work t0)
        (jit_shutdown X light)
        (fun _ => only_events idle_registry any_heap not_driver_work t0)
        (fun _ => only_events idle_registry any_heap not_driver_work t0).
Proof.
  unfold_shutdown.
  repeat he_step;
    try exact I;
    try (unfold idle_registry in *; simpl in *; intuition congruence);
    try (apply he_report_leaks; intros; exact I).
  match goal with |- idle_registry (var_dec_ref_ext X ?x ?s) =>
    destruct (Hframe x s) as (? & ? & ? & ? & ?) end.
  unfold idle_registry in *. intuition congruence.
Qed.

Lemma jit_shutdown_idle_makes_no_driver_call light w :
  tss (state w) = [] -> has_cuda (state w) = false ->
  exists new,
    trace (snd (jit_shutdown X light w)) = trace w ++ new /\
    Forall not_driver_work new.
Proof.
  intros Ht Hc.
  apply (he_run idle_registry any_heap not_driver_work (trace w)
           (jit_shutdown X light) w (jit_shutdown_idle light (trace w))).
  split; [split; assumption|]. split; [exact I|].
  exists []. split; [now rewrite app_nil_r|constructor].
Qed.
End ShutdownIdle.

Lemma bind_inv {A B} (m : M A) (k : A -> M B) w b w' :
  bind m k w = (Ok b, w') ->
  exists a w1, m w = (Ok a, w1) /\ k a w1 = (Ok b, w').
Proof.
  unfold bind. destruct (m w) as [[a|f] w1]; [eauto|discriminate].
Qed.

Lemma delete_all_in l : forall h p, In p l -> delete_all l h !! p = None.
Proof.
  induction l as [|q l IH]; intros h p Hin; [destruct Hin|]. simpl.
  destruct (in_dec Nat.eq_dec p l) as [Hl|Hl]; [now apply IH|].
  destruct Hin as [->|Hin]; [|contradiction].
  clear IH. revert h. induction l as [|r l IH]; intros h; simpl.
  - apply lookup_delete_eq.
  - rewrite delete_delete. apply IH. intros H. apply Hl. now right.
Qed.

Lemma delete_all_notin l : forall h p, ~ In p l -> delete_all l h !! p = h !! p.
Proof.
  induction l as [|q l IH]; intros h p Hn; [reflexivity|]. simpl.
  rewrite IH by (intros H; apply Hn; now right).
  apply lookup_delete_ne. intros ->. apply Hn. now left.
Qed.

Section ShutdownPost.
Variable X : Externals.
Hypothesis Hframe : dec_ref_frame X.

Lemma shutdown_thread_state_ok p w w' :
  shutdown_thread_state X p w = (Ok tt, w') ->
  state w' = state w /\ heap w' = delete p (heap w) /\
  thread_state_cuda w' = thread_state_cuda w /\
  thread_state_llvm w' = thread_state_llvm w.
Proof.
  unfold shutdown_thread_state, delete_ThreadState, task_wait_and_release,
    scoped_set_context, scoped, cuda_checked, cuda_call, cuda_check,
    ext_call, jit_log, jit_fail, fail, emit, load, get_heap, set_heap,
    set_ctx_stack, bind, ret.
  simpl. run_cases; intros H; inversion H; subst; simpl; auto.
Qed.

Lemma shutdown_loop_ok l : forall w w',
  for_each l (shutdown_thread_state X) w = (Ok tt, w') ->
  state w' = state w /\ heap w' = delete_all l (heap w) /\
  thread_state_cuda w' = thread_state_cuda w /\
  thread_state_llvm w' = thread_state_llvm w.
Proof.
  induction l as [|p l IH]; intros w w' H.
  - inversion H; subst. auto.
  - rewrite for_each_cons in H.
    destruct (shutdown_thread_state X p w) as [[[]|f] w1] eqn:H1; [|discriminate].
    apply shutdown_thread_state_ok in H1. destruct H1 as (Hs & Hh & Hc & Hl).
    apply IH in H. destruct H as (Hs' & Hh' & Hc' & Hl').
    simpl. rewrite <- Hh. repeat split; congruence.
Qed.

Lemma shutdown_thread_states_ok w w' :
  shutdown_thread_states X w = (Ok tt, w') ->
  state w' = with_tss [] (state w) /\
  heap w' = delete_all (tss (state w)) (heap w) /\
  thread_state_cuda w' = None /\ thread_state_llvm w' = None.
Proof.
  unfold shutdown_thread_states. intros H.
  apply bind_inv in H. destruct H as (s & w0 & Hg & H).
  inversion Hg; subst s w0. clear Hg.
  apply bind_inv in H. destruct H as ([] & w1 & H1 & H).
  inversion H; subst w'. simpl. clear H.
  destruct (tss (state w)) as [|p l] eqn:Ht.
  - inversion H1; subst w1. simpl. repeat split; auto.
    destruct (state w); simpl in *. now subst.
  - apply bind_inv in H1. destruct H1 as ([] & w2 & H2 & H1).
    apply bind_inv in H1. destruct H1 as ([] & w3 & H3 & H1).
    apply bind_inv in H1. destruct H1 as ([] & w4 & H4 & H1).
    inversion H2; subst w2. clear H2.
    apply shutdown_loop_ok in H3. destruct H3 as (Hs & Hh & Hc & Hl).
    inversion H4; subst w4. clear H4.
    inversion H1; subst w1. simpl in *. rewrite Hs, Hh. auto.
Qed.

Lemma for_each_emit_ok {A} (f : A -> Event) l : forall w,
  for_each l (fun x => emit (f x)) w = (Ok tt, add_events (map f l) w).
Proof.
  induction l as [|x l IH]; intros w.
  - simpl. unfold ret. now rewrite add_events_nil.
  - rewrite for_each_cons. unfold emit at 1. rewrite IH.
    unfold add_events. simpl. now rewrite <- app_assoc.
Qed.

Lemma shutdown_kernel_cache_ok w w' :
  shutdown_kernel_cache w = (Ok tt, w') ->
  state w' = with_kernel_cache [] (state w) /\ heap w' = heap w /\
  thread_state_cuda w' = thread_state_cuda w /\
  thread_state_llvm w' = thread_state_llvm w.
Proof.
  unfold shutdown_kernel_cache, ext_call, jit_log.
  unfold bind at 1, get_state at 1.
  destruct (kernel_cache (state w)) as [|v l] eqn:Hk.
  - intros H. inversion H; subst w'. repeat split; auto.
    destruct (state w); simpl in *. now subst.
  - unfold bind at 1, emit at 1.
    rewrite (bind_ok _ _ _ _ _
               (for_each_emit_ok
                  (fun v => EvCall (call_jit_kernel_free (kernel_device v) (kernel_id v)))
                  (v :: l) _)).
    intros H. inversion H; subst w'. simpl. auto.
Qed.

(** The leak pass, the cache checks and the release of the backends leave
    the heap and the thread-local pointers alone and keep an empty list of
    thread states and an empty kernel cache. *)
Lemma shutdown_rest_frame light h0 c0 l0 t0 :
  hoare (only_events (fun s => tss s = [] /\ kernel_cache s = [])
           (same_heap h0 c0 l0) any_event t0)
        (shutdown_leak_pass X >> shutdown_cache_checks >>
         shutdown_backends X light)
        (fun _ => only_events (fun s => tss s = [] /\ kernel_cache s = [])
                    (same_heap h0 c0 l0) any_event t0)
        (fun _ => only_events (fun s => tss s = [] /\ kernel_cache s = [])
                    (same_heap h0 c0 l0) any_event t0).
Proof.
  unfold_shutdown.
  repeat he_step;
    try exact I;
    try (simpl in *; intuition congruence);
    try (apply he_report_leaks; intros; exact I).
  match goal with |- context [var_dec_ref_ext X ?x ?s] =>
    destruct (Hframe x s) as (? & ? & ? & ? & ?) end.
  intuition congruence.
Qed.

(** The leak pass and the cache checks keep the registry. *)
Lemma shutdown_checks_frame s0 t0 :
  hoare (only_events (same_registry s0) any_heap any_event t0)
        (shutdown_leak_pass X >> shutdown_cache_checks)
        (fun _ => only_events (same_registry s0) any_heap any_event t0)
        (fun _ => only_events (same_registry s0) any_heap any_event t0).
Proof.
  unfold_shutdown.
  repeat he_step;
    try exact I;
    try (apply he_report_leaks; intros; exact I).
  match goal with |- context [var_dec_ref_ext X ?x ?s] =>
    destruct (Hframe x s) as (? & ? & ? & ? & ?) end.
  unfold same_registry in *. intuition congruence.
Qed.

Lemma shutdown_backends_ok light w w' :
  shutdown_backends X light w = (Ok tt, w') ->
  has_cuda (state w') = false /\ has_llvm (state w') = false /\
  jit_temp_path w' = None /\
  (has_cuda (state w) = true -> devices (state w') = []).
Proof.
  unfold shutdown_backends, ext_call, jit_log.
  unfold bind at 1, emit at 1. unfold bind at 1, emit at 1.
  unfold bind at 1, get_state at 1. cbn [state].
  intros H. apply bind_inv in H. destruct H as ([] & w1 & H1 & H).
  assert (Hd : has_cuda (state w) = true -> devices (state w1) = []).
  { intros Hc. rewrite Hc in H1.
    apply bind_inv in H1. destruct H1 as ([] & w2 & _ & H1).
    inversion H1; subst w1. reflexivity. }
  clear H1.
  unfold bind at 1, emit at 1 in H.
  apply bind_inv in H. destruct H as ([] & w2 & H2 & H).
  assert (Hs : state w2 = state w1).
  { destruct (light =? 0); inversion H2; subst w2; reflexivity. }
  inversion H; subst w'. simpl. rewrite Hs. auto.
Qed.

Lemma he_ok_run {A} St Hp ok t0 (m : M A) w a w' :
  hoare (only_events St Hp ok t0) m (fun _ => only_events St Hp ok t0)
        (fun _ => only_events St Hp ok t0) ->
  only_events St Hp ok t0 w -> m w = (Ok a, w') ->
  only_events St Hp ok t0 w'.
Proof. intros H Hw Hm. specialize (H w Hw). now rewrite Hm in H. Qed.

Lemma only_events_start (St : State -> Prop)
    (Hp : gmap ptr ThreadState -> option ptr -> option ptr -> Prop) ok w :
  St (state w) -> Hp (heap w) (thread_state_cuda w) (thread_state_llvm w) ->
  only_events St Hp ok (trace w) w.
Proof.
  intros Hs Hh. split; [exact Hs|]. split; [exact Hh|].
  exists []. split; [now rewrite app_nil_r|constructor].
Qed.

(** What a shutdown that returns leaves behind. *)
Lemma jit_shutdown_post (light : Z) (w w' : World) :
  jit_shutdown X light w = (Ok tt, w') ->
  tss (state w') = [] /\ kernel_cache (state w') = [] /\
  (has_cuda (state w) = true -> devices (state w') = []) /\
  has_cuda (state w') = false /\ has_llvm (state w') = false /\
  thread_state_cuda w' = None /\ thread_state_llvm w' = None /\
  jit_temp_path w' = None /\
  (forall p, In p (tss (state w)) -> heap w' !! p = None) /\
  (forall p, ~ In p (tss (state w)) -> heap w' !! p = heap w !! p).
Proof.
  intros H. rewrite jit_shutdown_split in H.
  apply bind_inv in H. destruct H as ([] & w2 & Hrel & Hrest).
  unfold shutdown_release in Hrel.
  apply bind_inv in Hrel. destruct Hrel as ([] & w1 & H1 & H2).
  apply shutdown_thread_states_ok in H1. destruct H1 as (Hs1 & Hh1 & Hc1 & Hl1).
  apply shutdown_kernel_cache_ok in H2. destruct H2 as (Hs2 & Hh2 & Hc2 & Hl2).
  (* heap, pointers, thread states and kernels *)
  assert (Hfin : only_events (fun s => tss s = [] /\ kernel_cache s = [])
                   (same_heap (heap w2) None None) any_event (trace w2) w').
  { eapply he_ok_run; [apply (shutdown_rest_frame light)| |exact Hrest].
    apply only_events_start.
    - rewrite Hs2, Hs1. simpl. auto.
    - repeat split; congruence. }
  destruct Hfin as ((Ht & Hk) & (Hh & Hc & Hl) & _).
  (* the backends *)
  change ((shutdown_leak_pass X >> shutdown_cache_checks >>
           shutdown_backends X light) w2 = (Ok tt, w')) in Hrest.
  assert (Hrest' : ((shutdown_leak_pass X >> shutdown_cache_checks) >>
                    shutdown_backends X light) w2 = (Ok tt, w')).
  { rewrite <- Hrest. unfold bind.
    destruct (shutdown_leak_pass X w2) as [[[]|f] w3]; reflexivity. }
  apply bind_inv in Hrest'. destruct Hrest' as ([] & w4 & H34 & H5).
  assert (Hreg : only_events (same_registry (state w2)) any_heap any_event
                   (trace w2) w4).
  { eapply he_ok_run; [apply shutdown_checks_frame| |exact H34].
    apply only_events_start; [unfold same_registry; auto|exact I]. }
  destruct Hreg as ((_ & Hcu & _) & _).
  apply shutdown_backends_ok in H5. destruct H5 as (Hb1 & Hb2 & Hb3 & Hb4).
  repeat split; auto.
  - intros Hcw. apply Hb4. rewrite Hcu, Hs2, Hs1. exact Hcw.
  - intros p Hp. rewrite Hh, Hh2, Hh1. now apply delete_all_in.
  - intros p Hp. rewrite Hh, Hh2, Hh1. now apply delete_all_notin.
Qed.

(** A shutdown that returns has released everything: [state.tss] and the
    kernel cache are empty, the devices are gone (if the CUDA backend was
    active), both backends are marked inactive, the two thread-local
    pointers and the temporary path are reset, every thread state that was
    registered has been deleted, and no other object has been touched. *)
Theorem jit_shutdown_releases_everything (light : Z) (w w' : World) :
  jit_shutdown X light w = (Ok tt, w') ->
  tss (state w') = [] /\ kernel_cache (state w') = [] /\
  (has_cuda (state w) = true -> devices (state w') = []) /\
  has_cuda (state w') = false /\ has_llvm (state w') = false /\
  thread_state_cuda w' = None /\ thread_state_llvm w' = None /\
  jit_temp_path w' = None /\
  (forall p, In p (tss (state w)) -> heap w' !! p = None) /\
  (forall p, ~ In p (tss (state w)) -> heap w' !! p = heap w !! p).
Proof. apply jit_shutdown_post. Qed.

(** A second shutdown finds nothing to release: after a shutdown that
    returned, another one (light or not) makes no driver call, deletes no
    thread state and waits for no task. *)
Theorem jit_shutdown_twice (light light' : Z) (w w' : World) :
  jit_shutdown X light w = (Ok tt, w') ->
  exists new,
    trace (snd (jit_shutdown X light' w')) = trace w' ++ new /\
    Forall not_driver_work new.
Proof.
  intros H. apply jit_shutdown_post in H.
  destruct H as (Ht & _ & _ & Hc & _).
  now apply jit_shutdown_idle_makes_no_driver_call.
Qed.

Lemma shutdown_cache_checks_ptr_leak w :
  variables (state w) = [] -> cse_cache (state w) = [] ->
  variable_from_ptr (state w) <> [] ->
  shutdown_cache_checks w = (Err (Fatal msg_ptr_leak []), w).
Proof.
  intros Hv Hc Hp. unfold shutdown_cache_checks, bind, get_state, ret,
    jit_fail, fail. simpl. rewrite Hv, Hc. simpl. rewrite Hv.
  destruct (variable_from_ptr (state w)); [congruence|reflexivity].
Qed.

(** A pointer literal that is still registered when no variable and no
    CSE entry is left ends the process: [jit_shutdown] never returns
    normally, and when the release of the thread states and kernels goes
    through, it ends with the fatal error about leaked pointer literals,
    right after what the leak pass logs; devices and backends are not
    released. *)
Theorem jit_shutdown_pointer_literal_leak_is_fatal (light : Z) (w : World) :
  variables (state w) = [] ->
  cse_cache (state w) = [] ->
  variable_from_ptr (state w) <> [] ->
  (forall a, fst (jit_shutdown X light w) <> Ok a) /\
  (forall w1,
     shutdown_release X w = (Ok tt, w1) ->
     jit_shutdown X light w =
       (Err (Fatal msg_ptr_leak []),
        add_events
          (if leak_pass_enabled (state w)
           then empty_records_warning (state w) else []) w1)).
Proof.
  intros Hv Hc Hp.
  assert (Hmain : forall w1,
     shutdown_release X w = (Ok tt, w1) ->
     jit_shutdown X light w =
       (Err (Fatal msg_ptr_leak []),
        add_events
          (if leak_pass_enabled (state w)
           then empty_records_warning (state w) else []) w1)).
  { intros w1 Hpre.
    destruct (shutdown_prefix_frame X w w1 Hpre)
      as (Hv1 & He1 & Hc1 & Hp1 & Hl1 & Hl2).
    rewrite jit_shutdown_split, (bind_ok _ _ _ _ _ Hpre).
    rewrite (bind_ok _ _ _ _ _
               (shutdown_leak_pass_no_variables X w1 ltac:(congruence))).
    apply bind_err. rewrite shutdown_cache_checks_ptr_leak.
    - unfold leak_pass_enabled, empty_records_warning.
      now rewrite Hv1, He1, Hl1, Hl2.
    - simpl. congruence.
    - simpl. congruence.
    - simpl. congruence. }
  split; [|exact Hmain].
  intros a. rewrite jit_shutdown_split.
  destruct (shutdown_release X w) as [[[]|f] w1] eqn:Hpre.
  - rewrite <- jit_shutdown_split, (Hmain w1 eq_refl). discriminate.
  - rewrite (bind_err _ _ _ _ _ Hpre). discriminate.
Qed.

End ShutdownPost.

Section ShutdownLight.
Variable X : Externals.

Lemma jit_shutdown_light_frame light t0 :
  light <> 0 ->
  hoare (only_events any_state any_heap keeps_backends t0)
        (jit_shutdown X light)
        (fun _ => only_events any_state any_heap keeps_backends t0)
        (fun _ => only_events any_state any_heap keeps_backends t0).
Proof.
  intros Hl. unfold_shutdown.
  repeat he_step;
    try exact I;
    try (split; discriminate);
    try (apply he_report_leaks; intros; split; discriminate);
    try (exfalso;
         match goal with H : (light =? 0) = true |- _ =>
           apply Z.eqb_eq in H; contradiction end).
Qed.

Lemma shutdown_backends_tail light w w' :
  shutdown_backends X light w = (Ok tt, w') ->
  exists pre,
    trace w' =
    pre ++ EvLog Info "jit_shutdown(): done" [] ::
           (if light =? 0
            then [EvCall call_jit_llvm_shutdown; EvCall call_jit_cuda_shutdown]
            else []).
Proof.
  unfold shutdown_backends, ext_call, jit_log.
  unfold bind at 1, emit at 1. unfold bind at 1, emit at 1.
  unfold bind at 1, get_state at 1. cbn [state].
  intros H. apply bind_inv in H. destruct H as ([] & w1 & _ & H).
  exists (trace w1).
  unfold bind at 1, emit at 1 in H.
  destruct (light =? 0); inversion H; subst w'; simpl;
    rewrite <- ?app_assoc; reflexivity.
Qed.

(** A light shutdown ([light <> 0]) never calls [jit_llvm_shutdown] or
    [jit_cuda_shutdown], whether it returns or fails.  A shutdown that
    returns ends with the log line "done", followed, for a full shutdown
    only, by the calls of [jit_llvm_shutdown] and [jit_cuda_shutdown], in
    this order. *)
Theorem jit_shutdown_light_keeps_backends (light : Z) (w : World) :
  (light <> 0 ->
   exists new,
     trace (snd (jit_shutdown X light w)) = trace w ++ new /\
     Forall keeps_backends new) /\
  (forall w',
     jit_shutdown X light w = (Ok tt, w') ->
     exists pre,
       trace w' =
       pre ++ EvLog Info "jit_shutdown(): done" [] ::
              (if light =? 0
               then [EvCall call_jit_llvm_shutdown; EvCall call_jit_cuda_shutdown]
               else [])).
Proof.
  split.
  - intros Hl.
    apply (he_run any_state any_heap keeps_backends (trace w)
             (jit_shutdown X light) w (jit_shutdown_light_frame light _ Hl)).
    apply only_events_start; exact I.
  - intros w' H. unfold jit_shutdown in H.
    apply bind_inv in H. destruct H as ([] & w1 & _ & H).
    apply bind_inv in H. destruct H as ([] & w2 & _ & H).
    apply bind_inv in H. destruct H as ([] & w3 & _ & H).
    now apply shutdown_backends_tail in H.
Qed.
End ShutdownLight.

(** ** init.cpp: the leak pass of [jit_shutdown] *)

Section ShutdownLeakPass.
Variable X : Externals.

(** With both log levels below [Warn], the log levels and the variables
    never change and no event of the leak pass is recorded. *)
Lemma jit_shutdown_quiet_frame light s0 t0 :
  leak_pass_enabled s0 = false ->
  hoare (only_events (quiet_frame s0) any_heap not_leak_pass t0)
        (jit_shutdown X light)
        (fun _ => only_events (quiet_frame s0) any_heap not_leak_pass t0)
        (fun _ => only_events (quiet_frame s0) any_heap not_leak_pass t0).
Proof.
  intros Hq. unfold_shutdown.
  repeat he_step;
    try exact I;
    try reflexivity;
    try (exfalso;
         match goal with
         | H : quiet_frame s0 ?s, He : leak_pass_enabled ?s = true |- _ =>
             let A := fresh in
             let B := fresh in
             destruct H as (A & B & _);
             unfold leak_pass_enabled in *; rewrite A, B in He; congruence
         end);
    try (unfold quiet_frame in *; simpl in *; intuition congruence).
Qed.

(** C2, as amended.  A shutdown with one of the two log levels at [Warn]
    or above, in which the release of thread states and kernels completes
    and fewer than 2^32 variables are left: the trace continues with a call
    of [jit_var_dec_ref_ext] for every scatter variable that had exactly
    one external and no internal reference, in the order of the map,
    followed by the report on the variables that are in the map after
    these calls: nothing when there are none, otherwise a header, one line
    for each of the first ten variables, one notice when there are more
    than ten, and the summary with their total number.  A shutdown with
    both log levels below [Warn], whether it returns or fails: the
    variables are left as they were, and the trace gains no call of
    [jit_var_dec_ref_ext] and no message of the leak pass. *)
Theorem jit_shutdown_leak_pass (light : Z) (w : World) :
  (leak_pass_enabled (state w) = true ->
   forall w1, shutdown_release X w = (Ok tt, w1) ->
   let ids := leaked_scatters (variables (state w)) in
   let s2 := dec_ref_all X ids (state w1) in
   len (variables s2) < 2 ^ 32 ->
   exists post,
     trace (snd (jit_shutdown X light w)) =
       trace w1 ++ dec_ref_calls ids ++ leak_report (variables s2) ++ post) /\
  (leak_pass_enabled (state w) = false ->
   variables (state (snd (jit_shutdown X light w))) = variables (state w) /\
   exists new,
     trace (snd (jit_shutdown X light w)) = trace w ++ new /\
     Forall not_leak_pass new).
Proof.
  split.
  - intros Hen w1 Hpre. now apply jit_shutdown_leak_pass_enabled.
  - intros Hq.
    destruct (he_run (quiet_frame (state w)) any_heap not_leak_pass (trace w)
                (jit_shutdown X light) w
                (jit_shutdown_quiet_frame light (state w) (trace w) Hq))
      as ((_ & _ & Hv) & _ & Hnew).
    + apply only_events_start; [repeat split|exact I].
    + split; [exact Hv|exact Hnew].
Qed.

End ShutdownLeakPass.

(** Witness of [jit_shutdown_leak_pass].  At level [Info] the scatter
    variable 2 is released, which releases the literal 1, and variable 3
    is reported; at level [Error] nothing of this happens. *)
Lemma jit_shutdown_leak_pass_witness :
  (exists post,
     trace (snd (jit_shutdown collecting_externals 0 leaky_world)) =
       trace leaky_world ++ dec_ref_calls [2] ++
       leak_report [(3, mkVariable false 1 0 [0; 0; 0; 0])] ++ post) /\
  (variables (state (snd (jit_shutdown collecting_externals 0 quiet_leaky_world)))
     = variables (state quiet_leaky_world) /\
   exists new,
     trace (snd (jit_shutdown collecting_externals 0 quiet_leaky_world)) =
       trace quiet_leaky_world ++ new /\
     Forall not_leak_pass new).
Proof.
  split.
  - apply (proj1 (jit_shutdown_leak_pass collecting_externals 0 leaky_world)
             eq_refl leaky_world);
      [ reflexivity | vm_compute; reflexivity ].
  - apply (proj2 (jit_shutdown_leak_pass collecting_externals 0
                    quiet_leaky_world)).
    reflexivity.
Defined.

(** ** init.cpp: [jit_init] *)

(** The blocks of [jit_init]. *)
Ltac unfold_init :=
  unfold jit_init, init_discovery, init_temp_path, init_backends,
    init_devices, init_peer_access, init_peer,
    ext_call, jit_log, jit_fail.

Section InitSkips.
Variable X : Externals.

Lemma jit_init_without_cuda llvm cuda t0 :
  match platform X with Apple => 0 | _ => cuda end = 0 ->
  hoare (only_events no_devices any_heap not_cuda t0) (jit_init X llvm cuda)
        (fun _ => only_events no_devices any_heap not_cuda t0)
        (fun _ => only_events no_devices any_heap not_cuda t0).
Proof.
  intros Hc. unfold_init. rewrite Hc. cbv zeta.
  repeat he_step; try exact I;
    try (unfold no_devices in *; simpl in *; congruence);
    try (exfalso; unfold no_devices in *;
         match goal with H : devices ?s = [], H' : In _ (devices ?s) |- _ =>
           rewrite H in H'; exact H' end).
Qed.

Lemma he_create_sub_streams St Hp ok t0 n :
  (forall cur, ok (EvCuda cur cuStreamCreate)) ->
  (forall cur, ok (EvCuda cur cuEventCreate)) ->
  hoare (only_events St Hp ok t0) (create_sub_streams X n)
        (fun _ => only_events St Hp ok t0)
        (fun _ => only_events St Hp ok t0).
Proof.
  intros H1 H2. induction n as [|n IH]; simpl; [apply he_ret|].
  repeat he_step; auto.
Qed.

Lemma jit_init_without_llvm cuda t0 :
  hoare (only_events any_state any_heap not_llvm_init t0) (jit_init X 0 cuda)
        (fun _ => only_events any_state any_heap not_llvm_init t0)
        (fun _ => only_events any_state any_heap not_llvm_init t0).
Proof.
  unfold_init. unfold init_device. cbv zeta.
  change (0 =? 0) with true. cbv iota.
  repeat he_step; try exact I; try discriminate;
    try (apply he_create_sub_streams; intros; discriminate).
Qed.

(** A backend that is not asked for is not started: without a request for
    CUDA (always so on macOS) the driver is never called, and without a
    request for LLVM [jit_llvm_init] is never called. *)
Theorem jit_init_skips_unrequested_backend (llvm cuda : Z) (w : World) :
  (match platform X with Apple => 0 | _ => cuda end = 0 ->
   devices (state w) = [] ->
   devices (state (snd (jit_init X llvm cuda w))) = [] /\
   exists new,
     trace (snd (jit_init X llvm cuda w)) = trace w ++ new /\
     Forall not_cuda new) /\
  (llvm = 0 ->
   exists new,
     trace (snd (jit_init X llvm cuda w)) = trace w ++ new /\
     Forall not_llvm_init new).
Proof.
  split.
  - intros Hc Hd.
    destruct (he_run no_devices any_heap not_cuda (trace w)
                (jit_init X llvm cuda) w
                (jit_init_without_cuda llvm cuda (trace w) Hc)) as (Hs & _ & Ht).
    + apply only_events_start; [exact Hd|exact I].
    + split; [exact Hs|exact Ht].
  - intros ->.
    apply (he_run any_state any_heap not_llvm_init (trace w)
             (jit_init X 0 cuda) w (jit_init_without_llvm cuda (trace w))).
    apply only_events_start; exact I.
Qed.
End InitSkips.

Section InitDevices.
Variable X : Externals.

Lemma cuda_checked_inv c w v w' :
  cuda_checked X c w = (Ok v, w') -> state w' = state w.
Proof.
  unfold cuda_checked, cuda_call, cuda_check, bind, ret, jit_fail, fail. simpl.
  destruct (cuda_check_passes X _); intros H; inversion H; reflexivity.
Qed.

Lemma scoped_set_context_inv {A} ctx (body : M A) w a w' :
  scoped_set_context ctx body w = (Ok a, w') ->
  exists w2,
    body (mkWorld (state w) (heap w) (thread_state_cuda w) (thread_state_llvm w)
            (jit_temp_path w) (ctx :: ctx_stack w) (trace w)) = (Ok a, w2) /\
    state w' = state w2.
Proof.
  unfold scoped_set_context, scoped, set_ctx_stack. simpl.
  destruct (body _) as [[a'|[fmt args|fmt args|]] w2]; intros H;
    inversion H; subst. eauto.
Qed.

Lemma create_sub_streams_inv n : forall w r w',
  create_sub_streams X n w = (Ok r, w') ->
  state w' = state w /\ length (fst r) = n /\ length (snd r) = n.
Proof.
  induction n as [|n IH]; intros w r w' H; simpl in H.
  - inversion H; subst. auto.
  - apply bind_inv in H. destruct H as (st & w1 & H1 & H).
    apply bind_inv in H. destruct H as (ev & w2 & H2 & H).
    apply bind_inv in H. destruct H as (r' & w3 & H3 & H).
    inversion H; subst. simpl.
    apply cuda_checked_inv in H1. apply cuda_checked_inv in H2.
    apply IH in H3. destruct H3 as (Hs & Hl1 & Hl2).
    repeat split; congruence.
Qed.

Lemma devices_below_mono n m l :
  n <= m -> devices_below X n l -> devices_below X m l.
Proof.
  intros Hnm [Hf Hs]. split; [|exact Hs].
  eapply List.Forall_impl; [|exact Hf]. intros d [Hd Hlt]. split; [exact Hd|lia].
Qed.

Lemma devices_below_snoc n l d :
  devices_below X n l -> device_ok X d -> dev_id d = n ->
  devices_below X (n + 1) (l ++ [d]).
Proof.
  intros [Hf Hs] Hd Hid. split.
  - apply Forall_app. split.
    + eapply List.Forall_impl; [|exact Hf]. intros e [He Hlt]. split; [exact He|lia].
    + constructor; [|constructor]. split; [exact Hd|lia].
  - rewrite map_app. simpl. clear Hd.
    induction l as [|e l IH]; simpl.
    + constructor; constructor.
    + inversion Hf; subst. inversion Hs; subst. constructor.
      * apply IH; assumption.
      * apply Forall_app. split; [assumption|].
        constructor; [|constructor]. destruct H1 as [_ H1]. lia.
Qed.

Lemma init_device_inv i w w' :
  0 <= i ->
  init_device X i w = (Ok tt, w') ->
  devices_below X i (devices (state w)) ->
  devices_below X (i + 1) (devices (state w')).
Proof.
  intros Hi H Hd. unfold init_device in H.
  repeat match type of H with
  | bind (cuda_checked X _) _ _ = _ =>
      let Hc := fresh "Hc" in
      apply bind_inv in H; destruct H as (? & ? & Hc & H);
      apply cuda_checked_inv in Hc; rewrite <- Hc in Hd; clear Hc
  end.
  unfold jit_log in H.
  apply bind_inv in H. destruct H as ([] & w1 & Hlog & H).
  inversion Hlog; subst w1. clear Hlog.
  match type of H with context [if ?a =? 0 then _ else if ?b =? 0 then _ else _] =>
    destruct (a =? 0); [|destruct (b =? 0)] end.
  - inversion H; subst w'. simpl. apply devices_below_mono with (n := i); [lia|exact Hd].
  - inversion H; subst w'. simpl. apply devices_below_mono with (n := i); [lia|exact Hd].
  - apply bind_inv in H. destruct H as (ctx & w2 & Hc & H).
    apply cuda_checked_inv in Hc. simpl in Hc. rewrite <- Hc in Hd. clear Hc.
    apply scoped_set_context_inv in H. destruct H as (w3 & H & Hs).
    apply bind_inv in H. destruct H as (subs & w4 & Hsub & H).
    apply create_sub_streams_inv in Hsub. destruct Hsub as (Hs4 & Hl1 & Hl2).
    simpl in Hs4. rewrite <- Hs4 in Hd.
    inversion H; subst w3. rewrite Hs. simpl.
    apply devices_below_snoc; [exact Hd| |reflexivity].
    repeat split; simpl; auto.
Qed.

Lemma init_devices_loop k : forall a w w',
  for_each (map Z.of_nat (seq a k)) (init_device X) w = (Ok tt, w') ->
  devices_below X (Z.of_nat a) (devices (state w)) ->
  devices_below X (Z.of_nat (a + k)) (devices (state w')).
Proof.
  induction k as [|k IH]; intros a w w' H Hd.
  - inversion H; subst. now rewrite Nat.add_0_r.
  - simpl in H. apply bind_inv in H. destruct H as ([] & w1 & H1 & H).
    apply init_device_inv in H1; [|lia|exact Hd].
    replace (a + S k)%nat with (S a + k)%nat by lia.
    apply (IH (S a) w1 w' H).
    replace (Z.of_nat (S a)) with (Z.of_nat a + 1) by lia. exact H1.
Qed.

Lemma init_temp_path_devices s0 t0 :
  hoare (only_events (same_devices s0) any_heap any_event t0) (init_temp_path X)
        (fun _ => only_events (same_devices s0) any_heap any_event t0)
        (fun _ => only_events (same_devices s0) any_heap any_event t0).
Proof. unfold_init. repeat he_step; exact I. Qed.

Lemma init_backends_devices llvm cuda s0 t0 :
  hoare (only_events (same_devices s0) any_heap any_event t0)
        (init_backends X llvm cuda)
        (fun _ => only_events (same_devices s0) any_heap any_event t0)
        (fun _ => only_events (same_devices s0) any_heap any_event t0).
Proof. unfold_init. repeat he_step; try exact I; assumption. Qed.

Lemma init_peer_access_devices s0 t0 :
  hoare (only_events (same_devices s0) any_heap any_event t0)
        (init_peer_access X)
        (fun _ => only_events (same_devices s0) any_heap any_event t0)
        (fun _ => only_events (same_devices s0) any_heap any_event t0).
Proof. unfold_init. repeat he_step; try exact I; assumption. Qed.

Lemma same_devices_run m w w' :
  (forall s0 t0,
     hoare (only_events (same_devices s0) any_heap any_event t0) m
           (fun _ => only_events (same_devices s0) any_heap any_event t0)
           (fun _ => only_events (same_devices s0) any_heap any_event t0)) ->
  m w = (Ok tt, w') -> devices (state w') = devices (state w).
Proof.
  intros Hm H.
  destruct (he_ok_run (same_devices (state w)) any_heap any_event (trace w)
              m w tt w' (Hm _ _)) as (Hs & _); auto.
  apply only_events_start; [reflexivity|exact I].
Qed.

(** When [jit_init] starts without devices and returns, every device it
    registered has an ordinal that is not negative and a pool of
    [ENOKI_SUB_STREAMS] streams and as many events, and the devices are
    listed by increasing ordinal, so that no ordinal occurs twice. *)
Theorem jit_init_registers_devices_in_order (llvm cuda : Z) (w w' : World) :
  devices (state w) = [] ->
  jit_init X llvm cuda w = (Ok tt, w') ->
  Forall (device_ok X) (devices (state w')) /\
  StronglySorted Z.lt (map dev_id (devices (state w'))).
Proof.
  intros Hd H. unfold jit_init in H. cbv zeta in H.
  set (cuda' := match platform X with Apple => 0 | _ => cuda end) in *.
  unfold bind at 1, get_state at 1 in H.
  destruct (has_llvm (state w) || has_cuda (state w) || (llvm =? 0) && (cuda' =? 0)).
  { inversion H; subst w'. rewrite Hd. split; constructor. }
  apply bind_inv in H. destruct H as ([] & w3 & Hdisc & H).
  apply bind_inv in H. destruct H as ([] & w4 & Hpeer & H).
  inversion H; subst w'. simpl. clear H.
  apply (same_devices_run _ _ _ init_peer_access_devices) in Hpeer.
  rewrite Hpeer.
  unfold init_discovery in Hdisc.
  apply bind_inv in Hdisc. destruct Hdisc as ([] & w0 & Htmp & H).
  apply bind_inv in H. destruct H as ([] & w1 & Hlog & H).
  apply bind_inv in H. destruct H as ([] & w2 & Hback & H).
  apply (same_devices_run _ _ _ init_temp_path_devices) in Htmp.
  inversion Hlog; subst w1. clear Hlog.
  apply (same_devices_run _ _ _ (init_backends_devices llvm cuda')) in Hback.
  simpl in Hback.
  assert (Hd2 : devices (state w2) = []) by congruence.
  unfold init_devices in H.
  assert (Hfin : exists n, devices_below X n (devices (state w3))).
  { destruct (cuda' =? 0).
    - inversion H; subst w3. exists 0. rewrite Hd2. split; constructor.
    - unfold bind at 1 in H.
      apply (init_devices_loop _ 0%nat) in H; [eauto|].
      rewrite Hd2. split; constructor. }
  destruct Hfin as (n & Hf & Hs). split; [|exact Hs].
  eapply List.Forall_impl; [|exact Hf]. intros d [Hok _]. exact Hok.
Qed.

End InitDevices.

Lemma substring_length n s : forall m,
  (String.length (substring m n s) <= n)%nat.
Proof.
  revert n. induction s as [|c s IH]; intros n m.
  - destruct m, n; simpl; lia.
  - destruct m as [|m].
    + destruct n as [|n]; simpl; [lia|]. specialize (IH n 0%nat). lia.
    + simpl. apply IH.
Qed.

Section InitDirectory.
Variable X : Externals.

(** The directory of the kernel cache cannot be created.  On a system
    other than Windows with [HOME] set, when a backend is asked for and
    [stat] and [mkdir] both fail on [$HOME/.enoki], [jit_init] ends the
    process with a fatal error that names the directory and
    [strerror(errno)].  The path holds at most 511 characters; it has been
    stored in [jit_temp_path], and nothing else has changed: after the log
    line and the call of [mkdir], no backend is started. *)
Theorem jit_init_directory_failure_is_fatal (llvm cuda : Z) (home : string)
    (w : World) :
  has_llvm (state w) = false ->
  has_cuda (state w) = false ->
  (llvm =? 0) && (match platform X with Apple => 0 | _ => cuda end =? 0) = false ->
  platform X <> Win32 ->
  getenv X "HOME" = Some home ->
  let path := snprintf512 (home ++ "/.enoki") in
  let creating := EvLog Info msg_creating_directory [ArgS path] in
  stat_fails X path = true ->
  mkdir_fails X (trace w ++ [creating]) path = true ->
  (String.length path <= 511)%nat /\
  jit_init X llvm cuda w =
  (Err (Fatal msg_directory_failed [ArgS path; ArgS (strerror_errno X)]),
   mkWorld (state w) (heap w) (thread_state_cuda w) (thread_state_llvm w)
     (Some path) (ctx_stack w)
     (trace w ++ [creating; EvCall (call_mkdir path)])).
Proof.
  intros Hl Hc Hreq Hp Hh path creating Hstat Hmk.
  split; [apply substring_length|].
  unfold jit_init, init_discovery, init_temp_path. cbv zeta.
  unfold bind at 1, get_state at 1. rewrite Hl, Hc, Hreq. cbn [orb].
  rewrite Hh.
  assert (Hpr : match platform X with
                | Win32 =>
                    match GetTempPathW X with
                    | Some t => ret (t ++ "enoki")%string
                    | None =>
                        jit_fail
                          "jit_init(): could not obtain path to temporary directory!" []
                    end
                | _ => @ret string (snprintf512 (home ++ "/.enoki"))
                end = ret path).
  { destruct (platform X); [congruence|reflexivity..]. }
  rewrite Hpr. fold path.
  unfold bind, ret, set_jit_temp_path, jit_log, ext_call, emit, jit_fail, fail.
  simpl. rewrite Hstat. simpl. fold creating.
  unfold msg_creating_directory in creating. fold creating. 
  rewrite Hmk. simpl. rewrite <- app_assoc. reflexivity.
Qed.
End InitDirectory.

(** ** init.cpp: the comparator is a strict weak ordering *)

Lemma version_key_digits s : forall acc,
  version_key (Some acc) s =
  (1, wrap_int (fst (digits_value acc s))) ::
  version_key None (snd (digits_value acc s)).
Proof.
  induction s as [|c s IH]; intros acc; cbn [version_key digits_value];
    [reflexivity|].
  destruct (isdigit c) eqn:Hc.
  - apply IH.
  - cbn [flush app fst snd version_key]. rewrite Hc. reflexivity.
Qed.

Lemma version_key_number s :
  starts_with_digit s = true ->
  version_key None s =
  (1, to_int (fst (strtol s))) :: version_key None (snd (strtol s)).
Proof.
  destruct s as [|c s]; cbn [starts_with_digit]; [discriminate|].
  intros Hc. cbn [version_key]. rewrite Hc.
  rewrite version_key_digits. unfold strtol, wrap_int.
  cbn [digits_value fst snd]. rewrite Hc. reflexivity.
Qed.

Lemma version_key_char c s :
  isdigit c = false ->
  version_key None (String c s) = char_rank c :: version_key None s.
Proof. intros Hc. cbn [version_key]. now rewrite Hc. Qed.

Lemma pair_eqb_refl p : pair_eqb p p = true.
Proof. unfold pair_eqb. now rewrite !Z.eqb_refl. Qed.

Lemma key_skip_common a : forall b,
  key_ltb (version_key None a) (version_key None b) =
  key_ltb (version_key None (fst (skip_common a b)))
          (version_key None (snd (skip_common a b))).
Proof.
  induction a as [|x a IH]; intros b; [reflexivity|].
  destruct b as [|y b]; [reflexivity|].
  cbn [skip_common].
  destruct ((char_code x =? char_code y) && negb (isdigit x)) eqn:H;
    [|reflexivity].
  apply andb_prop in H. destruct H as [Hxy Hd].
  apply Z.eqb_eq in Hxy. apply negb_true_iff in Hd.
  assert (Hdy : isdigit y = false) by (unfold isdigit in *; now rewrite <- Hxy).
  rewrite (version_key_char x a Hd), (version_key_char y b Hdy).
  cbn [key_ltb]. unfold char_rank at 1 2. rewrite Hxy, pair_eqb_refl.
  apply IH.
Qed.

(** Where [skip_common] stops, the two strings do not both go on with the
    same character outside a digit run. *)
Lemma skip_common_stops a : forall b x a' y b',
  fst (skip_common a b) = String x a' ->
  snd (skip_common a b) = String y b' ->
  (char_code x =? char_code y) && negb (isdigit x) = false.
Proof.
  induction a as [|u a IH]; intros b x a' y b' Ha Hb; [discriminate|].
  destruct b as [|v b]; [discriminate|].
  cbn [skip_common] in *.
  destruct ((char_code u =? char_code v) && negb (isdigit u)) eqn:H.
  - eapply IH; eassumption.
  - simpl in *. inversion Ha; inversion Hb; subst. exact H.
Qed.

Lemma skip_common_nul_free a : forall b,
  nul_free b = true -> nul_free (snd (skip_common a b)) = true.
Proof.
  induction a as [|x a IH]; intros b Hb; [exact Hb|].
  destruct b as [|y b]; [exact Hb|]. cbn [skip_common].
  destruct ((char_code x =? char_code y) && negb (isdigit x)); [|exact Hb].
  apply IH. simpl in Hb. apply andb_prop in Hb. apply Hb.
Qed.

Lemma digits_value_nul_free s : forall acc,
  nul_free s = true -> nul_free (snd (digits_value acc s)) = true.
Proof.
  induction s as [|c s IH]; intros acc H; [exact H|]. simpl.
  destruct (isdigit c); [|exact H]. apply IH.
  simpl in H. apply andb_prop in H. apply H.
Qed.

Lemma isdigit_code c : isdigit c = true <-> 48 <= char_code c <= 57.
Proof.
  unfold isdigit. rewrite andb_true_iff, !Z.leb_le. tauto.
Qed.

Lemma version_key_head_digit c s :
  isdigit c = true ->
  exists v k, version_key None (String c s) = (1, v) :: k.
Proof.
  intros Hc. rewrite (version_key_number (String c s)) by exact Hc. eauto.
Qed.

(** The comparator is the lexicographic order of the keys. *)
Lemma natural_less_fuel_key n : forall a b,
  (String.length a < n)%nat -> nul_free b = true ->
  natural_less_fuel n a b =
  key_ltb (version_key None a) (version_key None b).
Proof.
  induction n as [|n IH]; intros a b Hn Hb; [lia|].
  cbn [natural_less_fuel]. rewrite (key_skip_common a b).
  pose proof (skip_common_length a b) as Hlen.
  pose proof (skip_common_nul_free a b Hb) as Hb1.
  pose proof (skip_common_stops a b) as Hstop.
  destruct (skip_common a b) as [a1 b1]. cbn [fst snd] in *.
  destruct (starts_with_digit a1) eqn:Ha1; cbn [andb].
  - destruct (starts_with_digit b1) eqn:Hd1.
    + rewrite (version_key_number a1 Ha1), (version_key_number b1 Hd1).
      cbn [key_ltb]. unfold pair_eqb, pair_ltb. cbn [fst snd].
      rewrite Z.eqb_refl, Z.ltb_irrefl. cbn [andb orb].
      destruct (to_int (fst (strtol a1)) =? to_int (fst (strtol b1))) eqn:He;
        cbn [negb]; [|reflexivity].
      apply IH.
      * pose proof (strtol_consumes _ Ha1). lia.
      * unfold strtol. cbn [snd]. now apply digits_value_nul_free.
    + destruct a1 as [|x a']; [discriminate|]. simpl in Ha1.
      destruct (version_key_head_digit x a' Ha1) as (v & k & ->).
      destruct b1 as [|y b'].
      * cbn [strcmp key_ltb version_key flush]. apply Z.ltb_ge.
        unfold char_code. lia.
      * simpl in Hd1. rewrite (version_key_char y b' Hd1).
        cbn [key_ltb strcmp]. unfold pair_eqb, pair_ltb, char_rank. cbn [fst snd].
        apply isdigit_code in Ha1.
        assert (Hy : char_code y < 48 \/ 57 < char_code y).
        { unfold isdigit in Hd1. apply andb_false_iff in Hd1.
          rewrite !Z.leb_gt in Hd1. lia. }
        destruct (Z.eqb_spec (char_code x) (char_code y)); [lia|].
        destruct (char_code y <? 48) eqn:Hy48.
        -- apply Z.ltb_lt in Hy48. simpl. apply Z.ltb_ge. lia.
        -- apply Z.ltb_ge in Hy48. simpl. apply Z.ltb_lt. lia.
  - destruct a1 as [|x a'].
    + destruct b1 as [|y b']; [reflexivity|].
      assert (Hne : exists p k, version_key None (String y b') = p :: k).
      { destruct (isdigit y) eqn:Hy.
        - destruct (version_key_head_digit y b' Hy) as (v & k & ->). eauto.
        - rewrite (version_key_char y b' Hy). eauto. }
      destruct Hne as (p & k & ->). simpl.
      simpl in Hb1. apply andb_prop in Hb1. destruct Hb1 as [Hy0 _].
      apply negb_true_iff, Z.eqb_neq in Hy0.
      assert (0 <= char_code y) by (unfold char_code; lia).
      apply Z.ltb_lt. lia.
    + simpl in Ha1. rewrite (version_key_char x a' Ha1).
      assert (Hx : char_code x < 48 \/ 57 < char_code x).
      { unfold isdigit in Ha1. apply andb_false_iff in Ha1.
        rewrite !Z.leb_gt in Ha1. lia. }
      destruct b1 as [|y b'].
      * simpl. apply Z.ltb_ge. unfold char_code. lia.
      * specialize (Hstop x a' y b' eq_refl eq_refl).
        rewrite Ha1 in Hstop. cbn [negb] in Hstop. rewrite andb_true_r in Hstop.
        cbn [strcmp]. rewrite Hstop. apply Z.eqb_neq in Hstop.
        destruct (isdigit y) eqn:Hy.
        -- destruct (version_key_head_digit y b' Hy) as (v & k & ->).
           cbn [key_ltb]. unfold pair_eqb, pair_ltb, char_rank. cbn [fst snd].
           apply isdigit_code in Hy.
           destruct (char_code x <? 48) eqn:Hx48.
           ++ apply Z.ltb_lt in Hx48. simpl. apply Z.ltb_lt. lia.
           ++ apply Z.ltb_ge in Hx48. simpl. apply Z.ltb_ge. lia.
        -- rewrite (version_key_char y b' Hy).
           cbn [key_ltb]. unfold pair_eqb, pair_ltb, char_rank. cbn [fst snd].
           assert (Hyr : char_code y < 48 \/ 57 < char_code y).
           { unfold isdigit in Hy. apply andb_false_iff in Hy.
             rewrite !Z.leb_gt in Hy. lia. }
           destruct (char_code x <? 48) eqn:Hx48;
             destruct (char_code y <? 48) eqn:Hy48;
             rewrite ?Z.ltb_lt, ?Z.ltb_ge in *; simpl;
             destruct (Z.eqb_spec (char_code x) (char_code y)); try lia;
             simpl; try reflexivity;
             destruct (Z.ltb_spec (char_code x - char_code y) 0);
             destruct (Z.ltb_spec (char_code x) (char_code y)); try lia;
             reflexivity.
Qed.

Lemma natural_less_key a b :
  nul_free b = true ->
  natural_less a b = key_ltb (version_key None a) (version_key None b).
Proof. intros Hb. apply natural_less_fuel_key; [lia|exact Hb]. Qed.

Lemma pair_eqb_eq p q : pair_eqb p q = true <-> p = q.
Proof.
  destruct p as [p1 p2], q as [q1 q2]. unfold pair_eqb. simpl.
  rewrite andb_true_iff, !Z.eqb_eq. split; [intros [-> ->]; reflexivity|].
  intros H. inversion H. auto.
Qed.

Lemma pair_ltb_spec p q :
  pair_ltb p q = true <->
  fst p < fst q \/ (fst p = fst q /\ snd p < snd q).
Proof.
  unfold pair_ltb. rewrite orb_true_iff, andb_true_iff, !Z.ltb_lt, Z.eqb_eq.
  tauto.
Qed.

Lemma key_ltb_trans k1 : forall k2 k3,
  key_ltb k1 k2 = true -> key_ltb k2 k3 = true -> key_ltb k1 k3 = true.
Proof.
  induction k1 as [|p k1 IH]; intros k2 k3 H12 H23.
  - destruct k2 as [|q k2]; [discriminate|].
    destruct k3 as [|r k3]; [discriminate|reflexivity].
  - destruct k2 as [|q k2]; [discriminate|].
    destruct k3 as [|r k3]; [discriminate|].
    cbn [key_ltb] in *.
    destruct (pair_eqb p q) eqn:Hpq.
    + apply pair_eqb_eq in Hpq. subst q.
      destruct (pair_eqb p r); [eapply IH; eassumption|exact H23].
    + destruct (pair_eqb q r) eqn:Hqr.
      * apply pair_eqb_eq in Hqr. subst r. rewrite Hpq. exact H12.
      * apply pair_ltb_spec in H12. apply pair_ltb_spec in H23.
        destruct (pair_eqb p r) eqn:Hpr.
        -- apply pair_eqb_eq in Hpr. subst r. lia.
        -- apply pair_ltb_spec. lia.
Qed.

(** Keys that are not ordered either way are equal. *)
Lemma key_ltb_total k1 : forall k2,
  key_ltb k1 k2 = false -> key_ltb k2 k1 = false -> k1 = k2.
Proof.
  induction k1 as [|p k1 IH]; intros k2 H12 H21.
  - destruct k2; [reflexivity|discriminate].
  - destruct k2 as [|q k2]; [discriminate|]. cbn [key_ltb] in *.
    destruct (pair_eqb p q) eqn:Hpq.
    + apply pair_eqb_eq in Hpq. subst q. rewrite pair_eqb_refl in H21.
      f_equal. now apply IH.
    + destruct (pair_eqb q p) eqn:Hqp.
      * apply pair_eqb_eq in Hqp. subst q. now rewrite pair_eqb_refl in Hpq.
      * exfalso.
        assert (Hne : p <> q) by (intros ->; now rewrite pair_eqb_refl in Hpq).
        apply Hne. destruct p as [p1 p2], q as [q1 q2].
        unfold pair_ltb in *. simpl in *.
        apply orb_false_iff in H12. apply orb_false_iff in H21.
        destruct H12 as [A1 A2]. destruct H21 as [B1 B2].
        apply Z.ltb_ge in A1. apply Z.ltb_ge in B1.
        assert (p1 = q1) by lia. subst q1.
        rewrite Z.eqb_refl in A2, B2. simpl in A2, B2.
        apply Z.ltb_ge in A2. apply Z.ltb_ge in B2.
        f_equal. lia.
Qed.

Lemma key_ltb_irrefl k : key_ltb k k = false.
Proof.
  induction k as [|p k IH]; [reflexivity|]. cbn [key_ltb].
  now rewrite pair_eqb_refl.
Qed.

(** The comparator is a strict weak ordering, as [std::sort] requires:
    it is transitive, and so is the relation "neither path is put before
    the other"; the wrap-around of large numbers does not break this. *)
Theorem natural_less_strict_weak_order (a b c : string) :
  nul_free a = true -> nul_free b = true -> nul_free c = true ->
  natural_less a a = false /\
  (natural_less a b = true -> natural_less b a = false) /\
  (natural_less a b = true -> natural_less b c = true ->
   natural_less a c = true) /\
  (equivalent_paths a b -> equivalent_paths b c -> equivalent_paths a c).
Proof.
  intros Ha Hb Hc. unfold equivalent_paths.
  rewrite !natural_less_key by assumption.
  set (ka := version_key None a). set (kb := version_key None b).
  set (kc := version_key None c).
  split; [apply key_ltb_irrefl|]. split; [|split].
  - intros H. destruct (key_ltb kb ka) eqn:H'; [|reflexivity].
    pose proof (key_ltb_trans _ _ _ H H') as Hx.
    now rewrite key_ltb_irrefl in Hx.
  - apply key_ltb_trans.
  - intros [H1 H2] [H3 H4].
    assert (Hab : ka = kb) by now apply key_ltb_total.
    assert (Hbc : kb = kc) by now apply key_ltb_total.
    rewrite Hab, Hbc. split; apply key_ltb_irrefl.
Qed.

Lemma natural_less_strict_weak_order_witness :
  natural_less "libLLVM-9.so" "libLLVM-9.so" = false /\
  (natural_less "libLLVM-9.so" "libLLVM-10.so" = true ->
   natural_less "libLLVM-10.so" "libLLVM-9.so" = false) /\
  (natural_less "libLLVM-9.so" "libLLVM-10.so" = true ->
   natural_less "libLLVM-10.so" "libLLVM.so" = true ->
   natural_less "libLLVM-9.so" "libLLVM.so" = true) /\
  (equivalent_paths "libLLVM-9.so" "libLLVM-10.so" ->
   equivalent_paths "libLLVM-10.so" "libLLVM.so" ->
   equivalent_paths "libLLVM-9.so" "libLLVM.so").
Proof.
  apply (natural_less_strict_weak_order "libLLVM-9.so" "libLLVM-10.so"
           "libLLVM.so"); reflexivity.
Defined.

(** ** llvm_core.cpp: a successful start, and the shutdown after it *)

Section LLVMSuccess.
Variable env : LLVMEnv.

Lemma jitc_llvm_init_engine_state st t :
  jitc_llvm_init_attempted st = false ->
  reaches_engines env t ->
  1 < detect_vector_width env (LLVMGetHostCPUFeatures env) ->
  orcv2_usable env t || mcjit_usable env t = true ->
  jitc_llvm_init env st =
  (true,
   llvm_finish env
     (llvm_set_engine (orcv2_usable env t)
        (llvm_set_width env (llvm_query_host env (llvm_attempt env st))))).
Proof.
  intros Ha (Ht & Hc & Hpb & Hfma) Hw He. apply Z.ltb_lt in Hw.
  unfold jitc_llvm_init. rewrite Ha, Ht.
  unfold jitc_llvm_api_has_core, jitc_llvm_api_has_pb_new,
    jitc_llvm_api_has_pb_legacy, jitc_llvm_api_has_orcv2,
    jitc_llvm_api_has_mcjit, group_resolved.
  cbn -[detect_vector_width Z.ltb].
  rewrite Ht, Hc. cbn [negb].
  replace (negb (all_resolved (syms_pb_new t)) && negb (all_resolved (syms_pb_legacy t)))
    with false by (destruct Hpb as [-> | ->]; cbn; rewrite ?andb_false_r; reflexivity).
  replace (negb (is_aarch64 env) && negb (found (strstr (LLVMGetHostCPUFeatures env) "+fma")))
    with false by (destruct Hfma as [-> | ->]; cbn; rewrite ?andb_false_r; reflexivity).
  cbn -[detect_vector_width Z.ltb]. rewrite ?Hw.
  cbn -[detect_vector_width Z.ltb]. rewrite ?Ht, ?Hw.
  unfold orcv2_usable, mcjit_usable in *.
  destruct (all_resolved (syms_orcv2 t) && orcv2_init_result env) eqn:Ho.
  - cbn -[detect_vector_width Z.ltb]. rewrite ?Hw. reflexivity.
  - simpl in He. rewrite He.
    cbn -[detect_vector_width Z.ltb]. rewrite ?Hw. reflexivity.
Qed.

(** The backend starts: ORCv2 is used when it can be initialised and
    MCJIT otherwise, and a second call returns the recorded answer
    without doing anything. *)
Theorem jitc_llvm_init_succeeds (st : LLVMState) (t : LLVMApi) :
  jitc_llvm_init_attempted st = false ->
  reaches_engines env t ->
  1 < detect_vector_width env (LLVMGetHostCPUFeatures env) ->
  orcv2_usable env t || mcjit_usable env t = true ->
  let st1 := snd (jitc_llvm_init env st) in
  fst (jitc_llvm_init env st) = true /\
  jitc_llvm_use_orcv2 st1 = orcv2_usable env t /\
  llvm_api st1 = Some t /\
  jitc_llvm_vector_width st1 =
    detect_vector_width env (LLVMGetHostCPUFeatures env) /\
  jitc_llvm_max_align st1 =
    uint32 (detect_vector_width env (LLVMGetHostCPUFeatures env) * 4) /\
  jitc_llvm_opaque_pointers st1 = (15 <=? jitc_llvm_version_major env) /\
  jitc_llvm_init env st1 = (true, st1).
Proof.
  intros Ha Hr Hw He. cbv zeta.
  rewrite (jitc_llvm_init_engine_state st t Ha Hr Hw He).
  destruct Hr as (Ht & _). apply Z.ltb_lt in Hw.
  cbn -[detect_vector_width Z.ltb uint32 Z.leb]. rewrite Ht.
  repeat split.
  unfold jitc_llvm_init. cbn -[detect_vector_width Z.ltb uint32 Z.leb].
  rewrite Hw. reflexivity.
Qed.

(** Shutdown after a successful start: the API table, the engines and
    the disassembler are released, the flags and the vector width are
    reset, and the pointers to the name and the features of the processor
    are reset; the pointer to the target triple is not reset and keeps the
    address of the string that was disposed.  A further shutdown does
    nothing, and the backend can be started again. *)
Theorem jitc_llvm_shutdown_after_init (st : LLVMState) (t : LLVMApi) :
  jitc_llvm_init_attempted st = false ->
  reaches_engines env t ->
  1 < detect_vector_width env (LLVMGetHostCPUFeatures env) ->
  orcv2_usable env t || mcjit_usable env t = true ->
  let st2 := jitc_llvm_shutdown (snd (jitc_llvm_init env st)) in
  llvm_api st2 = None /\
  jitc_llvm_init_attempted st2 = false /\
  jitc_llvm_init_success st2 = false /\
  jitc_llvm_target_triple st2 = Some (LLVMGetDefaultTargetTriple env) /\
  jitc_llvm_target_cpu st2 = None /\
  jitc_llvm_target_features st2 = None /\
  jitc_llvm_disasm_ctx st2 = false /\
  orcv2_active st2 = false /\ mcjit_active st2 = false /\
  jitc_llvm_vector_width st2 = 0 /\
  jitc_llvm_shutdown st2 = st2 /\
  fst (jitc_llvm_init env st2) = true.
Proof.
  intros Ha Hr Hw He. cbv zeta.
  rewrite (jitc_llvm_init_engine_state st t Ha Hr Hw He).
  assert (Hw' := Hw). apply Z.ltb_lt in Hw'.
  remember (jitc_llvm_shutdown _) as st2 eqn:Hst2.
  unfold jitc_llvm_shutdown in Hst2.
  cbn -[detect_vector_width Z.ltb uint32 Z.leb] in Hst2. rewrite Hw' in Hst2.
  cbn -[detect_vector_width Z.ltb uint32 Z.leb] in Hst2.
  subst st2. repeat split.
  match goal with |- fst (jitc_llvm_init env ?s) = true =>
    rewrite (jitc_llvm_init_engine_state s t eq_refl Hr Hw He) end.
  reflexivity.
Qed.
End LLVMSuccess.

(** ** llvm_core.cpp: the target and the strings of all-ones vectors *)

(** The target that was set last is the one in force, also when it names
    no features; a shutdown forgets it. *)
Theorem jitc_llvm_set_target_last_wins (cpu cpu' : string)
    (features features' : option string) (width width' : Z) (st : LLVMState) :
  jitc_llvm_set_target cpu' features' width'
    (jitc_llvm_set_target cpu features width st)
  = jitc_llvm_set_target cpu' features' width' st /\
  jitc_llvm_shutdown (jitc_llvm_set_target cpu features width st)
  = jitc_llvm_shutdown st.
Proof.
  unfold jitc_llvm_set_target, jitc_llvm_shutdown.
  destruct (jitc_llvm_init_success st) eqn:H; cbn; rewrite ?H; cbn;
    split; reflexivity.
Qed.

Lemma string_app_assoc (a b c : string) : ((a ++ b) ++ c = a ++ (b ++ c))%string.
Proof.
  induction a as [|x a IH]; [reflexivity|].
  change (String x ((a ++ b) ++ c) = String x (a ++ (b ++ c)))%string.
  now rewrite IH.
Qed.

Lemma string_app_nil_r (a : string) : (a ++ "" = a)%string.
Proof.
  induction a as [|x a IH]; [reflexivity|].
  change (String x (a ++ "") = String x a)%string. now rewrite IH.
Qed.

Section UpdateStringsFacts.
Variable T : VarTypes.

Lemma put_hex_spec n : forall k i buf,
  0 <= k -> 0 <= type_size T i -> 2 * type_size T i < 2 ^ 32 ->
  put_hex T n k i buf =
  (buf ++
   string_repeat "F" (Nat.min n (Z.to_nat (2 * type_size T i - k))) ++
   string_repeat "0" (n - Z.to_nat (2 * type_size T i - k)))%string.
Proof.
  induction n as [|n IH]; intros k i buf Hk Hs Hb.
  - simpl. now rewrite string_app_nil_r.
  - cbn [put_hex]. rewrite IH by lia.
    unfold uint32. rewrite Z.mod_small by lia.
    destruct (Z.ltb_spec k (2 * type_size T i)).
    + replace (Z.to_nat (2 * type_size T i - k))
        with (S (Z.to_nat (2 * type_size T i - (k + 1)))) by lia.
      cbn [Nat.min string_repeat Nat.sub]. rewrite !string_app_assoc.
      reflexivity.
    + replace (Z.to_nat (2 * type_size T i - k)) with O by lia.
      replace (Z.to_nat (2 * type_size T i - (k + 1))) with O by lia.
      rewrite !Nat.min_0_r, !Nat.sub_0_r. cbn [string_repeat].
      rewrite !string_app_assoc. reflexivity.
Qed.

Lemma put_ones_spec i buf :
  0 <= type_size T i -> 2 * type_size T i < 2 ^ 32 ->
  put_ones T i buf = (buf ++ ones_literal T i)%string.
Proof.
  intros Hs Hb. unfold put_ones, ones_literal.
  destruct (Nat.eqb i (VarType_Bool T)); [reflexivity|].
  destruct (is_float_type T i); [|reflexivity].
  rewrite put_hex_spec by lia. rewrite Z.sub_0_r, !string_app_assoc.
  replace (Nat.min 16 (Z.to_nat (2 * type_size T i)))
    with (Z.to_nat (Z.min 16 (2 * type_size T i))) by lia.
  replace (16 - Z.to_nat (2 * type_size T i))%nat
    with (16 - Z.to_nat (Z.min 16 (2 * type_size T i)))%nat by lia.
  reflexivity.
Qed.

Lemma put_elements_spec i width n : forall j buf,
  0 <= type_size T i -> 2 * type_size T i < 2 ^ 32 ->
  j + Z.of_nat n = width ->
  put_elements T i width n j buf =
  (buf ++ String.concat ", " (repeat (ones_element T i) n))%string.
Proof.
  induction n as [|n IH]; intros j buf Hs Hb Hj.
  - simpl. now rewrite string_app_nil_r.
  - cbn [put_elements]. cbv zeta. rewrite put_ones_spec by assumption.
    rewrite IH by (try assumption; lia).
    destruct n as [|n].
    + replace (j + 1 <? width) with false by (symmetry; apply Z.ltb_ge; lia).
      simpl. unfold ones_element. rewrite !string_app_assoc, string_app_nil_r.
      reflexivity.
    + replace (j + 1 <? width) with true by (symmetry; apply Z.ltb_lt; lia).
      cbn [repeat String.concat]. unfold ones_element.
      rewrite !string_app_assoc. reflexivity.
Qed.

(** The string of all-ones for a type is a vector literal of [width]
    equal elements, separated by commas, between angle brackets.  An
    element is the LLVM name of the type, a space, and [1] for [Bool], [-1]
    for the integer types, and for the floating-point types [0x] followed
    by 16 digits, of which the first [2 * size] (at most 16) are [F] and
    the others [0]. *)
Theorem jitc_llvm_update_strings_elements (width : Z) (i : nat) :
  0 <= width < 2 ^ 32 ->
  (i < VarType_Count T)%nat ->
  0 <= type_size T i -> 2 * type_size T i < 2 ^ 32 ->
  nth_error (jitc_llvm_update_strings T width) i =
  Some ("<" ++ String.concat ", " (repeat (ones_element T i) (Z.to_nat width))
            ++ ">")%string.
Proof.
  intros Hw Hi Hs Hb. unfold jitc_llvm_update_strings.
  rewrite nth_error_map, nth_error_seq.
  replace (i <? VarType_Count T)%nat with true
    by (symmetry; apply Nat.ltb_lt; exact Hi).
  simpl. unfold ones_str. rewrite put_elements_spec by (try assumption; lia).
  reflexivity.
Qed.
End UpdateStringsFacts.

(** ** llvm_core.cpp: [jitc_llvm_disasm] *)

Section DisasmFacts.
Variable D : Z -> Z -> Z * string.

Lemma size_t_small z : 0 <= z < 2 ^ 64 -> size_t z = z.
Proof. intros H. unfold size_t. now apply Z.mod_small. Qed.

Lemma size_t_range z : 0 <= size_t z < 2 ^ 64.
Proof. unfold size_t. apply Z.mod_pos_bound. lia. Qed.

(** The loop ends by itself: once the fuel exceeds the bytes that are
    left, more fuel changes nothing, and every call stays in bounds. *)
Lemma disasm_loop_spec k base : forall n ptr last_nop,
  disasm_sized D ->
  0 <= kernel_size k < 2 ^ 32 -> 0 <= kernel_data k ->
  kernel_data k + kernel_size k <= 2 ^ 64 ->
  kernel_data k <= ptr <= kernel_data k + kernel_size k ->
  (kernel_data k + kernel_size k - ptr < Z.of_nat n) ->
  Forall (call_in_bounds k) (disasm_loop D n k base ptr last_nop) /\
  forall m, (n <= m)%nat ->
    disasm_loop D m k base ptr last_nop = disasm_loop D n k base ptr last_nop.
Proof.
  induction n as [|n IH]; intros ptr last_nop HD Hs Hd He Hp Hn; [lia|].
  - assert (Hstep : forall m, disasm_loop D (S m) k base ptr last_nop =
      (let offset := size_t (ptr - kernel_data k) in
       let func_offset := size_t (ptr - base) in
       if kernel_size k <=? offset then []
       else
         let r := D ptr (size_t (kernel_size k - offset)) in
         let size := size_t (fst r) in
         DisasmCall ptr (size_t (kernel_size k - offset)) ::
         if size =? 0 then []
         else
           let start := skip_blanks (snd r) in
           if strcmp start "nop" =? 0 then
             (if last_nop then [] else [DisasmLog msg_disasm_nops []]) ++
             disasm_loop D m k base (ptr + size) true
           else
             DisasmLog msg_disasm_line [ArgI (uint32 func_offset); ArgS start] ::
             if String.prefix "ret" start then []
             else disasm_loop D m k base (ptr + size) false)) by reflexivity.
    destruct (Z.lt_ge_cases (ptr - kernel_data k) (kernel_size k)) as [Hin|Hout].
    + assert (Hoff : size_t (ptr - kernel_data k) = ptr - kernel_data k)
        by (apply size_t_small; lia).
      assert (Hav : size_t (kernel_size k - (ptr - kernel_data k))
                    = kernel_size k - (ptr - kernel_data k))
        by (apply size_t_small; lia).
      assert (Hlt : (kernel_size k <=? ptr - kernel_data k) = false)
        by (apply Z.leb_gt; lia).
      pose proof (size_t_range (fst (D ptr (kernel_size k - (ptr - kernel_data k))))) as Hsz.
      pose proof (HD ptr (kernel_size k - (ptr - kernel_data k))
                    ltac:(lia)) as Hle.
      assert (Hcall : call_in_bounds k
                (DisasmCall ptr (kernel_size k - (ptr - kernel_data k))))
        by (cbn; lia).
      split.
      * rewrite Hstep. cbv zeta. rewrite Hoff, Hlt, Hav.
        constructor; [exact Hcall|].
        destruct (Z.eqb_spec (size_t (fst (D ptr (kernel_size k - (ptr - kernel_data k))))) 0) as [|Hnz];
          [constructor|].
        destruct (strcmp _ "nop" =? 0).
        -- apply Forall_app. split.
           ++ destruct last_nop; repeat constructor.
           ++ apply IH; [exact HD|lia..].
        -- constructor; [exact I|].
           destruct (String.prefix "ret" _); [constructor|].
           apply IH; [exact HD|lia..].
      * intros m Hm. destruct m as [|m]; [lia|].
        rewrite !Hstep. cbv zeta. rewrite Hoff, Hlt, Hav.
        f_equal.
        destruct (Z.eqb_spec (size_t (fst (D ptr (kernel_size k - (ptr - kernel_data k))))) 0) as [|Hnz];
          [reflexivity|].
        destruct (strcmp _ "nop" =? 0).
        -- f_equal. apply IH; [exact HD|lia..].
        -- f_equal. destruct (String.prefix "ret" _); [reflexivity|].
           apply IH; [exact HD|lia..].
    + assert (Hge : kernel_size k <= size_t (ptr - kernel_data k))
        by (rewrite size_t_small by lia; lia).
      apply Z.leb_le in Hge.
      split.
      * rewrite Hstep. cbv zeta. rewrite Hge. constructor.
      * intros m Hm. destruct m as [|m]; [lia|].
        rewrite !Hstep. cbv zeta. now rewrite Hge.
Qed.

Lemma log_lines_call p a l : log_lines (DisasmCall p a :: l) = log_lines l.
Proof. reflexivity. Qed.

Lemma log_lines_log f a l :
  log_lines (DisasmLog f a :: l) = DisasmLog f a :: log_lines l.
Proof. reflexivity. Qed.

(** The lines of one function: no two lines of dots in a row, and none
    at the start when the instruction before was a nop. *)
Lemma disasm_loop_nops k base : forall n ptr last_nop,
  nops_collapsed (log_lines (disasm_loop D n k base ptr last_nop)) /\
  (last_nop = true ->
   match log_lines (disasm_loop D n k base ptr last_nop) return Prop with
   | e :: _ => is_nops_line e = false
   | [] => True
   end).
Proof.
  induction n as [|n IH]; intros ptr last_nop; [split; [exact I|intros _; exact I]|].
  cbn [disasm_loop]. cbv zeta.
  destruct (kernel_size k <=? _); [split; [exact I|intros _; exact I]|].
  rewrite log_lines_call.
  destruct (_ =? 0); [split; [exact I|intros _; exact I]|].
  destruct (strcmp _ "nop" =? 0).
  - destruct (IH (ptr + size_t (fst (D ptr (size_t (kernel_size k - size_t (ptr - kernel_data k)))))) true) as [IH1 IH2].
    specialize (IH2 eq_refl).
    destruct last_nop.
    + cbn [app]. split; [exact IH1|intros _; exact IH2].
    + cbn [app]. rewrite log_lines_log. split; [|discriminate].
      destruct (log_lines _) as [|e l] eqn:E; [exact I|].
      cbn [nops_collapsed]. split; [|exact IH1].
      rewrite IH2. apply andb_false_r.
  - rewrite log_lines_log.
    destruct (String.prefix "ret" _).
    + split; [exact I|intros _; reflexivity].
    + destruct (IH (ptr + size_t (fst (D ptr (size_t (kernel_size k - size_t (ptr - kernel_data k)))))) false) as [IH1 _].
      split; [|intros _; reflexivity].
      destruct (log_lines _) as [|e l] eqn:E; [exact I|].
      cbn [nops_collapsed]. split; [reflexivity|exact IH1].
Qed.

Lemma disasm_functions_in_bounds k : forall relocs i,
  disasm_sized D ->
  0 <= kernel_size k < 2 ^ 32 -> 0 <= kernel_data k ->
  kernel_data k + kernel_size k <= 2 ^ 64 ->
  Forall (fun base => kernel_data k <= base <= kernel_data k + kernel_size k) relocs ->
  Forall (call_in_bounds k) (disasm_functions D k i relocs).
Proof.
  induction relocs as [|base rest IH]; intros i HD Hs Hd He Hr; [constructor|].
  inversion Hr as [|? ? Hb Hrest]; subst.
  cbn [disasm_functions]. apply Forall_app. split; [|now apply IH].
  unfold disasm_function. destruct (i =? 1); [constructor|].
  constructor; [exact I|].
  apply disasm_loop_spec; try assumption. lia.
Qed.

Lemma log_lines_app l1 l2 : log_lines (l1 ++ l2) = log_lines l1 ++ log_lines l2.
Proof. apply List.filter_app. Qed.

Lemma nops_collapsed_app l1 : forall l2,
  nops_collapsed l1 -> nops_collapsed l2 ->
  match l2 return Prop with
  | e :: _ => is_nops_line e = false
  | [] => True
  end ->
  nops_collapsed (l1 ++ l2).
Proof.
  induction l1 as [|e1 l1 IH]; intros l2 H1 H2 H3; [exact H2|].
  destruct l1 as [|e2 l1].
  - destruct l2 as [|e l2]; [exact I|].
    cbn [app nops_collapsed]. split; [|exact H2].
    rewrite H3. apply andb_false_r.
  - cbn [nops_collapsed] in H1. destruct H1 as [H1 H1'].
    change (nops_collapsed (e1 :: e2 :: (l1 ++ l2))).
    cbn [nops_collapsed]. split; [exact H1|].
    apply (IH l2 H1' H2 H3).
Qed.

Lemma disasm_function_nops k i base :
  nops_collapsed (log_lines (disasm_function D k i base)) /\
  match log_lines (disasm_function D k i base) return Prop with
  | e :: _ => is_nops_line e = false
  | [] => True
  end.
Proof.
  unfold disasm_function. destruct (i =? 1); [split; exact I|].
  rewrite log_lines_log. split; [|reflexivity].
  destruct (disasm_loop_nops k base (S (Z.to_nat (kernel_size k))) base false)
    as [H _].
  destruct (log_lines _) as [|e l]; [exact I|].
  cbn [nops_collapsed]. split; [reflexivity|exact H].
Qed.

Lemma disasm_functions_nops k : forall relocs i,
  nops_collapsed (log_lines (disasm_functions D k i relocs)) /\
  match log_lines (disasm_functions D k i relocs) return Prop with
  | e :: _ => is_nops_line e = false
  | [] => True
  end.
Proof.
  induction relocs as [|base rest IH]; intros i; [split; exact I|].
  cbn [disasm_functions]. rewrite log_lines_app.
  destruct (disasm_function_nops k i base) as [F1 F2].
  destruct (IH (uint32 (i + 1))) as [R1 R2].
  split; [now apply nops_collapsed_app|].
  destruct (log_lines (disasm_function D k i base)); [exact R2|exact F2].
Qed.

Lemma ret_is_last_nil : ret_is_last [].
Proof. intros [|x l1] e l2 H; discriminate. Qed.

Lemma ret_is_last_one x : ret_is_last [x].
Proof.
  intros [|y l1] e l2 H _.
  - now inversion H.
  - inversion H as [[Hx Hl]]. destruct l1; discriminate.
Qed.

Lemma ret_is_last_cons x l :
  is_ret_line x = false -> ret_is_last l -> ret_is_last (x :: l).
Proof.
  intros Hx Hl [|y l1] e l2 H He.
  - inversion H; subst. congruence.
  - inversion H; subst. now apply (Hl l1 e l2).
Qed.

Lemma disasm_loop_ret k base : forall n ptr last_nop,
  ret_is_last (disasm_loop D n k base ptr last_nop).
Proof.
  induction n as [|n IH]; intros ptr last_nop; [apply ret_is_last_nil|].
  cbn [disasm_loop]. cbv zeta.
  destruct (kernel_size k <=? _); [apply ret_is_last_nil|].
  apply ret_is_last_cons; [reflexivity|].
  destruct (_ =? 0); [apply ret_is_last_nil|].
  destruct (strcmp _ "nop" =? 0).
  - destruct last_nop; cbn [app]; [apply IH|].
    apply ret_is_last_cons; [reflexivity|apply IH].
  - destruct (String.prefix "ret" _) eqn:Hret.
    + apply ret_is_last_one.
    + apply ret_is_last_cons; [|apply IH].
      cbn [is_ret_line]. rewrite Hret. apply andb_false_r.
Qed.

(** The listing of a function ends with its return instruction: once a
    line that starts with [ret] has been logged, nothing more is
    disassembled or logged for this function. *)
Theorem jitc_llvm_disasm_stops_at_ret (k : Kernel) (i base : Z)
    (l1 l2 : list DisasmEvent) (e : DisasmEvent) :
  disasm_function D k i base = l1 ++ e :: l2 ->
  is_ret_line e = true ->
  l2 = [].
Proof.
  intros H He. revert l1 e l2 H He. fold (ret_is_last (disasm_function D k i base)).
  unfold disasm_function. destruct (i =? 1); [apply ret_is_last_nil|].
  apply ret_is_last_cons; [reflexivity|apply disasm_loop_ret].
Qed.

(** The disassembler is only ever pointed at bytes of the kernel, and
    the loop over a function ends.  When the kernel's code lies in the
    address space, every function starts inside it and the disassembler
    reports no more bytes than it is given, every call of
    [LLVMDisasmInstruction] starts at a byte of the kernel and is allowed
    to read up to the kernel's last byte and no further; and the loop over
    a function makes at most one iteration more than the kernel has
    bytes. *)
Theorem jitc_llvm_disasm_stays_in_kernel (s : State) (k : Kernel) :
  disasm_sized D -> kernel_wf k ->
  Forall (call_in_bounds k) (jitc_llvm_disasm D s k) /\
  (forall base m,
     In base (kernel_reloc k) -> (S (Z.to_nat (kernel_size k)) <= m)%nat ->
     disasm_loop D m k base base false =
     disasm_loop D (S (Z.to_nat (kernel_size k))) k base base false).
Proof.
  intros HD (Hs & Hd & He & Hr). split.
  - unfold jitc_llvm_disasm. destruct (_ <? _); [constructor|].
    now apply disasm_functions_in_bounds.
  - intros base m Hin Hm.
    rewrite List.Forall_forall in Hr. specialize (Hr base Hin).
    apply disasm_loop_spec; try assumption. lia.
Qed.

(** Runs of [nop] instructions are shown as one line of dots: in the
    lines that [jitc_llvm_disasm] logs, no line of dots follows another
    one. *)
Theorem jitc_llvm_disasm_collapses_nops (s : State) (k : Kernel) :
  nops_collapsed (log_lines (jitc_llvm_disasm D s k)).
Proof.
  unfold jitc_llvm_disasm. destruct (_ <? _); [exact I|].
  apply disasm_functions_nops.
Qed.
End DisasmFacts.

(** * Concrete runs of the further properties *)

Lemma plain_driver_ok : driver_ok plain_externals.
Proof. intros h cur c. reflexivity. Qed.

Lemma plain_dec_ref_frame : dec_ref_frame plain_externals.
Proof. intros i s. repeat split. Qed.

Lemma jit_cuda_set_device_out_of_range_witness :
  jit_cuda_set_device plain_externals 2 two_device_world =
  (Err (Raised msg_set_device_range
          [ArgI 2; ArgI (len (devices (state two_device_world)) - 1)]),
   two_device_world).
Proof.
  apply (jit_cuda_set_device_out_of_range plain_externals 2 1%nat
           thread_on_device_0 two_device_world);
    [ lia | vm_compute; reflexivity | reflexivity | reflexivity
    | discriminate | right; vm_compute; discriminate ].
Defined.

Lemma jit_cuda_set_device_switches_witness :
  let w' := with_heap_trace two_device_world
              (<[1%nat := switched_thread_state thread_on_device_0 device_1 1 1 1]>
                 (heap two_device_world))
              (trace two_device_world
               ++ switch_events thread_on_device_0 device_1 1) in
  jit_cuda_set_device plain_externals 1 two_device_world = (Ok tt, w') /\
  jit_cuda_context plain_externals w' = (Ok 101, w') /\
  jit_cuda_stream plain_externals w' = (Ok 1, w').
Proof.
  apply (jit_cuda_set_device_switches plain_externals 1 1%nat
           thread_on_device_0 device_1 two_device_world);
    [ exact plain_driver_ok | reflexivity | reflexivity | discriminate
    | lia | reflexivity ].
Defined.

Lemma jit_init_thread_state_cuda_registers_witness :
  let p := fresh (dom (heap two_device_world)) in
  heap two_device_world !! p = None /\
  jit_init_thread_state plain_externals true two_device_world =
  (Ok p,
   mkWorld (with_tss ([1%nat] ++ [p]) (state two_device_world))
     (<[p := mkThreadState true 100 1 1 0 None []]> (heap two_device_world))
     (Some p) None None []
     ([EvNew p] ++
      [EvCuda (Some 100) cuStreamCreate; EvCuda (Some 100) cuEventCreate])).
Proof.
  apply (jit_init_thread_state_cuda_registers plain_externals two_device_world
           device_0 [device_1]);
    [ exact plain_driver_ok | reflexivity | reflexivity ].
Defined.

Lemma jit_init_thread_state_llvm_registers_witness :
  let p := fresh (dom (heap leaky_world)) in
  heap leaky_world !! p = None /\
  jit_init_thread_state plain_externals false leaky_world =
  (Ok p,
   mkWorld (with_tss ([] ++ [p]) (state leaky_world))
     (<[p := mkThreadState false 0 0 0 (-1) None []]> (heap leaky_world))
     None (Some p) None [] ([] ++ [EvNew p])).
Proof.
  apply (jit_init_thread_state_llvm_registers plain_externals leaky_world);
    reflexivity.
Defined.

Lemma jit_init_thread_state_no_devices_witness :
  let p := fresh (dom (heap no_device_world)) in
  jit_init_thread_state plain_externals true no_device_world =
  (Err (Raised msg_no_devices []),
   add_events [EvNew p; EvDelete p] no_device_world).
Proof.
  apply (jit_init_thread_state_no_devices plain_externals no_device_world);
    reflexivity.
Defined.

Lemma three_thread_world_live :
  forall p, In p [1%nat; 2%nat; 3%nat] -> is_Some (three_thread_heap !! p).
Proof.
  intros p [<-|[<-|[<-|[]]]]; vm_compute; eauto.
Qed.

Lemma jit_sync_all_devices_waits_for_all_witness :
  exists w',
    jit_sync_all_devices plain_externals three_thread_world = (Ok tt, w') /\
    trace w' =
      trace three_thread_world ++
      [EvSnapshot (tss (state three_thread_world)); EvUnlock] ++
      sync_events (tss (state three_thread_world)) (heap three_thread_world)
      ++ [EvLock] /\
    state w' = state three_thread_world /\
    (forall p t, In p (tss (state three_thread_world)) ->
       heap three_thread_world !! p = Some t ->
       In (sync_event t)
          (sync_events (tss (state three_thread_world)) (heap three_thread_world)) /\
       heap w' !! p = Some (if ts_cuda t then t else clear_task t)) /\
    (forall p, ~ In p (tss (state three_thread_world)) ->
       heap w' !! p = heap three_thread_world !! p).
Proof.
  apply (jit_sync_all_devices_waits_for_all plain_externals plain_driver_ok
           three_thread_world);
    [ reflexivity | exact three_thread_world_live ].
Defined.

Lemma jit_sync_thread_waits_for_own_work_witness :
  exists w',
    jit_sync_thread plain_externals three_thread_world = (Ok tt, w') /\
    trace w' =
      trace three_thread_world ++ [EvUnlock] ++
      sync_events (own_thread_states three_thread_world)
        (heap three_thread_world) ++ [EvLock] /\
    state w' = state three_thread_world /\
    (forall p t, In p (own_thread_states three_thread_world) ->
       heap three_thread_world !! p = Some t ->
       In (sync_event t)
          (sync_events (own_thread_states three_thread_world)
             (heap three_thread_world)) /\
       heap w' !! p = Some (if ts_cuda t then t else clear_task t)) /\
    (forall p, ~ In p (own_thread_states three_thread_world) ->
       heap w' !! p = heap three_thread_world !! p).
Proof.
  apply (jit_sync_thread_waits_for_own_work plain_externals plain_driver_ok
           three_thread_world);
    [ reflexivity
    | intros p Hp; apply three_thread_world_live; simpl in Hp; simpl; tauto ].
Defined.

Lemma jit_shutdown_releases_everything_witness :
  let w := two_device_world in
  let w' := snd (jit_shutdown plain_externals 0 w) in
  tss (state w') = [] /\
  kernel_cache (state w') = [] /\
  (has_cuda (state w) = true -> devices (state w') = []) /\
  has_cuda (state w') = false /\
  has_llvm (state w') = false /\
  thread_state_cuda w' = None /\
  thread_state_llvm w' = None /\
  jit_temp_path w' = None /\
  (forall p, In p (tss (state w)) -> heap w' !! p = None) /\
  (forall p, ~ In p (tss (state w)) -> heap w' !! p = heap w !! p).
Proof.
  apply (jit_shutdown_releases_everything plain_externals plain_dec_ref_frame
           0 two_device_world).
  vm_compute. reflexivity.
Defined.

Lemma jit_shutdown_twice_witness :
  exists new,
    trace (snd (jit_shutdown plain_externals 0
                  (snd (jit_shutdown plain_externals 1 two_device_world)))) =
    trace (snd (jit_shutdown plain_externals 1 two_device_world)) ++ new /\
    Forall not_driver_work new.
Proof.
  apply (jit_shutdown_twice plain_externals plain_dec_ref_frame 1 0
           two_device_world).
  vm_compute. reflexivity.
Defined.

Lemma jit_shutdown_pointer_literal_leak_is_fatal_witness :
  (forall a, fst (jit_shutdown plain_externals 0 pointer_leak_world) <> Ok a) /\
  (forall w1,
     shutdown_release plain_externals pointer_leak_world = (Ok tt, w1) ->
     jit_shutdown plain_externals 0 pointer_leak_world =
       (Err (Fatal msg_ptr_leak []),
        add_events
          (if leak_pass_enabled (state pointer_leak_world)
           then empty_records_warning (state pointer_leak_world) else []) w1)).
Proof.
  apply (jit_shutdown_pointer_literal_leak_is_fatal plain_externals 0
           pointer_leak_world);
    [ reflexivity | reflexivity | discriminate ].
Defined.

Lemma jit_init_registers_devices_in_order_witness :
  let w' := snd (jit_init peer_externals 1 1 uninitialised_world) in
  Forall (device_ok peer_externals) (devices (state w')) /\
  StronglySorted Z.lt (map dev_id (devices (state w'))).
Proof.
  apply (jit_init_registers_devices_in_order peer_externals 1 1
           uninitialised_world);
    [ reflexivity | vm_compute; reflexivity ].
Defined.

Lemma jit_init_directory_failure_is_fatal_witness :
  let path := snprintf512 ("/home/user" ++ "/.enoki") in
  let creating := EvLog Info msg_creating_directory [ArgS path] in
  (String.length path <= 511)%nat /\
  jit_init readonly_home_externals 1 1 uninitialised_world =
  (Err (Fatal msg_directory_failed
          [ArgS path; ArgS (strerror_errno readonly_home_externals)]),
   mkWorld (state uninitialised_world) (heap uninitialised_world)
     (thread_state_cuda uninitialised_world)
     (thread_state_llvm uninitialised_world)
     (Some path) (ctx_stack uninitialised_world)
     (trace uninitialised_world ++ [creating; EvCall (call_mkdir path)])).
Proof.
  apply (jit_init_directory_failure_is_fatal readonly_home_externals 1 1
           "/home/user" uninitialised_world);
    [ reflexivity | reflexivity | reflexivity | discriminate
    | reflexivity | reflexivity | reflexivity ].
Defined.

Lemma x86_64_linux_mcjit_reaches_engines :
  reaches_engines x86_64_linux_mcjit api_complete.
Proof. repeat split; [left; reflexivity | right; reflexivity]. Qed.

Lemma jitc_llvm_init_succeeds_witness :
  let env := x86_64_linux_mcjit in
  let st1 := snd (jitc_llvm_init env LLVMState_initial) in
  fst (jitc_llvm_init env LLVMState_initial) = true /\
  jitc_llvm_use_orcv2 st1 = orcv2_usable env api_complete /\
  llvm_api st1 = Some api_complete /\
  jitc_llvm_vector_width st1 =
    detect_vector_width env (LLVMGetHostCPUFeatures env) /\
  jitc_llvm_max_align st1 =
    uint32 (detect_vector_width env (LLVMGetHostCPUFeatures env) * 4) /\
  jitc_llvm_opaque_pointers st1 = (15 <=? jitc_llvm_version_major env) /\
  jitc_llvm_init env st1 = (true, st1).
Proof.
  apply (jitc_llvm_init_succeeds x86_64_linux_mcjit LLVMState_initial
           api_complete);
    [ reflexivity | exact x86_64_linux_mcjit_reaches_engines
    | vm_compute; reflexivity | reflexivity ].
Defined.

Lemma jitc_llvm_shutdown_after_init_witness :
  let env := x86_64_linux_mcjit in
  let st2 := jitc_llvm_shutdown (snd (jitc_llvm_init env LLVMState_initial)) in
  llvm_api st2 = None /\
  jitc_llvm_init_attempted st2 = false /\
  jitc_llvm_init_success st2 = false /\
  jitc_llvm_target_triple st2 = Some (LLVMGetDefaultTargetTriple env) /\
  jitc_llvm_target_cpu st2 = None /\
  jitc_llvm_target_features st2 = None /\
  jitc_llvm_disasm_ctx st2 = false /\
  orcv2_active st2 = false /\ mcjit_active st2 = false /\
  jitc_llvm_vector_width st2 = 0 /\
  jitc_llvm_shutdown st2 = st2 /\
  fst (jitc_llvm_init env st2) = true.
Proof.
  apply (jitc_llvm_shutdown_after_init x86_64_linux_mcjit LLVMState_initial
           api_complete);
    [ reflexivity | exact x86_64_linux_mcjit_reaches_engines
    | vm_compute; reflexivity | reflexivity ].
Defined.

Lemma jit_shutdown_light_keeps_backends_witness :
  (exists new,
     trace (snd (jit_shutdown plain_externals 1 two_device_world)) =
     trace two_device_world ++ new /\
     Forall keeps_backends new) /\
  (exists pre,
     trace (snd (jit_shutdown plain_externals 0 two_device_world)) =
     pre ++ [EvLog Info "jit_shutdown(): done" [];
             EvCall call_jit_llvm_shutdown; EvCall call_jit_cuda_shutdown]).
Proof.
  split.
  - apply (proj1 (jit_shutdown_light_keeps_backends plain_externals 1
                    two_device_world)).
    discriminate.
  - apply (proj2 (jit_shutdown_light_keeps_backends plain_externals 0
                    two_device_world)).
    vm_compute. reflexivity.
Defined.

Lemma jit_init_skips_unrequested_backend_witness :
  (devices (state (snd (jit_init plain_externals 1 0 uninitialised_world))) = [] /\
   exists new,
     trace (snd (jit_init plain_externals 1 0 uninitialised_world)) =
     trace uninitialised_world ++ new /\
     Forall not_cuda new) /\
  (exists new,
     trace (snd (jit_init peer_externals 0 1 uninitialised_world)) =
     trace uninitialised_world ++ new /\
     Forall not_llvm_init new).
Proof.
  split.
  - apply (proj1 (jit_init_skips_unrequested_backend plain_externals 1 0
                    uninitialised_world)); reflexivity.
  - apply (proj2 (jit_init_skips_unrequested_backend peer_externals 0 1
                    uninitialised_world)); reflexivity.
Defined.

Lemma jitc_llvm_update_strings_elements_witness :
  nth_error (jitc_llvm_update_strings five_var_types 2) 3 =
  Some "<float 0xFFFFFFFF00000000, float 0xFFFFFFFF00000000>".
Proof.
  apply (jitc_llvm_update_strings_elements five_var_types 2 3);
    [ lia | cbv; lia | cbv; discriminate | reflexivity ].
Defined.

Lemma toy_disasm_sized : disasm_sized toy_disasm.
Proof.
  intros bytes bytes_size H. unfold toy_disasm, size_t.
  destruct (Z.ltb_spec bytes_size 1); [cbn [fst]; rewrite Z.mod_small; lia|].
  destruct (_ =? 0); [cbn [fst]; rewrite Z.mod_small; lia|].
  destruct (_ =? 3); cbn [fst]; rewrite Z.mod_small; lia.
Qed.

Lemma toy_kernel_wf : kernel_wf toy_kernel.
Proof.
  unfold kernel_wf, toy_kernel; cbn.
  repeat split; try lia. repeat constructor; lia.
Qed.

Lemma jitc_llvm_disasm_stays_in_kernel_witness :
  Forall (call_in_bounds toy_kernel)
    (jitc_llvm_disasm toy_disasm trace_level_state toy_kernel) /\
  (forall base m,
     In base (kernel_reloc toy_kernel) ->
     (S (Z.to_nat (kernel_size toy_kernel)) <= m)%nat ->
     disasm_loop toy_disasm m toy_kernel base base false =
     disasm_loop toy_disasm (S (Z.to_nat (kernel_size toy_kernel))) toy_kernel
       base base false).
Proof.
  apply (jitc_llvm_disasm_stays_in_kernel toy_disasm
           trace_level_state toy_kernel);
    [ exact toy_disasm_sized | exact toy_kernel_wf ].
Defined.

Lemma jitc_llvm_disasm_stops_at_ret_witness : @nil DisasmEvent = [].
Proof.
  apply (jitc_llvm_disasm_stops_at_ret toy_disasm toy_kernel 0 4096
           [DisasmLog msg_disasm_header [ArgI 0];
            DisasmCall 4096 8;
            DisasmLog msg_disasm_line [ArgI 0; ArgS "addq %rax, %rbx"];
            DisasmCall 4097 7;
            DisasmLog msg_disasm_nops [];
            DisasmCall 4098 6;
            DisasmCall 4099 5]
           []
           (DisasmLog msg_disasm_line [ArgI 3; ArgS "retq"]));
    [ vm_compute; reflexivity | reflexivity ].
Defined.

(** The listing of the toy kernel at log level [Trace]. *)
Example jitc_llvm_disasm_toy_kernel :
  log_lines (jitc_llvm_disasm toy_disasm
               trace_level_state toy_kernel) =
  [DisasmLog msg_disasm_header [ArgI 0];
   DisasmLog msg_disasm_line [ArgI 0; ArgS "addq %rax, %rbx"];
   DisasmLog msg_disasm_nops [];
   DisasmLog msg_disasm_line [ArgI 3; ArgS "retq"];
   DisasmLog msg_disasm_header [ArgI 2];
   DisasmLog msg_disasm_line [ArgI 0; ArgS "addq %rax, %rbx"];
   DisasmLog msg_disasm_nops [];
   DisasmLog msg_disasm_line [ArgI 3; ArgS "retq"]].
Proof. vm_compute. reflexivity. Qed.
